(** * goriffa: a RIFF container reader and writer, and its WAVE format codec.

    A shallow embedding of the Go packages [internal], [reader], [writer] and
    [wave], of the in-memory transports the repository reads from and writes
    to, and the properties of the codec proved over that embedding.

    Conventions.
    - Go's [int] and [int64] are 64-bit two's complement integers, [uint32]
      and [uint16] unsigned ones; all are [Z] with the wrap-around written
      where Go's arithmetic wraps.
    - A byte slice is a [list byte], the bytes it holds when it is used; a
      [[4]byte] array is a 4-tuple.  Where a run of calls can write through
      one slice into the array of another, module [slices] keeps the arrays.
    - A Go function that can panic returns an [outcome].
    - An error made by [fmt.Errorf] keeps the error it wraps and the fixed
      part of its text; the numbers formatted into the text are left out.
    - Fields of a session that Go mutates in place are threaded explicitly,
      and so is the state of the transport behind an [io.Reader] or
      [io.Writer]. *)

From Stdlib Require Import String Strings.Byte.
From Stdlib Require Import ZArith List Bool Lia.
From coqutil Require Z.bitblast.
Import ListNotations.
Local Open Scope Z_scope.

Set Implicit Arguments.

(** ** Go values *)

Module Go.

Definition byte : Type := Init.Byte.byte.

Definition byte_to_Z (b : byte) : Z := Z.of_N (Byte.to_N b).

(** The conversion [byte(x)] of an integer: the low eight bits. *)
Definition byte_of_Z (z : Z) : byte :=
  match Byte.of_N (Z.to_N (z mod 256)) with
  | Some b => b
  | None => x00
  end.

Definition MaxUint32 : Z := 4294967295.
Definition uint16 (z : Z) : Z := z mod 2 ^ 16.
Definition uint32 (z : Z) : Z := z mod 2 ^ 32.
Definition int64 (z : Z) : Z := (z + 2 ^ 63) mod 2 ^ 64 - 2 ^ 63.

Definition len {A : Type} (l : list A) : Z := Z.of_nat (length l).

(** [make([]byte, n)] *)
Definition make (n : Z) : list byte := repeat x00 (Z.to_nat n).

(** [copy(dst, src)] seen from [dst]: as much of [src] as fits
    overwrites the front of [dst]. *)
Definition fill (dst src : list byte) : list byte :=
  firstn (length dst) src ++ skipn (length src) dst.

(** Errors.  A sentinel made by [errors.New] is identified by its text;
    [fmt.Errorf] with a [%w] verb and [internal.Wrap] both build an error
    that unwraps to the one they were given. *)
Inductive error : Type :=
| errors_New (text : string)
| fmt_Errorf (text : string) (w : error)
| wrappingError (message : string) (wrapping : error).

Fixpoint error_eqb (a b : error) : bool :=
  match a, b with
  | errors_New s, errors_New s' => String.eqb s s'
  | fmt_Errorf s w, fmt_Errorf s' w' => String.eqb s s' && error_eqb w w'
  | wrappingError s w, wrappingError s' w' => String.eqb s s' && error_eqb w w'
  | _, _ => false
  end.

(** [errors.Is(err, target)] *)
Fixpoint errors_Is (err target : error) : bool :=
  error_eqb err target ||
  match err with
  | errors_New _ => false
  | fmt_Errorf _ w => errors_Is w target
  | wrappingError _ w => errors_Is w target
  end.

Definition io_EOF : error := errors_New "EOF".
Definition io_ErrShortWrite : error := errors_New "short write".
Definition io_ErrShortBuffer : error := errors_New "short buffer".
Definition runtime_index_out_of_range : error :=
  errors_New "runtime error: index out of range".

(** What a call leaves behind: a value, or a panic with its value. *)
Inductive outcome (A : Type) : Type :=
| Ret (a : A)
| Panic (v : error).
Arguments Panic {A} v.

Definition bind {A B : Type} (m : outcome A) (k : A -> outcome B) : outcome B :=
  match m with
  | Ret a => k a
  | Panic v => Panic v
  end.

(** [binary.LittleEndian.Uint16] and [Uint32]; both index the last byte
    they need first, and so panic on a shorter slice. *)
Definition Uint16 (b : list byte) : outcome Z :=
  match b with
  | b0 :: b1 :: _ =>
      Ret (Z.lor (byte_to_Z b0) (Z.shiftl (byte_to_Z b1) 8))
  | _ => Panic runtime_index_out_of_range
  end.

Definition Uint32 (b : list byte) : outcome Z :=
  match b with
  | b0 :: b1 :: b2 :: b3 :: _ =>
      Ret (Z.lor (Z.lor (Z.lor (byte_to_Z b0) (Z.shiftl (byte_to_Z b1) 8))
                        (Z.shiftl (byte_to_Z b2) 16))
                 (Z.shiftl (byte_to_Z b3) 24))
  | _ => Panic runtime_index_out_of_range
  end.

(** [binary.LittleEndian.PutUint16] and [PutUint32] into a fresh array. *)
Definition PutUint16 (u : Z) : list byte :=
  [byte_of_Z u; byte_of_Z (Z.shiftr u 8)].

Definition PutUint32 (u : Z) : list byte :=
  [byte_of_Z u; byte_of_Z (Z.shiftr u 8);
   byte_of_Z (Z.shiftr u 16); byte_of_Z (Z.shiftr u 24)].

(** [err.Error()], with the texts as they are kept here. *)
Definition Error (e : error) : string :=
  match e with
  | errors_New text => text
  | fmt_Errorf text _ => text
  | wrappingError message _ => message
  end.

End Go.
Import Go.

Declare Scope go_scope.
Notation "x <- m ;; k" := (bind m (fun x => k))
  (at level 61, m at next level, right associativity) : go_scope.
Notation "' p <- m ;; k" := (bind m (fun p => k))
  (at level 61, p pattern, m at next level, right associativity) : go_scope.
Local Open Scope go_scope.

(** ** Package [internal] *)

Module internal.

Definition fourBytes : Type := (byte * byte * byte * byte)%type.
Definition FourCC : Type := fourBytes.
Definition FileType : Type := fourBytes.

(** The slice [a[:]] of a 4-byte array. *)
Definition slice4 (a : fourBytes) : list byte :=
  let '(b0, b1, b2, b3) := a in [b0; b1; b2; b3].

(** The array that a 4-byte slice covers. *)
Definition array4 (b : list byte) : fourBytes :=
  (nth 0 b x00, nth 1 b x00, nth 2 b x00, nth 3 b x00).

Definition LengthChunkHeader : Z := 8.

Definition EmptyBytes : fourBytes := (x00, x00, x00, x00).

Record Chunk : Type := mkChunk {
  Identifier : FourCC;
  Data : list byte
}.

(** The zero value of [Chunk], what [var ch internal.Chunk] declares. *)
Definition zeroChunk : Chunk := mkChunk EmptyBytes [].

Definition ErrBufferUnderflow : error := errors_New "read fewer bytes than expected".
Definition ErrClosed : error := errors_New "closed".
Definition ErrCorrupted : error := errors_New "corrupted".
Definition ErrBadChunk : error := errors_New "invalid chunk".

(** [Wrap(msg, err)] for a non-nil [err]. *)
Definition Wrap (msg : string) (err : error) : error := wrappingError msg err.

Definition wordLength : Z := 2.

Definition PaddedLength (n : Z) : Z :=
  let md := Z.rem n wordLength in
  if negb (md =? 0) then int64 (n + (wordLength - md)) else n.

(** The bytes of the slice that [Pad] returns.  The [append] in it can
    write into the array of [b]; [slices.Pad] has that write. *)
Definition Pad (b : list byte) : list byte :=
  let md := Z.rem (len b) wordLength in
  if negb (md =? 0) then b ++ make (wordLength - md) else b.

Definition ByteLength (c : Chunk) : Z :=
  int64 (8 + PaddedLength (len (Data c))).

Definition Must4Byte (b : list byte) : outcome fourBytes :=
  if negb (len b =? 4)
  then Panic (errors_New "wrong number of bytes")
  else Ret (array4 b).

Definition StringMust4Byte (s : string) : outcome fourBytes :=
  Must4Byte (list_byte_of_string s).

Definition LittleEndianUInt16Bytes (u : Z) : list byte := PutUint16 u.
Definition LittleEndianUInt32Bytes (u : Z) : list byte := PutUint32 u.

(** An [io.Writer] with [io.WriterAt]: a state and the two calls, each
    giving the count, the error and the next state. *)
Section Writing.
Variable W : Type.
Variable write : W -> list byte -> outcome ((Z * option error) * W).
Variable writeAt : W -> list byte -> Z -> outcome ((Z * option error) * W).

Fixpoint Write_from (total : Z) (w : W) (content : list (list byte))
  : outcome ((Z * option error) * W) :=
  match content with
  | [] => Ret ((total, None), w)
  | slice :: rest =>
      '(n, err, w') <- write w slice ;;
      let total := int64 (total + n) in
      match err with
      | Some e => Ret ((total, Some e), w')
      | None =>
          if n <? len slice
          then Ret ((total, Some io_ErrShortWrite), w')
          else Write_from total w' rest
      end
  end.

Definition Write (w : W) (content : list (list byte))
  : outcome ((Z * option error) * W) :=
  Write_from 0 w content.

Definition WriteAt (w : W) (b : list byte) (offset : Z)
  : outcome ((Z * option error) * W) :=
  '(n, err, w') <- writeAt w b offset ;;
  match err with
  | Some e => Ret ((n, Some e), w')
  | None =>
      if n <? len b
      then Ret ((n, Some io_ErrShortWrite), w')
      else Ret ((n, None), w')
  end.
End Writing.

(** An [io.Reader]: a state and [Read], which is asked for as many bytes
    as the buffer is long and gives the bytes it put at the front of the
    buffer, the error and the next state; its count is their number. *)
Section Reading.
Variable T : Type.
Variable read : T -> nat -> outcome ((list byte * option error) * T).

(** The buffers come back as the reads left them. *)
Fixpoint Read_from (total : Z) (t : T) (content : list (list byte))
  : outcome ((Z * option error) * list (list byte) * T) :=
  match content with
  | [] => Ret ((total, None), [], t)
  | slice :: rest =>
      '(got, err, t') <- read t (length slice) ;;
      let n := len got in
      let total := int64 (total + n) in
      let slice' := fill slice got in
      match err with
      | Some e => Ret ((total, Some e), slice' :: rest, t')
      | None =>
          if n <? len slice
          then Ret ((total, Some ErrBufferUnderflow), slice' :: rest, t')
          else
            '(res, rest', t'') <- Read_from total t' rest ;;
            Ret (res, slice' :: rest', t'')
      end
  end.

Definition Read (t : T) (content : list (list byte))
  : outcome ((Z * option error) * list (list byte) * T) :=
  Read_from 0 t content.
End Reading.

(** An [io.ByteReader]. *)
Section ByteReading.
Variable B : Type.
Variable readByte : B -> (byte * option error) * B.

(** The loop [for i := 0; i < cap(bytes); i++] of the two functions below,
    with [k] rounds to go. *)
Fixpoint readBytes (k : nat) (r : B) (bytes : list byte)
  : outcome (list byte * B) :=
  match k with
  | O => Ret (bytes, r)
  | S k' =>
      let '(b, err, r') := readByte r in
      match err with
      | Some e => Panic e
      | None => readBytes k' r' (bytes ++ [b])
      end
  end.

Definition ReadLittleEndianUInt16 (r : B) : outcome (Z * B) :=
  '(bytes, r') <- readBytes 2 r [] ;;
  u <- Uint16 bytes ;;
  Ret (u, r').

Definition ReadLittleEndianUInt32 (r : B) : outcome (Z * B) :=
  '(bytes, r') <- readBytes 4 r [] ;;
  u <- Uint32 bytes ;;
  Ret (u, r').
End ByteReading.

(** [Copy(dst, src)]: the error, and [dst] as the copy left it. *)
Definition Copy (dst src : list byte) : option error * list byte :=
  let n := Z.min (len dst) (len src) in
  if n <? len src
  then (Some io_ErrShortBuffer, fill dst src)
  else (None, fill dst src).

(** [Panic(v)] for a [v] that is an error. *)
Definition Panic_error {A : Type} (v : error) : outcome A :=
  Panic (Wrap (String.append "goriffa: " (Error v)) v).

(** The methods [String] of [FourCC] and [FileType]. *)
Definition FourCC_String (cc : FourCC) : string := string_of_list_byte (slice4 cc).
Definition FileType_String (ft : FileType) : string := string_of_list_byte (slice4 ft).

End internal.
Import internal.

(** ** Package [goriffa] *)

Module goriffa.
Definition FourCCRIFF : FourCC := ("R", "I", "F", "F")%byte.
Definition FourCCFormat : FourCC := ("f", "m", "t", " ")%byte.
Definition FourCCData : FourCC := ("d", "a", "t", "a")%byte.
End goriffa.
Import goriffa.

(** ** The transports

    [bytes.Reader] and [bytes.Buffer] of Go's library, [test.Buffer] of
    [internal/test], which adds [WriteAt] to [bytes.Buffer], and the
    [MockWriter] of the writer's tests.  A reader or a buffer is the list
    of its unread bytes. *)

Module bytes.

Fixpoint Equal (a b : list byte) : bool :=
  match a, b with
  | [], [] => true
  | x :: a', y :: b' => Byte.eqb x y && Equal a' b'
  | _, _ => false
  end.

(** [Read] of [bytes.Reader]: end-of-stream whenever nothing is left, also
    for an empty buffer. *)
Definition Reader_Read (s : list byte) (k : nat)
  : outcome ((list byte * option error) * list byte) :=
  match s with
  | [] => Ret (([], Some io_EOF), s)
  | _ => Ret ((firstn k s, None), skipn k s)
  end.

Definition Reader_ReadByte (s : list byte) : (byte * option error) * list byte :=
  match s with
  | [] => ((x00, Some io_EOF), s)
  | b :: s' => ((b, None), s')
  end.

(** [Read] of [bytes.Buffer]: an empty buffer gives end-of-stream, unless
    nothing was asked for. *)
Definition Buffer_Read (s : list byte) (k : nat)
  : outcome ((list byte * option error) * list byte) :=
  match s with
  | [] => if Nat.eqb k 0 then Ret (([], None), s) else Ret (([], Some io_EOF), s)
  | _ => Ret ((firstn k s, None), skipn k s)
  end.

Definition Buffer_Write (s : list byte) (p : list byte)
  : outcome ((Z * option error) * list byte) :=
  Ret ((len p, None), s ++ p).

End bytes.

Module test.

Definition Buffer_WriteAt (buf : list byte) (b : list byte) (offset : Z)
  : outcome ((Z * option error) * list byte) :=
  let currentBytes := buf in
  if offset >? len currentBytes
  then Panic (errors_New "goriffa: offset out of bounds")
  else if offset <? 0
  then Panic (errors_New "runtime error: slice bounds out of range")
  else
    let front := firstn (Z.to_nat offset) currentBytes in
    let back := skipn (Z.to_nat offset) currentBytes in
    let n := Z.min (len back) (len b) in
    let currentBytes := front ++ fill back b in
    let currentBytes :=
      if n <? len b then currentBytes ++ skipn (Z.to_nat n) b else currentBytes in
    Ret ((len b, None), currentBytes).

(** [MockWriter]: every call gives back the next prepared result, whatever
    its arguments; a call that was not prepared panics. *)
Record MockWriter : Type := mkMockWriter {
  onWrite : list (Z * option error);
  onWriteAt : list (Z * option error)
}.

Definition MockWriter_Write (m : MockWriter) (b : list byte)
  : outcome ((Z * option error) * MockWriter) :=
  match onWrite m with
  | [] => Panic (errors_New "mock: unexpected method call")
  | res :: rest => Ret (res, mkMockWriter rest (onWriteAt m))
  end.

Definition MockWriter_WriteAt (m : MockWriter) (b : list byte) (offset : Z)
  : outcome ((Z * option error) * MockWriter) :=
  match onWriteAt m with
  | [] => Panic (errors_New "mock: unexpected method call")
  | res :: rest => Ret (res, mkMockWriter (onWrite m) rest)
  end.

End test.

(** ** Package [reader] *)

Module reader.

Record Reader : Type := mkReader {
  fileType : FileType;
  size : Z;
  bytesRead : Z
}.

Definition errCorruptedTooShort : error :=
  fmt_Errorf "corrupted: read fewer bytes than expected" ErrCorrupted.

Definition errCorruptedReadOutOfBounds : error :=
  fmt_Errorf "corrupted: read outside file size - file must be corrupt" ErrCorrupted.

Definition wrap (err : error) : error :=
  if errors_Is err ErrBufferUnderflow || errors_Is err io_EOF
  then errCorruptedTooShort
  else err.

Section Session.
Variable T : Type.
Variable tRead : T -> nat -> outcome ((list byte * option error) * T).

(** [New] gives the session or the error, never both. *)
Definition New (t : T) : outcome ((Reader + error) * T) :=
  '(res, bufs, t) <-
    internal.Read tRead t [slice4 EmptyBytes; slice4 EmptyBytes; slice4 EmptyBytes] ;;
  let riffPrefix := nth 0 bufs [] in
  let size_ := nth 1 bufs [] in
  let fileType_ := nth 2 bufs [] in
  match snd res with
  | Some err => Ret (inr (wrap err), t)
  | None =>
      if negb (bytes.Equal riffPrefix (slice4 FourCCRIFF))
      then Ret (inr (fmt_Errorf "corrupted: data does not begin with RIFF header"
                       ErrCorrupted), t)
      else
        parsedSize <- Uint32 size_ ;;
        let riffReader := mkReader (array4 fileType_) parsedSize 0 in
        if size riffReader <? 4
        then Ret (inr (fmt_Errorf "corrupted: impossibly small file size"
                         ErrCorrupted), t)
        else
          Ret (inl (mkReader (fileType riffReader) (size riffReader)
                      (len fileType_)), t)
  end.

(** The method [read]; the buffer comes back as the read left it. *)
Definition read (r : Reader) (t : T) (b : list byte)
  : outcome ((Z * option error) * list byte * Reader * T) :=
  '(got, err, t) <- tRead t (length b) ;;
  let n := len got in
  let b := fill b got in
  let r := mkReader (fileType r) (size r) (int64 (bytesRead r + n)) in
  match err with
  | Some e => Ret ((n, Some e), b, r, t)
  | None =>
      if bytesRead r >? PaddedLength (size r)
      then Ret ((n, Some errCorruptedReadOutOfBounds), b, r, t)
      else Ret ((n, None), b, r, t)
  end.

(** [ReadChunk] is given the chunk its pointer argument points to and
    gives back what it points to afterwards. *)
Definition ReadChunk (r : Reader) (t : T) (chunk : Chunk)
  : outcome ((Z * option error) * Chunk * Reader * T) :=
  let header := make LengthChunkHeader in
  '(headerN, headerErr, header, r, t) <- read r t header ;;
  match headerErr with
  | Some e => Ret ((headerN, Some e), chunk, r, t)
  | None =>
      if headerN <? len header
      then Ret ((headerN, Some errCorruptedTooShort), chunk, r, t)
      else
        chunkSize <- Uint32 (skipn 4 header) ;;
        let data := Pad (make chunkSize) in
        '(dataN, dataErr, data, r, t) <- read r t data ;;
        let totalN := int64 (headerN + dataN) in
        identifier <- Must4Byte (firstn 4 header) ;;
        let chunk := mkChunk identifier (firstn (Z.to_nat chunkSize) data) in
        match dataErr with
        | Some e => Ret ((totalN, Some e), chunk, r, t)
        | None =>
            if dataN <? len data
            then Ret ((totalN, Some errCorruptedTooShort), chunk, r, t)
            else Ret ((totalN, None), chunk, r, t)
        end
  end.

(** The loop of [ReadToEnd], with [fuel] rounds to go; [None] when they
    run out before the loop returns. *)
Fixpoint ReadToEnd_loop (fuel : nat) (r : Reader) (t : T) (chunks : list Chunk)
  : option (outcome ((list Chunk * option error) * Reader * T)) :=
  match fuel with
  | O => None
  | S fuel' =>
      match ReadChunk r t zeroChunk with
      | Panic v => Some (Panic v)
      | Ret (_, Some err, _, r', t') =>
          if errors_Is err io_EOF
          then Some (Ret ((chunks, None), r', t'))
          else Some (Ret ((chunks, Some err), r', t'))
      | Ret (_, None, ch, r', t') =>
          ReadToEnd_loop fuel' r' t' (chunks ++ [ch])
      end
  end.

Definition ReadToEnd (fuel : nat) (r : Reader) (t : T)
  : option (outcome ((list Chunk * option error) * Reader * T)) :=
  ReadToEnd_loop fuel r t [].

End Session.
End reader.

(** ** Package [writer] *)

Module writer.

Record Writer : Type := mkWriter {
  fileType : FileType;
  fileSize : Z;
  closed : bool
}.

Section Session.
Variable W : Type.
Variable tWrite : W -> list byte -> outcome ((Z * option error) * W).
Variable tWriteAt : W -> list byte -> Z -> outcome ((Z * option error) * W).

Definition init (w : Writer) (t : W) : outcome (option error * Writer * W) :=
  '(res, t) <-
    internal.Write tWrite t [slice4 FourCCRIFF; slice4 EmptyBytes; slice4 (fileType w)] ;;
  match snd res with
  | Some err => Ret (Some err, w, t)
  | None => Ret (None, mkWriter (fileType w) 4 (closed w), t)
  end.

Definition New (t : W) (fileType_ : FileType) : outcome ((Writer + error) * W) :=
  let writer := mkWriter fileType_ 0 false in
  '(err, writer, t) <- init writer t ;;
  match err with
  | Some e => Ret (inr e, t)
  | None => Ret (inl writer, t)
  end.

Definition WriteChunk (w : Writer) (t : W) (c : Chunk)
  : outcome ((Z * option error) * Writer * W) :=
  if negb (closed w) then
    let newSize := int64 (fileSize w + ByteLength c) in
    if (newSize >? MaxUint32) || (newSize <? fileSize w)
    then Ret ((0, Some (fmt_Errorf "corrupted: wrote too many bytes - size overflow"
                          ErrCorrupted)), w, t)
    else
      let b := Pad (Data c) in
      '(n, err, t) <-
        internal.Write tWrite t
          [slice4 (Identifier c); LittleEndianUInt32Bytes (uint32 (len (Data c))); b] ;;
      match err with
      | Some e => Ret ((n, Some e), w, t)
      | None =>
          Ret ((n, None), mkWriter (fileType w) (int64 (fileSize w + n)) (closed w), t)
      end
  else Ret ((0, Some ErrClosed), w, t).

Definition Close (w : Writer) (t : W) : outcome (option error * Writer * W) :=
  if negb (closed w) then
    let w := mkWriter (fileType w) (fileSize w) true in
    let fileSizeBytes := LittleEndianUInt32Bytes (uint32 (fileSize w)) in
    '(res, t) <- internal.WriteAt tWriteAt t fileSizeBytes (len (slice4 FourCCRIFF)) ;;
    match snd res with
    | Some err => Ret (Some err, w, t)
    | None => Ret (None, w, t)
    end
  else Ret (Some ErrClosed, w, t).

End Session.
End writer.

(** ** Package [wave] *)

Module wave.

Definition LengthFormatChunk : Z := LengthChunkHeader + 16.

Definition PCM : Z := 1.

Definition ErrBadWaveData : error := Wrap "invalid Wavefile data" ErrCorrupted.
Definition ErrInvalidChannelCount : error := Wrap "invalid channel count" ErrBadWaveData.
Definition ErrInvalidSampleRate : error := Wrap "invalid sample rate" ErrBadWaveData.
Definition ErrInconsistentBytesPerSecond : error :=
  Wrap "bytes per second was inconsistent" ErrBadWaveData.
Definition ErrInconsistentBlockAlignment : error :=
  Wrap "block alignment was inconsistent" ErrBadWaveData.
Definition ErrInvalidBitRate : error := Wrap "invalid bit rate" ErrBadWaveData.

Record Format : Type := mkFormat {
  BitsPerSample : Z;
  Channels : Z;
  SampleRate : Z;
  AudioFormat : Z
}.

(** [f.BitsPerSample / 8 * f.Channels] on [uint16]. *)
Definition BlockAlign (f : Format) : Z :=
  uint16 (BitsPerSample f / 8 * Channels f).

(** [f.SampleRate * uint32(f.BitsPerSample) / 8 * uint32(f.Channels)] on
    [uint32], from the left. *)
Definition BytesPerSecond (f : Format) : Z :=
  uint32 (uint32 (SampleRate f * BitsPerSample f) / 8 * Channels f).

Definition Validate (f : Format) : option error :=
  if BitsPerSample f =? 0
  then Some (fmt_Errorf "bit rate cannot be 0" ErrInvalidBitRate)
  else if negb (BitsPerSample f mod 8 =? 0)
  then Some (fmt_Errorf "bit rate must be a multiple of 8" ErrInvalidBitRate)
  else if Channels f =? 0
  then Some (fmt_Errorf "channel count cannot be 0" ErrInvalidChannelCount)
  else if SampleRate f =? 0
  then Some (fmt_Errorf "sample rate cannot be 0" ErrInvalidSampleRate)
  else None.

(** A [goriffa.Reader]: a state and its [ReadChunk]. *)
Section Decoding.
Variable R : Type.
Variable rReadChunk : R -> Chunk -> outcome ((Z * option error) * Chunk * R).

Definition FormatFromReader (r : R) : outcome ((Format * option error) * R) :=
  let f := mkFormat 0 0 0 0 in
  '(n, err, ch, r) <- rReadChunk r zeroChunk ;;
  match err with
  | Some e => Ret ((f, Some e), r)
  | None =>
      if negb (n =? LengthFormatChunk)
      then Ret ((f, Some (fmt_Errorf "format chunk is invalid size" ErrBadWaveData)), r)
      else if negb (bytes.Equal (slice4 (Identifier ch)) (slice4 FourCCFormat))
      then Ret ((f, Some (fmt_Errorf "format chunk FOURCC incorrect" ErrBadWaveData)), r)
      else
        let buffer := Data ch in
        '(audioFormat, buffer) <- ReadLittleEndianUInt16 bytes.Reader_ReadByte buffer ;;
        '(channels, buffer) <- ReadLittleEndianUInt16 bytes.Reader_ReadByte buffer ;;
        '(sampleRate, buffer) <- ReadLittleEndianUInt32 bytes.Reader_ReadByte buffer ;;
        '(expectedBytesPerSecond, buffer) <-
          ReadLittleEndianUInt32 bytes.Reader_ReadByte buffer ;;
        '(expectedBlockAlign, buffer) <-
          ReadLittleEndianUInt16 bytes.Reader_ReadByte buffer ;;
        '(bitsPerSample, buffer) <- ReadLittleEndianUInt16 bytes.Reader_ReadByte buffer ;;
        let f := mkFormat bitsPerSample channels sampleRate audioFormat in
        if negb (expectedBytesPerSecond =? uint32 (BytesPerSecond f))
        then Ret ((f, Some (fmt_Errorf
                     "stream has invalid average bytes-per-second field"
                     ErrInconsistentBytesPerSecond)), r)
        else if negb (expectedBlockAlign =? uint16 (BlockAlign f))
        then Ret ((f, Some (fmt_Errorf "stream contained invalid block alignment"
                              ErrInconsistentBlockAlignment)), r)
        else
          match Validate f with
          | Some e => Ret ((f, Some e), r)
          | None => Ret ((f, None), r)
          end
  end.

End Decoding.
Definition formatToBytes (f : Format) : outcome (list byte) :=
  let formatData :=
    LittleEndianUInt16Bytes (uint16 (AudioFormat f))
    ++ LittleEndianUInt16Bytes (Channels f)
    ++ LittleEndianUInt32Bytes (SampleRate f)
    ++ LittleEndianUInt32Bytes (uint32 (BytesPerSecond f))
    ++ LittleEndianUInt16Bytes (uint16 (BlockAlign f))
    ++ LittleEndianUInt16Bytes (uint16 (BitsPerSample f)) in
  let formatBuffer :=
    slice4 FourCCFormat
    ++ LittleEndianUInt32Bytes (uint32 (len formatData)) ++ formatData in
  let '(err, rawBytes) := Copy (make LengthFormatChunk) formatBuffer in
  match err with
  | Some e => Panic_error e
  | None => Ret rawBytes
  end.

(** A [goriffa.Writer]: a state and its [WriteChunk]. *)
Section Encoding.
Variable Wr : Type.
Variable wWriteChunk : Wr -> Chunk -> outcome ((Z * option error) * Wr).

Definition WritePCM (w : Wr) (f : Format) (pcm : list byte)
  : outcome ((Z * option error) * Wr) :=
  match Validate f with
  | Some err => Ret ((0, Some err), w)
  | None =>
      if negb (AudioFormat f =? PCM)
      then Ret ((0, Some (fmt_Errorf
                   "attempt to write PCM data with non-PCM audio format"
                   ErrBadWaveData)), w)
      else
        data <- formatToBytes f ;;
        '(fmtN, fmtErr, w) <-
          wWriteChunk w
            (mkChunk FourCCFormat (skipn (Z.to_nat LengthChunkHeader) data)) ;;
        match fmtErr with
        | Some e => Ret ((fmtN, Some e), w)
        | None =>
            '(audioN, audioErr, w) <- wWriteChunk w (mkChunk FourCCData pcm) ;;
            Ret ((int64 (fmtN + audioN), audioErr), w)
        end
  end.

End Encoding.
End wave.


(** ** Streams of the repository's tests and examples *)

Module examples.

(** [RIFFReader] of the reader's examples: a container that declares 42
    bytes, with a 5-byte chunk and an 8-byte chunk. *)
Definition RIFFReader : list byte :=
  slice4 FourCCRIFF ++ map byte_of_Z [42; 0; 0; 0] ++ list_byte_of_string "WAVE"
  ++ slice4 FourCCFormat ++ map byte_of_Z [5; 0; 0; 0]
  ++ map byte_of_Z [1; 2; 3; 4; 5; 0]
  ++ slice4 FourCCData ++ map byte_of_Z [8; 0; 0; 0]
  ++ map byte_of_Z [1; 2; 3; 4; 5; 6; 7; 8].

(** [test.FileType] *)
Definition FileType : internal.FileType :=
  (byte_of_Z 10, byte_of_Z 12, byte_of_Z 14, byte_of_Z 16).

(** [header(size)] of the reader's tests. *)
Definition header (size : Z) : list byte :=
  slice4 FourCCRIFF ++ LittleEndianUInt32Bytes (uint32 (size + 4)) ++ slice4 FileType.

(** [chunk(c)] of the reader's tests: a chunk as it is on the wire. *)
Definition chunk (c : Chunk) : list byte :=
  slice4 (Identifier c)
  ++ LittleEndianUInt32Bytes (uint32 (len (Data c))) ++ Pad (Data c).

(** The format chunk of the wave tests, [fmtExample], with its fields
    left open. *)
Definition fmtData (audioFormat channels sampleRate byteRate blockAlign
                    bitsPerSample : Z) : list byte :=
  LittleEndianUInt16Bytes audioFormat ++ LittleEndianUInt16Bytes channels
  ++ LittleEndianUInt32Bytes sampleRate ++ LittleEndianUInt32Bytes byteRate
  ++ LittleEndianUInt16Bytes blockAlign ++ LittleEndianUInt16Bytes bitsPerSample.

End examples.

(** ** Sessions

    A reader session with its transport is a [goriffa.Reader]; a run of
    the writer, as the integration tests make it, opens a writer, writes
    the chunks in turn and closes it. *)

Module session.

Section Reading.
Variable T : Type.
Variable tRead : T -> nat -> outcome ((list byte * option error) * T).

Definition ReadChunk (s : reader.Reader * T) (chunk : Chunk)
  : outcome ((Z * option error) * Chunk * (reader.Reader * T)) :=
  let '(r, t) := s in
  '(res, chunk, r, t) <- reader.ReadChunk tRead r t chunk ;;
  Ret (res, chunk, (r, t)).
End Reading.

Section Writing.
Variable W : Type.
Variable tWrite : W -> list byte -> outcome ((Z * option error) * W).
Variable tWriteAt : W -> list byte -> Z -> outcome ((Z * option error) * W).

(** The loop over the chunks; it stops at the first error. *)
Fixpoint WriteChunks (w : writer.Writer) (t : W) (chunks : list Chunk)
  : outcome (option error * writer.Writer * W) :=
  match chunks with
  | [] => Ret (None, w, t)
  | c :: rest =>
      '(res, w, t) <- writer.WriteChunk tWrite w t c ;;
      match snd res with
      | Some e => Ret (Some e, w, t)
      | None => WriteChunks w t rest
      end
  end.

Definition WriteAll (t : W) (fileType : FileType) (chunks : list Chunk)
  : outcome (option error * W) :=
  '(res, t) <- writer.New tWrite t fileType ;;
  match res with
  | inr e => Ret (Some e, t)
  | inl w =>
      '(err, w, t) <- WriteChunks w t chunks ;;
      match err with
      | Some e => Ret (Some e, t)
      | None =>
          '(err, w, t) <- writer.Close tWriteAt w t ;;
          Ret (err, t)
      end
  end.
End Writing.

(** A writer session with its transport is a [goriffa.Writer]. *)
Section AsWriter.
Variable W : Type.
Variable tWrite : W -> list byte -> outcome ((Z * option error) * W).

Definition WriteChunk (s : writer.Writer * W) (c : Chunk)
  : outcome ((Z * option error) * (writer.Writer * W)) :=
  let '(w, t) := s in
  '(res, w, t) <- writer.WriteChunk tWrite w t c ;;
  Ret (res, (w, t)).
End AsWriter.

(** The bytes that a file type and chunks take after the container's
    size field: 4 for the file type, and for every chunk 8 and its data
    and padding. *)
Fixpoint wireSize (chunks : list Chunk) : Z :=
  match chunks with
  | [] => 4
  | c :: rest => 8 + (len (Data c) + len (Data c) mod 2) + wireSize rest
  end.

End session.

(** ** Slices over their arrays

    A Go slice is a window on an array, and [append] within the capacity
    of a slice writes into the array, which other slices may share.
    [internal.Pad] appends to the slice it is given; so [WriteChunk], for a
    chunk whose data have an odd length and spare capacity, writes a zero
    behind them in the caller's array.  The definitions above work on the
    bytes that a slice holds when it is used, which is all that one call
    sees.  The ones here keep the arrays, for a run of the writer over
    several chunks whose data may lie in one array.  The reader pads and
    returns slices of arrays that it makes itself ([make([]byte, size)]),
    so nothing it returns lies in an array of its caller. *)

Module slices.

(** A slice [array[off : off+slen : off+scap]] of the array [arr] of the
    store. *)
Record Slice : Type := mkSlice {
  arr : nat;
  off : nat;
  slen : nat;
  scap : nat
}.

Definition Store : Type := list (list byte).

(** What Go keeps true of every slice: its length is within its capacity
    and its capacity within its array. *)
Definition valid (st : Store) (s : Slice) : bool :=
  (slen s <=? scap s)%nat && (off s + scap s <=? length (nth (arr s) st []))%nat.

(** The bytes that a slice holds. *)
Definition bytes_of (st : Store) (s : Slice) : list byte :=
  firstn (slen s) (skipn (off s) (nth (arr s) st [])).

(** [copy(array[p:], bs)] on the array [a] of the store. *)
Definition write (st : Store) (a p : nat) (bs : list byte) : Store :=
  match nth_error st a with
  | Some old => firstn a st ++ (firstn p old ++ fill (skipn p old) bs) :: skipn (S a) st
  | None => st
  end.

(** [append(s, extra...)]: within the capacity the bytes go to the array of
    [s]; beyond it they go, after those of [s], to a new array.  How much
    room the runtime gives a new array is its choice; here it is what the
    bytes need, and nothing below appends to such a slice again. *)
Definition append (st : Store) (s : Slice) (extra : list byte) : Store * Slice :=
  let n := (slen s + length extra)%nat in
  if (n <=? scap s)%nat
  then (write st (arr s) (off s + slen s) extra, mkSlice (arr s) (off s) n (scap s))
  else (st ++ [bytes_of st s ++ extra], mkSlice (length st) 0 n n).

Definition Pad (st : Store) (b : Slice) : Store * Slice :=
  let md := Z.rem (Z.of_nat (slen b)) wordLength in
  if negb (md =? 0) then append st b (make (wordLength - md)) else (st, b).

Record Chunk : Type := mkChunk {
  Identifier : FourCC;
  Data : Slice
}.

Definition ByteLength (c : Chunk) : Z :=
  int64 (8 + PaddedLength (Z.of_nat (slen (Data c)))).

Section Session.
Variable W : Type.
Variable tWrite : W -> list byte -> outcome ((Z * option error) * W).
Variable tWriteAt : W -> list byte -> Z -> outcome ((Z * option error) * W).

(** [WriteChunk] of the writer; the transport is given the bytes that the
    padded slice holds after [Pad]. *)
Definition WriteChunk (w : writer.Writer) (t : W) (st : Store) (c : Chunk)
  : outcome ((Z * option error) * writer.Writer * W * Store) :=
  if negb (writer.closed w) then
    let newSize := int64 (writer.fileSize w + ByteLength c) in
    if (newSize >? MaxUint32) || (newSize <? writer.fileSize w)
    then Ret ((0, Some (fmt_Errorf "corrupted: wrote too many bytes - size overflow"
                          ErrCorrupted)), w, t, st)
    else
      let '(st, b) := Pad st (Data c) in
      '(n, err, t) <-
        internal.Write tWrite t
          [slice4 (Identifier c);
           LittleEndianUInt32Bytes (uint32 (Z.of_nat (slen (Data c))));
           bytes_of st b] ;;
      match err with
      | Some e => Ret ((n, Some e), w, t, st)
      | None =>
          Ret ((n, None),
               writer.mkWriter (writer.fileType w) (int64 (writer.fileSize w + n))
                 (writer.closed w), t, st)
      end
  else Ret ((0, Some ErrClosed), w, t, st).

(** The loop over the chunks; it stops at the first error. *)
Fixpoint WriteChunks (w : writer.Writer) (t : W) (st : Store) (chunks : list Chunk)
  : outcome (option error * writer.Writer * W * Store) :=
  match chunks with
  | [] => Ret (None, w, t, st)
  | c :: rest =>
      '(res, w, t, st) <- WriteChunk w t st c ;;
      match snd res with
      | Some e => Ret (Some e, w, t, st)
      | None => WriteChunks w t st rest
      end
  end.

(** A run of the writer: open, write the chunks, close. *)
Definition WriteAll (t : W) (st : Store) (fileType : FileType) (chunks : list Chunk)
  : outcome (option error * W * Store) :=
  '(res, t) <- writer.New tWrite t fileType ;;
  match res with
  | inr e => Ret (Some e, t, st)
  | inl w =>
      '(err, w, t, st) <- WriteChunks w t st chunks ;;
      match err with
      | Some e => Ret (Some e, t, st)
      | None =>
          '(err, w, t) <- writer.Close tWriteAt w t ;;
          Ret (err, t, st)
      end
  end.
End Session.

(** A chunk with the bytes its data hold in a store. *)
Definition deref (st : Store) (c : Chunk) : internal.Chunk :=
  internal.mkChunk (Identifier c) (bytes_of st (Data c)).

(** The chunks of a run as each stands when its turn comes: after the
    padding of the ones before it. *)
Fixpoint written (st : Store) (chunks : list Chunk) : list internal.Chunk :=
  match chunks with
  | [] => []
  | c :: rest => deref st c :: written (fst (Pad st (Data c))) rest
  end.

(** [Pad] writes into the array of [s], behind its bytes, and that place
    is one of the bytes of [s']. *)
Definition hits (s s' : Slice) : bool :=
  negb (Z.rem (Z.of_nat (slen s)) wordLength =? 0)
  && (slen s <? scap s)%nat && (arr s =? arr s')%nat
  && (off s' <=? off s + slen s)%nat && (off s + slen s <? off s' + slen s')%nat.

(** No chunk's padding falls into the data of a later chunk. *)
Fixpoint independent (chunks : list Chunk) : bool :=
  match chunks with
  | [] => true
  | c :: rest =>
      forallb (fun c' => negb (hits (Data c) (Data c'))) rest && independent rest
  end.

End slices.

(** * Properties *)

Unset Implicit Arguments.

(** ** Bytes and little-endian integers *)

Lemma byte_to_Z_range (b : byte) : 0 <= byte_to_Z b < 256.
Proof.
  unfold byte_to_Z. pose proof (Byte.to_N_bounded b). lia.
Qed.

Lemma byte_to_Z_of_Z (z : Z) : byte_to_Z (byte_of_Z z) = z mod 256.
Proof.
  unfold byte_to_Z, byte_of_Z.
  assert (Hr : 0 <= z mod 256 < 256) by (apply Z.mod_pos_bound; lia).
  destruct (Byte.of_N (Z.to_N (z mod 256))) as [b|] eqn:E.
  - apply Byte.to_of_N in E. rewrite E. apply Z2N.id. lia.
  - apply Byte.of_N_None_iff in E. lia.
Qed.

Lemma Uint32_bytes (u : Z) :
  0 <= u < 2 ^ 32 ->
  Z.lor (Z.lor (Z.lor (u mod 256) (Z.shiftl (Z.shiftr u 8 mod 256) 8))
               (Z.shiftl (Z.shiftr u 16 mod 256) 16))
        (Z.shiftl (Z.shiftr u 24 mod 256) 24) = u.
Proof.
  intros Hu.
  change 256 with (2 ^ 8).
  bitblast.Z.bitblast.
  match goal with
  | |- context [Z.testbit u ?i] =>
      assert (Hhi : Z.testbit u i = false);
      [ destruct (Z.eq_dec u 0) as [->|Hne]; [apply Z.testbit_0_l|];
        apply Z.bits_above_log2; [lia|];
        assert (Z.log2 u < 32) by (apply Z.log2_lt_pow2; lia); lia
      | now rewrite Hhi ]
  end.
Qed.

Lemma Uint16_bytes (u : Z) :
  0 <= u < 2 ^ 16 ->
  Z.lor (u mod 256) (Z.shiftl (Z.shiftr u 8 mod 256) 8) = u.
Proof.
  intros Hu.
  change 256 with (2 ^ 8).
  bitblast.Z.bitblast.
  match goal with
  | |- context [Z.testbit u ?i] =>
      assert (Hhi : Z.testbit u i = false);
      [ destruct (Z.eq_dec u 0) as [->|Hne]; [apply Z.testbit_0_l|];
        apply Z.bits_above_log2; [lia|];
        assert (Z.log2 u < 16) by (apply Z.log2_lt_pow2; lia); lia
      | now rewrite Hhi ]
  end.
Qed.

Lemma Uint32_PutUint32 (u : Z) (rest : list byte) :
  0 <= u < 2 ^ 32 -> Uint32 (PutUint32 u ++ rest) = Ret u.
Proof.
  intros Hu. unfold PutUint32, Uint32. cbn [app].
  rewrite !byte_to_Z_of_Z. now rewrite Uint32_bytes.
Qed.

Lemma Uint16_PutUint16 (u : Z) (rest : list byte) :
  0 <= u < 2 ^ 16 -> Uint16 (PutUint16 u ++ rest) = Ret u.
Proof.
  intros Hu. unfold PutUint16, Uint16. cbn [app].
  rewrite !byte_to_Z_of_Z. now rewrite Uint16_bytes.
Qed.

Lemma lor_below (x y k : Z) :
  0 <= k -> 0 <= x < 2 ^ k -> 0 <= y < 2 ^ k -> 0 <= Z.lor x y < 2 ^ k.
Proof.
  intros Hk Hx Hy.
  assert (Hn : 0 <= Z.lor x y) by (apply Z.lor_nonneg; lia).
  split; [exact Hn|].
  destruct (Z.eq_dec (Z.lor x y) 0) as [->|Hne]; [lia|].
  apply Z.log2_lt_pow2; [lia|].
  rewrite Z.log2_lor by lia.
  assert (Hl : forall z, 0 <= z < 2 ^ k -> z <> 0 -> Z.log2 z < k)
    by (intros z Hz Hz0; apply Z.log2_lt_pow2; lia).
  destruct (Z.eq_dec x 0) as [->|Hx0]; destruct (Z.eq_dec y 0) as [->|Hy0].
  - now rewrite Z.lor_0_l in Hne.
  - rewrite Z.max_r by apply Z.log2_nonneg. now apply Hl.
  - rewrite Z.max_l by apply Z.log2_nonneg. now apply Hl.
  - apply Z.max_lub_lt; now apply Hl.
Qed.

Lemma Uint32_range (b : list byte) (u : Z) :
  Uint32 b = Ret u -> 0 <= u < 2 ^ 32.
Proof.
  destruct b as [|b0 [|b1 [|b2 [|b3 b]]]]; try discriminate.
  cbn [Uint32].
  pose proof (byte_to_Z_range b0). pose proof (byte_to_Z_range b1).
  pose proof (byte_to_Z_range b2). pose proof (byte_to_Z_range b3).
  rewrite !Z.shiftl_mul_pow2 by lia.
  remember (byte_to_Z b1 * 2 ^ 8) as s1.
  remember (byte_to_Z b2 * 2 ^ 16) as s2.
  remember (byte_to_Z b3 * 2 ^ 24) as s3.
  intros [= <-].
  repeat apply lor_below; lia.
Qed.


(** The identifiers are what [StringMust4Byte] makes of their names. *)
Lemma FourCC_constants :
  StringMust4Byte "RIFF" = Ret FourCCRIFF /\
  StringMust4Byte "fmt " = Ret FourCCFormat /\
  StringMust4Byte "data" = Ret FourCCData.
Proof. repeat split. Qed.

(** ** Lengths, buffers and padding *)

Lemma len_nonneg {A : Type} (l : list A) : 0 <= len l.
Proof. unfold len. lia. Qed.

Lemma len_app {A : Type} (l l' : list A) : len (l ++ l') = len l + len l'.
Proof. unfold len. rewrite length_app. lia. Qed.

Lemma make_length (n : Z) : length (make n) = Z.to_nat n.
Proof. apply repeat_length. Qed.

Lemma fill_length (dst src : list byte) : length (fill dst src) = length dst.
Proof.
  unfold fill. rewrite length_app, length_firstn, length_skipn. lia.
Qed.

Lemma fill_exact (dst src : list byte) :
  length src = length dst -> fill dst src = src.
Proof.
  intros H. unfold fill. rewrite H, firstn_all2 by lia.
  rewrite skipn_all. apply app_nil_r.
Qed.

Lemma fill_short (dst src : list byte) :
  (length src <= length dst)%nat -> fill dst src = src ++ skipn (length src) dst.
Proof.
  intros H. unfold fill. now rewrite firstn_all2 by lia.
Qed.

Lemma int64_range (z : Z) : - 2 ^ 63 <= int64 z < 2 ^ 63.
Proof.
  unfold int64. pose proof (Z.mod_pos_bound (z + 2 ^ 63) (2 ^ 64)). lia.
Qed.

Lemma int64_small (z : Z) : - 2 ^ 63 <= z < 2 ^ 63 -> int64 z = z.
Proof.
  intros H. unfold int64. rewrite Z.mod_small; lia.
Qed.

Lemma rem2_cases (n : Z) :
  0 <= n -> (Z.rem n 2 = 0 /\ n mod 2 = 0) \/ (Z.rem n 2 = 1 /\ n mod 2 = 1).
Proof.
  intros H. rewrite Z.rem_mod_nonneg by lia.
  pose proof (Z.mod_pos_bound n 2). lia.
Qed.

Lemma PaddedLength_small (n : Z) :
  0 <= n < 2 ^ 62 -> PaddedLength n = n + n mod 2.
Proof.
  intros H. unfold PaddedLength, wordLength.
  destruct (rem2_cases n) as [[-> ->]|[-> ->]]; [lia| |]; cbn [Z.eqb negb].
  - lia.
  - rewrite int64_small; lia.
Qed.

Lemma PaddedLength_even (n : Z) : 0 <= n < 2 ^ 62 -> PaddedLength n mod 2 = 0.
Proof.
  intros H. rewrite PaddedLength_small by lia.
  rewrite Z.add_mod_idemp_r by lia.
  replace (n + n) with (n * 2) by lia. apply Z.mod_mul. lia.
Qed.

Lemma Pad_len (b : list byte) : len (Pad b) = len b + len b mod 2.
Proof.
  unfold Pad, wordLength.
  destruct (rem2_cases (len b)) as [[-> ->]|[-> ->]];
    [apply len_nonneg| |]; cbn [Z.eqb negb].
  - lia.
  - rewrite len_app. unfold len at 2. now rewrite make_length.
Qed.

Lemma Pad_prefix (b : list byte) : firstn (length b) (Pad b) = b.
Proof.
  unfold Pad. destruct (negb _).
  - rewrite firstn_app, firstn_all, Nat.sub_diag. cbn. apply app_nil_r.
  - apply firstn_all.
Qed.

(** ** Errors *)

Lemma error_eqb_refl (e : error) : error_eqb e e = true.
Proof.
  induction e; cbn; rewrite ?String.eqb_refl, ?IHe; reflexivity.
Qed.

Lemma error_eqb_eq (a b : error) : error_eqb a b = true -> a = b.
Proof.
  revert b. induction a; destruct b; cbn; try discriminate; intros H.
  - apply String.eqb_eq in H. now subst.
  - apply andb_prop in H as [H1 H2]. apply String.eqb_eq in H1.
    apply IHa in H2. now subst.
  - apply andb_prop in H as [H1 H2]. apply String.eqb_eq in H1.
    apply IHa in H2. now subst.
Qed.

Lemma errors_Is_refl (e : error) : errors_Is e e = true.
Proof. destruct e; cbn; now rewrite ?String.eqb_refl, ?error_eqb_refl. Qed.

Lemma Equal_eq (a b : list byte) : bytes.Equal a b = true <-> a = b.
Proof.
  revert b. induction a as [|x a IH]; destruct b as [|y b]; cbn; try easy.
  rewrite andb_true_iff, IH. split.
  - intros [H ->]. apply Byte.byte_dec_bl in H. now subst.
  - intros [= -> ->]. split; [now apply Byte.byte_dec_lb|reflexivity].
Qed.

(** ** The writer *)

Import writer.

Section WriterProperties.
Variable W : Type.
Variable tWrite : W -> list byte -> outcome ((Z * option error) * W).
Variable tWriteAt : W -> list byte -> Z -> outcome ((Z * option error) * W).

(** A closed writer refuses every chunk and leaves the transport alone. *)
Lemma WriteChunk_closed (w : Writer) (t : W) (c : Chunk) :
  closed w = true ->
  WriteChunk tWrite w t c = Ret ((0, Some ErrClosed), w, t).
Proof.
  intros H. unfold WriteChunk. now rewrite H.
Qed.

Lemma Close_closed (w : Writer) (t : W) :
  closed w = true ->
  Close tWriteAt w t = Ret (Some ErrClosed, w, t).
Proof.
  intros H. unfold Close. now rewrite H.
Qed.

(** Whatever [WriteChunk] returns with an error, it returns with the
    running size it was called with. *)
Lemma WriteChunk_error_keeps_fileSize (w w' : Writer) (t t' : W) (c : Chunk)
    (n : Z) (e : error) :
  WriteChunk tWrite w t c = Ret ((n, Some e), w', t') -> w' = w.
Proof.
  unfold WriteChunk.
  destruct (negb (closed w)); [|now intros [= _ _ <- _]].
  destruct (_ || _); [now intros [= _ _ <- _]|].
  destruct (internal.Write _ _ _) as [[[n0 [e0|]] t0]|v]; cbn [bind];
    [now intros [= _ _ <- _]|discriminate|discriminate].
Qed.

End WriterProperties.

(** C6, as amended.  For every open writer whose running size is a
    non-negative [int64], and every chunk: if the running size plus the
    chunk's on-wire length exceeds the largest [uint32], or the addition
    wraps around, [WriteChunk] fails with an error that is [ErrCorrupted],
    reports zero bytes, makes no call on the transport and leaves the
    writer, so its running size, as it was. *)
Theorem WriteChunk_overflow_rejected
    (W : Type) (tWrite : W -> list byte -> outcome ((Z * option error) * W))
    (w : Writer) (t : W) (c : Chunk) :
  closed w = false ->
  0 <= fileSize w < 2 ^ 63 ->
  fileSize w + ByteLength c > MaxUint32 \/
  int64 (fileSize w + ByteLength c) <> fileSize w + ByteLength c ->
  exists e : error,
    WriteChunk tWrite w t c = Ret ((0, Some e), w, t) /\
    errors_Is e ErrCorrupted = true.
Proof.
  intros Hopen Hsize Hover.
  unfold WriteChunk. rewrite Hopen. cbn [negb].
  pose proof (int64_range (8 + PaddedLength (len (Data c)))) as Hbl.
  fold (ByteLength c) in Hbl.
  assert (Hcheck : (int64 (fileSize w + ByteLength c) >? MaxUint32)
                   || (int64 (fileSize w + ByteLength c) <? fileSize w) = true).
  { apply orb_true_iff. unfold MaxUint32 in *.
    destruct (Z_lt_ge_dec (fileSize w + ByteLength c) (2 ^ 63)) as [Hin|Hout].
    - rewrite int64_small in * by lia.
      destruct Hover as [Hover|Hover]; [left; lia|contradiction].
    - right. unfold int64.
      replace ((fileSize w + ByteLength c + 2 ^ 63) mod 2 ^ 64)
        with (fileSize w + ByteLength c + 2 ^ 63 - 2 ^ 64).
      + lia.
      + apply Z.mod_unique with (q := 1); lia. }
  rewrite Hcheck. eexists. split; [reflexivity|reflexivity].
Qed.

Lemma WriteChunk_overflow_rejected_witness :
  let w := mkWriter EmptyBytes 4294967294 false in
  closed w = false /\
  0 <= fileSize w < 2 ^ 63 /\
  fileSize w + ByteLength zeroChunk > MaxUint32 /\
  exists e : error,
    WriteChunk bytes.Buffer_Write w [] zeroChunk = Ret ((0, Some e), w, []) /\
    errors_Is e ErrCorrupted = true.
Proof.
  cbv zeta.
  assert (H1 : closed (mkWriter EmptyBytes 4294967294 false) = false) by reflexivity.
  assert (H2 : 0 <= fileSize (mkWriter EmptyBytes 4294967294 false) < 2 ^ 63)
    by (cbn; lia).
  assert (H3 : fileSize (mkWriter EmptyBytes 4294967294 false) + ByteLength zeroChunk
               > MaxUint32) by reflexivity.
  refine (conj H1 (conj H2 (conj H3 _))).
  exact (WriteChunk_overflow_rejected (list byte) bytes.Buffer_Write
           (mkWriter EmptyBytes 4294967294 false) [] zeroChunk H1 H2 (or_introl H3)).
Defined.

(** C6 as stated fails on a closed writer: there the guard on the closed
    flag answers first, with [ErrClosed], which is not [ErrCorrupted]. *)
Lemma WriteChunk_overflow_closed_counterexample :
  let w := mkWriter EmptyBytes 4294967294 true in
  fileSize w + ByteLength zeroChunk > MaxUint32 /\
  WriteChunk bytes.Buffer_Write w [] zeroChunk = Ret ((0, Some ErrClosed), w, []) /\
  errors_Is ErrClosed ErrCorrupted = false /\
  ~ (exists e : error,
       WriteChunk bytes.Buffer_Write w [] zeroChunk = Ret ((0, Some e), w, []) /\
       errors_Is e ErrCorrupted = true).
Proof.
  cbv zeta. repeat split.
  intros [e [H1 H2]]. cbn in H1. injection H1 as <-. discriminate H2.
Qed.

(** C8.  The first [Close] of a writer marks it closed and makes one
    positioned write, at offset 4, of the four bytes that are the running
    size as a little-endian [uint32]; it returns the error of that write,
    if any.  From then on, whether or not that write failed, [Close]
    returns [ErrClosed] and [WriteChunk] returns zero bytes and
    [ErrClosed], both without a call on the transport and without a change
    to the writer. *)
Theorem Close_one_shot
    (W : Type) (tWrite : W -> list byte -> outcome ((Z * option error) * W))
    (tWriteAt : W -> list byte -> Z -> outcome ((Z * option error) * W))
    (w : Writer) (t t' : W) (n : Z) (err : option error) :
  closed w = false ->
  tWriteAt t (LittleEndianUInt32Bytes (uint32 (fileSize w))) 4 = Ret ((n, err), t') ->
  let w1 := mkWriter (fileType w) (fileSize w) true in
  let err1 :=
    match err with
    | Some e => Some e
    | None => if n <? 4 then Some io_ErrShortWrite else None
    end in
  Close tWriteAt w t = Ret (err1, w1, t') /\
  (0 <= fileSize w <= MaxUint32 ->
   Uint32 (LittleEndianUInt32Bytes (uint32 (fileSize w))) = Ret (fileSize w)) /\
  (forall t2 : W, Close tWriteAt w1 t2 = Ret (Some ErrClosed, w1, t2)) /\
  (forall (t2 : W) (c : Chunk),
     WriteChunk tWrite w1 t2 c = Ret ((0, Some ErrClosed), w1, t2)).
Proof.
  intros Hopen Hat w1 err1. split; [|split; [|split]].
  - unfold Close. rewrite Hopen. cbn [negb fileSize fileType].
    unfold internal.WriteAt.
    change (len (slice4 FourCCRIFF)) with 4. rewrite Hat. cbn [bind].
    subst err1 w1. destruct err as [e|]; [reflexivity|].
    change (len (LittleEndianUInt32Bytes (uint32 (fileSize w)))) with 4.
    now destruct (n <? 4).
  - intros Hrange. unfold LittleEndianUInt32Bytes, uint32, MaxUint32 in *.
    rewrite Z.mod_small by lia.
    rewrite <- (app_nil_r (PutUint32 (fileSize w))).
    apply Uint32_PutUint32. lia.
  - intros t2. now apply Close_closed.
  - intros t2 c. now apply WriteChunk_closed.
Qed.

Lemma Close_one_shot_witness :
  let w := mkWriter EmptyBytes 4 false in
  let t := slice4 FourCCRIFF ++ slice4 EmptyBytes ++ slice4 EmptyBytes in
  let t' := slice4 FourCCRIFF ++ PutUint32 4 ++ slice4 EmptyBytes in
  let w1 := mkWriter EmptyBytes 4 true in
  closed w = false /\
  test.Buffer_WriteAt t (LittleEndianUInt32Bytes (uint32 (fileSize w))) 4
    = Ret ((4, None), t') /\
  Close test.Buffer_WriteAt w t = Ret (None, w1, t') /\
  Close test.Buffer_WriteAt w1 t' = Ret (Some ErrClosed, w1, t') /\
  WriteChunk bytes.Buffer_Write w1 t' zeroChunk = Ret ((0, Some ErrClosed), w1, t').
Proof.
  cbv zeta.
  pose (w := mkWriter EmptyBytes 4 false).
  pose (t := slice4 FourCCRIFF ++ slice4 EmptyBytes ++ slice4 EmptyBytes).
  pose (t' := slice4 FourCCRIFF ++ PutUint32 4 ++ slice4 EmptyBytes).
  assert (H1 : closed w = false) by reflexivity.
  assert (H2 : test.Buffer_WriteAt t (LittleEndianUInt32Bytes (uint32 (fileSize w))) 4
               = Ret ((4, None), t')) by reflexivity.
  pose proof (Close_one_shot (list byte) bytes.Buffer_Write test.Buffer_WriteAt
                w t t' 4 None H1 H2) as [Hc [_ [Hcc Hwc]]].
  refine (conj H1 (conj H2 (conj Hc (conj (Hcc t') (Hwc t' zeroChunk))))).
Defined.

(** C1, at the input where the code departs from it.  A writer is opened
    on a transport that takes the twelve header bytes, then the four bytes
    of a chunk's identifier, then two of the four bytes of its length and
    fails.  [WriteChunk] returns the six bytes written and the transport's
    error as it is, and the running size is 4 as before, not 4 + 6. *)
Theorem WriteChunk_partial_write_failure :
  let diskErr := errors_New "error" in
  let m := test.mkMockWriter
             [(4, None); (4, None); (4, None); (4, None); (2, Some diskErr)] [] in
  let c := mkChunk FourCCData (map byte_of_Z [3; 2; 1]) in
  exists (w : Writer) (m1 m2 : test.MockWriter),
    New test.MockWriter_Write m EmptyBytes = Ret (inl w, m1) /\
    closed w = false /\
    fileSize w = 4 /\
    int64 (fileSize w + ByteLength c) = 16 /\
    internal.Write test.MockWriter_Write m1
      [slice4 (Identifier c); LittleEndianUInt32Bytes (uint32 (len (Data c)));
       Pad (Data c)] = Ret ((6, Some diskErr), m2) /\
    WriteChunk test.MockWriter_Write w m1 c = Ret ((6, Some diskErr), w, m2) /\
    fileSize w <> 4 + 6.
Proof.
  cbv zeta. do 3 eexists.
  split; [reflexivity|].
  split; [reflexivity|].
  split; [reflexivity|].
  split; [reflexivity|].
  split; [reflexivity|].
  split; [reflexivity|].
  cbn. lia.
Qed.

(** ** The reader *)

Import reader.

Lemma Corrupted_TooShort : errors_Is errCorruptedTooShort ErrCorrupted = true.
Proof. reflexivity. Qed.

Lemma Corrupted_ReadOutOfBounds :
  errors_Is errCorruptedReadOutOfBounds ErrCorrupted = true.
Proof. reflexivity. Qed.

Lemma Must4Byte_firstn4 (l : list byte) :
  (4 <= length l)%nat -> Must4Byte (firstn 4 l) = Ret (array4 l).
Proof.
  intros H. unfold Must4Byte, len. rewrite length_firstn, Nat.min_l by lia.
  cbn [Z.of_nat Z.eqb Pos.eqb Pos.of_succ_nat Pos.succ negb].
  do 4 (destruct l as [|? l]; [cbn in H; lia|]). reflexivity.
Qed.

Section ReaderProperties.
Variable T : Type.
Variable tRead : T -> nat -> outcome ((list byte * option error) * T).

Lemma Read_from_lengths (content : list (list byte)) :
  forall total t res bufs t',
    internal.Read_from tRead total t content = Ret (res, bufs, t') ->
    map (@length byte) bufs = map (@length byte) content.
Proof.
  induction content as [|slice rest IH]; intros total t res bufs t'; cbn.
  - now intros [= _ <- _].
  - destruct (tRead t (length slice)) as [[[got [e|]] t1]|v]; cbn [bind];
      try discriminate.
    + intros [= _ <- _]. cbn. now rewrite fill_length.
    + destruct (len got <? len slice).
      * intros [= _ <- _]. cbn. now rewrite fill_length.
      * destruct (internal.Read_from _ _ _ _) as [[[res1 rest1] t2]|v] eqn:E;
          cbn [bind]; try discriminate.
        intros [= _ <- _]. cbn. rewrite fill_length. f_equal. eauto.
Qed.

(** What a [read] that reports no error has done. *)
Lemma read_ok_inv (r r' : Reader) (t t' : T) (b b' : list byte) (n : Z) :
  read tRead r t b = Ret ((n, None), b', r', t') ->
  exists got : list byte,
    tRead t (length b) = Ret ((got, None), t') /\
    n = len got /\
    b' = fill b got /\
    r' = mkReader (fileType r) (size r) (int64 (bytesRead r + len got)) /\
    bytesRead r' <= PaddedLength (size r).
Proof.
  unfold read.
  destruct (tRead t (length b)) as [[[got [e|]] t1]|v]; cbn [bind];
    try discriminate.
  cbn [bytesRead size].
  destruct (_ >? _) eqn:E; try discriminate.
  intros [= <- <- <- <-]. exists got. cbn [bytesRead size].
  repeat split. lia.
Qed.

(** What a [read] does when the transport reports no error. *)
Lemma read_transport_ok (r : Reader) (t t' : T) (b got : list byte) :
  tRead t (length b) = Ret ((got, None), t') ->
  let r' := mkReader (fileType r) (size r) (int64 (bytesRead r + len got)) in
  read tRead r t b =
    Ret ((len got,
          if bytesRead r' >? PaddedLength (size r)
          then Some errCorruptedReadOutOfBounds else None),
         fill b got, r', t').
Proof.
  intros H r'. unfold read. rewrite H. cbn [bind bytesRead size].
  subst r'. cbn [bytesRead]. now destruct (_ >? _).
Qed.

(** What a [ReadChunk] that reports no error has done: two reads, the
    header's and the payload's, each complete and each within the bound. *)
Lemma ReadChunk_ok_inv (r r' : Reader) (t t' : T) (c c' : Chunk) (n : Z) :
  ReadChunk tRead r t c = Ret ((n, None), c', r', t') ->
  exists (hdr payload : list byte) (t1 : T) (sz : Z),
    tRead t 8%nat = Ret ((hdr, None), t1) /\
    8 <= len hdr /\
    Uint32 (skipn 4 (fill (make 8) hdr)) = Ret sz /\
    tRead t1 (length (Pad (make sz))) = Ret ((payload, None), t') /\
    len (Pad (make sz)) <= len payload /\
    n = int64 (len hdr + len payload) /\
    c' = mkChunk (array4 (fill (make 8) hdr))
           (firstn (Z.to_nat sz) (fill (Pad (make sz)) payload)) /\
    r' = mkReader (fileType r) (size r)
           (int64 (int64 (bytesRead r + len hdr) + len payload)) /\
    bytesRead r' <= PaddedLength (size r).
Proof.
  unfold ReadChunk.
  destruct (read tRead r t (make LengthChunkHeader))
    as [[[[[hN [e|]] hb] r1] t1]|v] eqn:Eh; cbn [bind]; try discriminate.
  apply read_ok_inv in Eh as (hdr & Hh & -> & -> & -> & Hb1).
  change (length (make LengthChunkHeader)) with 8%nat in Hh.
  change (make LengthChunkHeader) with (make 8).
  destruct (len hdr <? len (fill (make 8) hdr)) eqn:Elt; try discriminate.
  destruct (Uint32 (skipn 4 (fill (make 8) hdr))) as [sz|v] eqn:Esz;
    cbn [bind]; try discriminate.
  rewrite Must4Byte_firstn4 by (rewrite fill_length, make_length; lia).
  destruct (read tRead _ t1 (Pad (make sz)))
    as [[[[[dN [e|]] db] r2] t2]|v] eqn:Ed; cbn [bind]; try discriminate.
  apply read_ok_inv in Ed as (payload & Hp & -> & -> & -> & Hb2).
  cbn [fileType size bytesRead] in *.
  destruct (len payload <? len (fill (Pad (make sz)) payload)) eqn:Elt2;
    try discriminate.
  intros [= <- <- <- <-].
  exists hdr, payload, t1, sz. cbn [bytesRead size].
  unfold len in Elt, Elt2. rewrite fill_length in Elt, Elt2.
  change (length (make 8)) with 8%nat in Elt.
  apply Z.ltb_ge in Elt, Elt2.
  repeat split; try assumption; unfold len; lia.
Qed.

(** The header buffer always holds a size to decode. *)
Lemma header_size (hdr : list byte) :
  exists sz : Z,
    Uint32 (skipn 4 (fill (make 8) hdr)) = Ret sz /\ 0 <= sz < 2 ^ 32.
Proof.
  assert (Hl : length (skipn 4 (fill (make 8) hdr)) = 4%nat)
    by (rewrite length_skipn, fill_length, make_length; lia).
  destruct (skipn 4 (fill (make 8) hdr)) as [|b0 [|b1 [|b2 [|b3 l]]]] eqn:E;
    try discriminate.
  eexists. split; [reflexivity|].
  apply (Uint32_range (b0 :: b1 :: b2 :: b3 :: l)). reflexivity.
Qed.

(** [ReadChunk] when the header's read fails: the chunk is left alone. *)
Lemma ReadChunk_header_failed (r r1 : Reader) (t t1 : T) (c : Chunk)
    (b : list byte) (n : Z) (e : error) :
  read tRead r t (make 8) = Ret ((n, Some e), b, r1, t1) ->
  ReadChunk tRead r t c = Ret ((n, Some e), c, r1, t1).
Proof.
  intros H. unfold ReadChunk. change (make LengthChunkHeader) with (make 8).
  now rewrite H.
Qed.

(** [ReadChunk] when the header's read reports no error but is short. *)
Lemma ReadChunk_header_short (r r1 : Reader) (t t1 : T) (c : Chunk)
    (b : list byte) (n : Z) :
  read tRead r t (make 8) = Ret ((n, None), b, r1, t1) ->
  n < 8 ->
  ReadChunk tRead r t c = Ret ((n, Some errCorruptedTooShort), c, r1, t1).
Proof.
  intros H Hn. unfold ReadChunk. change (make LengthChunkHeader) with (make 8).
  rewrite H. cbn [bind].
  apply read_ok_inv in H as (got & _ & _ & -> & _).
  unfold len. rewrite fill_length, make_length.
  now replace (n <? Z.of_nat (Z.to_nat 8)) with true by (symmetry; apply Z.ltb_lt; lia).
Qed.

(** [ReadChunk] once the header is in: the payload's read decides the
    error, and the chunk is written whatever it is. *)
Lemma ReadChunk_payload (r r1 r2 : Reader) (t t1 t2 : T) (c : Chunk)
    (hb db : list byte) (hN dN sz : Z) (derr : option error) :
  read tRead r t (make 8) = Ret ((hN, None), hb, r1, t1) ->
  8 <= hN ->
  Uint32 (skipn 4 hb) = Ret sz ->
  read tRead r1 t1 (Pad (make sz)) = Ret ((dN, derr), db, r2, t2) ->
  ReadChunk tRead r t c =
    Ret ((int64 (hN + dN),
          match derr with
          | Some e => Some e
          | None => if dN <? len db then Some errCorruptedTooShort else None
          end),
         mkChunk (array4 hb) (firstn (Z.to_nat sz) db), r2, t2).
Proof.
  intros Hh Hn Hsz Hd. unfold ReadChunk.
  change (make LengthChunkHeader) with (make 8).
  rewrite Hh. cbn [bind].
  assert (Hlen : length hb = 8%nat).
  { apply read_ok_inv in Hh as (got & _ & _ & -> & _).
    now rewrite fill_length, make_length. }
  unfold len at 1. rewrite Hlen.
  replace (hN <? Z.of_nat 8) with false by (symmetry; apply Z.ltb_ge; lia).
  rewrite Hsz. cbn [bind]. rewrite Hd. cbn [bind].
  rewrite Must4Byte_firstn4 by lia. cbn [bind].
  destruct derr as [e|]; [reflexivity|]. now destruct (dN <? len db).
Qed.

End ReaderProperties.

Section ReaderInvariant.
Variable T : Type.
Variable tRead : T -> nat -> outcome ((list byte * option error) * T).

(** What a [New] that gives a session has read. *)
Lemma New_ok_inv (t t' : T) (r : Reader) :
  New tRead t = Ret (inl r, t') ->
  exists (total : Z) (s f : list byte),
    internal.Read tRead t [slice4 EmptyBytes; slice4 EmptyBytes; slice4 EmptyBytes]
      = Ret ((total, None), [slice4 FourCCRIFF; s; f], t') /\
    length s = 4%nat /\ length f = 4%nat /\
    Uint32 s = Ret (size r) /\ 4 <= size r /\
    fileType r = array4 f /\ bytesRead r = 4.
Proof.
  unfold New.
  destruct (internal.Read _ _ _) as [[[[total err] bufs] t1]|v] eqn:E;
    cbn [bind]; try discriminate.
  pose proof E as Hl. unfold internal.Read in Hl.
  apply Read_from_lengths in Hl.
  destruct bufs as [|p [|s [|f [|? ?]]]]; try discriminate.
  cbn [snd nth]. injection Hl as Hp Hs Hf.
  destruct err as [e|]; try discriminate.
  destruct (bytes.Equal p (slice4 FourCCRIFF)) eqn:Eq; cbn [negb];
    try discriminate.
  apply Equal_eq in Eq. subst p.
  destruct (Uint32 s) as [sz|v] eqn:Es; cbn [bind]; try discriminate.
  cbn [size fileType]. destruct (sz <? 4) eqn:Esz; try discriminate.
  intros [= <- <-]. exists total, s, f. cbn [size fileType bytesRead].
  apply Z.ltb_ge in Esz. unfold len. rewrite Hf.
  repeat split; assumption.
Qed.

End ReaderInvariant.

(** C5.  A session that [New] gives has consumed 4 bytes.  Whenever a read
    inside [ReadChunk], the header's or the payload's, is answered by the
    transport without an error and takes the count of consumed bytes above
    the padded declared size, [ReadChunk] fails with an error that is
    [ErrCorrupted].  So when [ReadChunk] returns without an error, the
    count is at most the padded declared size, which it has not changed. *)
Theorem bytesRead_within_declared_size
    (T : Type) (tRead : T -> nat -> outcome ((list byte * option error) * T)) :
  (forall (t t' : T) (r : Reader),
     New tRead t = Ret (inl r, t') -> bytesRead r = 4) /\
  (forall (r : Reader) (t t1 : T) (c : Chunk) (hdr : list byte),
     tRead t 8%nat = Ret ((hdr, None), t1) ->
     int64 (bytesRead r + len hdr) > PaddedLength (size r) ->
     exists (n : Z) (e : error) (c' : Chunk) (r' : Reader) (t' : T),
       ReadChunk tRead r t c = Ret ((n, Some e), c', r', t') /\
       errors_Is e ErrCorrupted = true) /\
  (forall (r : Reader) (t t1 t2 : T) (c : Chunk) (hdr payload : list byte) (sz : Z),
     tRead t 8%nat = Ret ((hdr, None), t1) ->
     8 <= len hdr ->
     int64 (bytesRead r + len hdr) <= PaddedLength (size r) ->
     Uint32 (skipn 4 (fill (make 8) hdr)) = Ret sz ->
     tRead t1 (length (Pad (make sz))) = Ret ((payload, None), t2) ->
     int64 (int64 (bytesRead r + len hdr) + len payload) > PaddedLength (size r) ->
     exists (n : Z) (e : error) (c' : Chunk) (r' : Reader) (t' : T),
       ReadChunk tRead r t c = Ret ((n, Some e), c', r', t') /\
       errors_Is e ErrCorrupted = true) /\
  (forall (r r' : Reader) (t t' : T) (c c' : Chunk) (n : Z),
     ReadChunk tRead r t c = Ret ((n, None), c', r', t') ->
     size r' = size r /\ bytesRead r' <= PaddedLength (size r')).
Proof.
  split; [|split; [|split]].
  - intros t t' r H. now apply New_ok_inv in H as (? & ? & ? & _ & _ & _ & _ & _ & _ & H).
  - intros r t t1 c hdr Hh Hb.
    pose proof (read_transport_ok T tRead r t t1 (make 8) hdr Hh) as Hr.
    cbn zeta in Hr. cbn [bytesRead] in Hr.
    replace (_ >? _) with true in Hr by (symmetry; apply Z.gtb_lt; lia).
    do 5 eexists. split; [now apply (ReadChunk_header_failed T tRead _ _ _ _ _ _ _ _ Hr)|].
    reflexivity.
  - intros r t t1 t2 c hdr payload sz Hh Hlen Hb Hsz Hp Hb2.
    pose proof (read_transport_ok T tRead r t t1 (make 8) hdr Hh) as Hr.
    cbn zeta in Hr. cbn [bytesRead] in Hr.
    replace (_ >? _) with false in Hr by (symmetry; rewrite Z.gtb_ltb; apply Z.ltb_ge; lia).
    pose proof (read_transport_ok T tRead
                  (mkReader (fileType r) (size r) (int64 (bytesRead r + len hdr)))
                  t1 t2 (Pad (make sz)) payload Hp) as Hr2.
    cbn zeta in Hr2. cbn [bytesRead size fileType] in Hr2.
    replace (_ >? _) with true in Hr2 by (symmetry; apply Z.gtb_lt; lia).
    do 5 eexists.
    split; [now apply (ReadChunk_payload T tRead _ _ _ _ _ _ _ _ _ _ _ _ _ Hr Hlen Hsz Hr2)|].
    reflexivity.
  - intros r r' t t' c c' n H.
    apply ReadChunk_ok_inv in H
      as (hdr & payload & t1 & sz & _ & _ & _ & _ & _ & _ & _ & -> & Hb).
    cbn [size bytesRead] in *. split; [reflexivity|assumption].
Qed.

Lemma bytesRead_within_declared_size_witness :
  exists (r r' : Reader) (t t' : list byte) (c' : Chunk) (n : Z),
    New bytes.Reader_Read examples.RIFFReader = Ret (inl r, t) /\
    bytesRead r = 4 /\
    ReadChunk bytes.Reader_Read r t zeroChunk = Ret ((n, None), c', r', t') /\
    size r' = size r /\ bytesRead r' <= PaddedLength (size r').
Proof.
  do 6 eexists.
  pose proof (bytesRead_within_declared_size (list byte) bytes.Reader_Read)
    as (Hnew & _ & _ & Hok).
  assert (H1 : New bytes.Reader_Read examples.RIFFReader
               = Ret (inl (mkReader (array4 (list_byte_of_string "WAVE")) 42 4),
                      skipn 12 examples.RIFFReader)) by reflexivity.
  split; [exact H1|].
  split; [exact (Hnew _ _ _ H1)|].
  assert (H2 : ReadChunk bytes.Reader_Read
                 (mkReader (array4 (list_byte_of_string "WAVE")) 42 4)
                 (skipn 12 examples.RIFFReader) zeroChunk
               = Ret ((14, None),
                      mkChunk FourCCFormat (map byte_of_Z [1; 2; 3; 4; 5]),
                      mkReader (array4 (list_byte_of_string "WAVE")) 42 18,
                      skipn 26 examples.RIFFReader)) by reflexivity.
  split; [exact H2|].
  exact (Hok _ _ _ _ _ _ _ H2).
Defined.

(** ** What a successful [ReadChunk] returns *)

Lemma Pad_make_length (sz : Z) :
  0 <= sz < 2 ^ 62 -> length (Pad (make sz)) = Z.to_nat (PaddedLength sz).
Proof.
  intros H. pose proof (Pad_len (make sz)) as Hp. unfold len in Hp.
  rewrite make_length, Z2Nat.id in Hp by lia.
  rewrite PaddedLength_small by lia. lia.
Qed.

(** C4.  On a transport that never gives more bytes than it was asked
    for, a [ReadChunk] that returns without an error has read an 8-byte
    header declaring a payload of [sz] bytes and then [sz] bytes and, when
    [sz] is odd, one more; the chunk's data are the first [sz] of those,
    and the count returned is 8 plus the padded length of [sz].  On the
    example stream of the reader, whose chunks hold 5 and 8 bytes, the two
    calls return 14 and 16, 30 in all, and the chunks without padding. *)
Theorem ReadChunk_success_shape
    (T : Type) (tRead : T -> nat -> outcome ((list byte * option error) * T)) :
  ((forall (t t' : T) (k : nat) (got : list byte) (e : option error),
      tRead t k = Ret ((got, e), t') -> (length got <= k)%nat) ->
   forall (r r' : Reader) (t t' : T) (c c' : Chunk) (n : Z),
     ReadChunk tRead r t c = Ret ((n, None), c', r', t') ->
     exists (hdr payload : list byte) (t1 : T) (sz : Z),
       tRead t 8%nat = Ret ((hdr, None), t1) /\
       length hdr = 8%nat /\
       Uint32 (skipn 4 hdr) = Ret sz /\
       tRead t1 (Z.to_nat (PaddedLength sz)) = Ret ((payload, None), t') /\
       len payload = PaddedLength sz /\
       PaddedLength sz = sz + sz mod 2 /\
       Identifier c' = array4 hdr /\
       Data c' = firstn (Z.to_nat sz) payload /\
       len (Data c') = sz /\
       n = 8 + PaddedLength sz) /\
  (exists (r r1 r2 : Reader) (t t1 t2 : list byte),
     New bytes.Reader_Read examples.RIFFReader = Ret (inl r, t) /\
     ReadChunk bytes.Reader_Read r t zeroChunk
       = Ret ((8 + 6, None),
              mkChunk FourCCFormat (map byte_of_Z [1; 2; 3; 4; 5]), r1, t1) /\
     ReadChunk bytes.Reader_Read r1 t1 zeroChunk
       = Ret ((8 + 8, None),
              mkChunk FourCCData (map byte_of_Z [1; 2; 3; 4; 5; 6; 7; 8]), r2, t2) /\
     bytesRead r2 - bytesRead r = 30).
Proof.
  split.
  - intros Hcontract r r' t t' c c' n H.
    apply ReadChunk_ok_inv in H
      as (hdr & payload & t1 & sz & Hh & Hlen & Hsz & Hp & Hplen & -> & -> & -> & _).
    pose proof (Hcontract _ _ _ _ _ Hh) as Hc1.
    pose proof (Hcontract _ _ _ _ _ Hp) as Hc2.
    assert (Hl8 : length hdr = 8%nat) by (unfold len in Hlen; lia).
    rewrite fill_exact in * by (now rewrite make_length).
    pose proof (Uint32_range _ _ Hsz) as Hr.
    assert (Hpl : length payload = length (Pad (make sz)))
      by (unfold len in Hplen; lia).
    rewrite fill_exact by assumption.
    rewrite Pad_make_length in * by lia.
    pose proof (PaddedLength_small sz ltac:(lia)) as Hpad.
    pose proof (Z.mod_pos_bound sz 2 ltac:(lia)) as Hm.
    exists hdr, payload, t1, sz. cbn [Identifier Data].
    repeat split; try assumption.
    + unfold len. lia.
    + unfold len. rewrite length_firstn. lia.
    + unfold len. rewrite Hl8, Hpl. rewrite int64_small; lia.
  - do 6 eexists.
    split; [reflexivity|]. split; [reflexivity|]. split; reflexivity.
Qed.

Lemma ReadChunk_success_shape_witness :
  exists (hdr payload : list byte) (t1 : list byte) (sz : Z),
    bytes.Reader_Read (skipn 12 examples.RIFFReader) 8%nat = Ret ((hdr, None), t1) /\
    length hdr = 8%nat /\
    Uint32 (skipn 4 hdr) = Ret sz /\
    bytes.Reader_Read t1 (Z.to_nat (PaddedLength sz))
      = Ret ((payload, None), skipn 26 examples.RIFFReader) /\
    len payload = PaddedLength sz /\
    PaddedLength sz = sz + sz mod 2 /\
    Identifier (mkChunk FourCCFormat (map byte_of_Z [1; 2; 3; 4; 5])) = array4 hdr /\
    Data (mkChunk FourCCFormat (map byte_of_Z [1; 2; 3; 4; 5]))
      = firstn (Z.to_nat sz) payload /\
    len (Data (mkChunk FourCCFormat (map byte_of_Z [1; 2; 3; 4; 5]))) = sz /\
    14 = 8 + PaddedLength sz.
Proof.
  assert (Hcontract :
            forall (t t' : list byte) (k : nat) (got : list byte) (e : option error),
              bytes.Reader_Read t k = Ret ((got, e), t') -> (length got <= k)%nat).
  { intros t t' k got e. unfold bytes.Reader_Read. destruct t.
    - intros [= <- _ _]. cbn. lia.
    - intros [= <- _ _]. rewrite length_firstn. lia. }
  assert (H : ReadChunk bytes.Reader_Read
                (mkReader (array4 (list_byte_of_string "WAVE")) 42 4)
                (skipn 12 examples.RIFFReader) zeroChunk
              = Ret ((14, None),
                     mkChunk FourCCFormat (map byte_of_Z [1; 2; 3; 4; 5]),
                     mkReader (array4 (list_byte_of_string "WAVE")) 42 18,
                     skipn 26 examples.RIFFReader)) by reflexivity.
  exact (proj1 (ReadChunk_success_shape (list byte) bytes.Reader_Read)
           Hcontract _ _ _ _ _ _ _ H).
Defined.

(** ** The chunk that a failing [ReadChunk] leaves *)

Lemma Pad_make_zeros (sz : Z) (i : nat) : nth i (Pad (make sz)) x00 = x00.
Proof.
  unfold Pad. destruct (negb _).
  - destruct (Nat.lt_ge_cases i (length (make sz))) as [H|H].
    + rewrite app_nth1 by assumption. apply nth_repeat.
    + rewrite app_nth2 by assumption. apply nth_repeat.
  - apply nth_repeat.
Qed.

(** A buffer of zeros that a read has filled holds the bytes read and
    zeros after them. *)
Lemma fill_zeros_nth (sz : Z) (got : list byte) (i : nat) :
  (i < length (Pad (make sz)))%nat ->
  nth i (fill (Pad (make sz)) got) x00 = nth i got x00.
Proof.
  intros Hi. unfold fill.
  destruct (Nat.lt_ge_cases i (length got)) as [H|H].
  - rewrite app_nth1 by (rewrite length_firstn; lia).
    rewrite nth_firstn.
    now replace (i <? length (Pad (make sz)))%nat with true
      by (symmetry; apply Nat.ltb_lt; lia).
  - rewrite app_nth2 by (rewrite length_firstn; lia).
    rewrite nth_skipn, Pad_make_zeros. symmetry. now apply nth_overflow.
Qed.

Section ReaderFailure.
Variable T : Type.
Variable tRead : T -> nat -> outcome ((list byte * option error) * T).

(** What any [read] that returns has done. *)
Lemma read_inv (r r' : Reader) (t t' : T) (b b' : list byte) (n : Z)
    (err : option error) :
  read tRead r t b = Ret ((n, err), b', r', t') ->
  exists (got : list byte) (terr : option error),
    tRead t (length b) = Ret ((got, terr), t') /\
    n = len got /\ b' = fill b got /\
    (forall e : error, terr = Some e -> err = Some e).
Proof.
  unfold read.
  destruct (tRead t (length b)) as [[[got [e|]] t1]|v]; cbn [bind];
    try discriminate.
  - intros [= <- <- <- <- <-]. exists got, (Some e). repeat split. auto.
  - cbn [bytesRead size]. destruct (_ >? _);
      intros [= <- <- <- <- <-]; exists got, None; repeat split; discriminate.
Qed.

End ReaderFailure.

(** C10, as amended.  Take a call of [ReadChunk] whose header read is
    answered by the transport with 8 bytes and no error, and does not take
    the count of consumed bytes above the padded declared size.  If the
    call then returns an error, the chunk it leaves has the first four
    header bytes as its identifier, and its data have exactly the declared
    size: the bytes the payload read delivered, and zeros where it
    delivered none. *)
Theorem ReadChunk_failure_populates_chunk
    (T : Type) (tRead : T -> nat -> outcome ((list byte * option error) * T))
    (r r' : Reader) (t t1 t' : T) (c c' : Chunk) (hdr : list byte)
    (n : Z) (e : error) :
  tRead t 8%nat = Ret ((hdr, None), t1) ->
  length hdr = 8%nat ->
  int64 (bytesRead r + len hdr) <= PaddedLength (size r) ->
  ReadChunk tRead r t c = Ret ((n, Some e), c', r', t') ->
  exists (sz : Z) (payload : list byte) (perr : option error),
    Uint32 (skipn 4 hdr) = Ret sz /\
    tRead t1 (length (Pad (make sz))) = Ret ((payload, perr), t') /\
    Identifier c' = array4 hdr /\
    length (Data c') = Z.to_nat sz /\
    (forall i : nat, (i < Z.to_nat sz)%nat ->
       nth i (Data c') x00 = nth i payload x00).
Proof.
  intros Hh Hlen Hb Hrc.
  pose proof (read_transport_ok T tRead r t t1 (make 8) hdr Hh) as Hr.
  cbn zeta in Hr. cbn [bytesRead] in Hr.
  replace (_ >? _) with false in Hr
    by (symmetry; rewrite Z.gtb_ltb; apply Z.ltb_ge; lia).
  rewrite fill_exact in Hr by (now rewrite make_length).
  destruct (header_size hdr) as (sz & Hsz & Hrange).
  rewrite fill_exact in Hsz by (now rewrite make_length).
  destruct (read tRead (mkReader (fileType r) (size r) (int64 (bytesRead r + len hdr)))
              t1 (Pad (make sz))) as [[[[[dN derr] db] r2] t2]|v] eqn:Ed.
  - pose proof (ReadChunk_payload T tRead _ _ _ _ _ _ c _ _ _ _ _ _
                  Hr ltac:(unfold len; lia) Hsz Ed) as Hrun.
    rewrite Hrun in Hrc. injection Hrc as _ _ <- _ <-.
    apply read_inv in Ed as (payload & perr & Hp & _ & -> & _).
    exists sz, payload, perr. cbn [Identifier Data].
    assert (Hpl : (Z.to_nat sz <= length (Pad (make sz)))%nat).
    { rewrite Pad_make_length by lia. rewrite PaddedLength_small by lia.
      pose proof (Z.mod_pos_bound sz 2). lia. }
    repeat split; try assumption.
    + rewrite length_firstn, fill_length. lia.
    + intros i Hi. rewrite nth_firstn.
      replace (i <? Z.to_nat sz)%nat with true by (symmetry; apply Nat.ltb_lt; lia).
      apply fill_zeros_nth. lia.
  - exfalso. unfold ReadChunk in Hrc.
    change (make LengthChunkHeader) with (make 8) in Hrc.
    rewrite Hr in Hrc. cbn [bind] in Hrc.
    replace (len hdr <? len hdr) with false in Hrc
      by (symmetry; apply Z.ltb_irrefl).
    rewrite Hsz in Hrc. cbn [bind] in Hrc. rewrite Ed in Hrc. discriminate Hrc.
Qed.

Lemma ReadChunk_failure_populates_chunk_witness :
  let r := mkReader examples.FileType 32 4 in
  let hdr := map byte_of_Z [42; 42; 42; 42; 42; 0; 0; 0] in
  let c' := mkChunk (array4 hdr) (make 42) in
  ReadChunk bytes.Reader_Read r hdr zeroChunk
    = Ret ((8, Some io_EOF), c', mkReader examples.FileType 32 12, []) /\
  exists (sz : Z) (payload : list byte) (perr : option error),
    Uint32 (skipn 4 hdr) = Ret sz /\
    bytes.Reader_Read [] (length (Pad (make sz))) = Ret ((payload, perr), []) /\
    Identifier c' = array4 hdr /\
    length (Data c') = Z.to_nat sz /\
    (forall i : nat, (i < Z.to_nat sz)%nat ->
       nth i (Data c') x00 = nth i payload x00).
Proof.
  cbv zeta.
  pose (r := mkReader examples.FileType 32 4).
  pose (hdr := map byte_of_Z [42; 42; 42; 42; 42; 0; 0; 0]).
  assert (H1 : bytes.Reader_Read hdr 8%nat = Ret ((hdr, None), [])) by reflexivity.
  assert (H2 : length hdr = 8%nat) by reflexivity.
  assert (H3 : int64 (bytesRead r + len hdr) <= PaddedLength (size r))
    by (vm_compute; discriminate).
  assert (H4 : ReadChunk bytes.Reader_Read r hdr zeroChunk
               = Ret ((8, Some io_EOF), mkChunk (array4 hdr) (make 42),
                      mkReader examples.FileType 32 12, [])) by reflexivity.
  split; [exact H4|].
  exact (ReadChunk_failure_populates_chunk (list byte) bytes.Reader_Read
           r _ hdr [] [] zeroChunk _ hdr 8 io_EOF H1 H2 H3 H4).
Defined.

(** C10 as stated fails when it is the header read that takes the count
    above the bound: the stream below declares 4 bytes, so its first chunk
    is already outside; the 8 header bytes are delivered, [ReadChunk]
    returns the bound's error, and the chunk is as it was, its identifier
    not the one in the header. *)
Lemma ReadChunk_header_bound_counterexample :
  let s := examples.header 0
           ++ examples.chunk (mkChunk FourCCData (map byte_of_Z [1; 2])) in
  exists (r r' : Reader) (t t1 t' : list byte) (hdr : list byte),
    New bytes.Reader_Read s = Ret (inl r, t) /\
    bytes.Reader_Read t 8%nat = Ret ((hdr, None), t1) /\
    length hdr = 8%nat /\
    array4 hdr = FourCCData /\
    ReadChunk bytes.Reader_Read r t zeroChunk
      = Ret ((8, Some errCorruptedReadOutOfBounds), zeroChunk, r', t') /\
    Identifier zeroChunk <> array4 hdr /\
    Data zeroChunk = [].
Proof.
  cbv zeta. do 6 eexists.
  split; [reflexivity|]. split; [reflexivity|]. split; [reflexivity|].
  split; [reflexivity|]. split; [reflexivity|]. split; [discriminate|reflexivity].
Qed.

(** ** Opening a reader *)

(** [New] on a byte stream that holds a whole header. *)
Lemma New_bytes_full (p s f rest : list byte) :
  length p = 4%nat -> length s = 4%nat -> length f = 4%nat ->
  New bytes.Reader_Read (p ++ s ++ f ++ rest) =
    if negb (bytes.Equal p (slice4 FourCCRIFF))
    then Ret (inr (fmt_Errorf "corrupted: data does not begin with RIFF header"
                     ErrCorrupted), rest)
    else
      sz <- Uint32 s ;;
      if sz <? 4
      then Ret (inr (fmt_Errorf "corrupted: impossibly small file size"
                       ErrCorrupted), rest)
      else Ret (inl (mkReader (array4 f) sz 4), rest).
Proof.
  intros Hp Hs Hf.
  do 4 (destruct p as [|? p]; try discriminate). destruct p; try discriminate.
  do 4 (destruct s as [|? s]; try discriminate). destruct s; try discriminate.
  do 4 (destruct f as [|? f]; try discriminate). destruct f; try discriminate.
  reflexivity.
Qed.

(** [New] on a byte stream that ends inside the header. *)
Lemma New_bytes_short (s : list byte) :
  (length s < 12)%nat ->
  exists t' : list byte, New bytes.Reader_Read s = Ret (inr errCorruptedTooShort, t').
Proof.
  intros H.
  do 12 (destruct s as [|? s]; [eexists; reflexivity|]).
  cbn in H. lia.
Qed.

Lemma split_header (s : list byte) :
  (12 <= length s)%nat ->
  s = firstn 4 s ++ firstn 4 (skipn 4 s) ++ firstn 4 (skipn 8 s) ++ skipn 12 s.
Proof.
  intros H.
  do 12 (destruct s as [|? s]; [cbn in H; lia|]). reflexivity.
Qed.

Lemma Uint32_firstn4 (l : list byte) : Uint32 (firstn 4 l) = Uint32 l.
Proof.
  do 4 (destruct l as [|? l]; [reflexivity|]). reflexivity.
Qed.

Lemma array4_firstn4 (l : list byte) : array4 (firstn 4 l) = array4 l.
Proof.
  do 4 (destruct l as [|? l]; [reflexivity|]). reflexivity.
Qed.

(** C9.  On every transport: when the read of the 12 header bytes fails
    with an error that is end-of-stream or an underflow, [New] fails with
    an error that is [ErrCorrupted]; when it fails with any other error,
    [New] returns that error as it is; when it succeeds, [New] fails with
    an error that is [ErrCorrupted] if the first four bytes are not "RIFF"
    or the declared size is below 4, and otherwise gives a session with
    the file type and the declared size read and 4 bytes consumed.
    On every byte stream: [New] fails with an error that is [ErrCorrupted]
    when the stream has fewer than 12 bytes, does not begin with "RIFF", or
    declares a size below 4, and otherwise gives that session and leaves
    the stream after the header. *)
Theorem New_header_checks :
  (forall (T : Type) (tRead : T -> nat -> outcome ((list byte * option error) * T))
          (t t' : T) (total : Z) (e : error) (bufs : list (list byte)),
     internal.Read tRead t [slice4 EmptyBytes; slice4 EmptyBytes; slice4 EmptyBytes]
       = Ret ((total, Some e), bufs, t') ->
     (errors_Is e ErrBufferUnderflow || errors_Is e io_EOF = true ->
      exists e' : error,
        New tRead t = Ret (inr e', t') /\ errors_Is e' ErrCorrupted = true) /\
     (errors_Is e ErrBufferUnderflow || errors_Is e io_EOF = false ->
      New tRead t = Ret (inr e, t'))) /\
  (forall (T : Type) (tRead : T -> nat -> outcome ((list byte * option error) * T))
          (t t' : T) (total sz : Z) (p s f : list byte),
     internal.Read tRead t [slice4 EmptyBytes; slice4 EmptyBytes; slice4 EmptyBytes]
       = Ret ((total, None), [p; s; f], t') ->
     Uint32 s = Ret sz ->
     (p <> slice4 FourCCRIFF \/ sz < 4 ->
      exists e' : error,
        New tRead t = Ret (inr e', t') /\ errors_Is e' ErrCorrupted = true) /\
     (p = slice4 FourCCRIFF -> 4 <= sz ->
      New tRead t = Ret (inl (mkReader (array4 f) sz 4), t'))) /\
  (forall s : list byte,
     ((length s < 12)%nat \/ firstn 4 s <> slice4 FourCCRIFF \/
      (exists sz : Z, Uint32 (skipn 4 s) = Ret sz /\ sz < 4) ->
      exists (e' : error) (t' : list byte),
        New bytes.Reader_Read s = Ret (inr e', t') /\
        errors_Is e' ErrCorrupted = true) /\
     (forall sz : Z,
        (12 <= length s)%nat -> firstn 4 s = slice4 FourCCRIFF ->
        Uint32 (skipn 4 s) = Ret sz -> 4 <= sz ->
        New bytes.Reader_Read s
          = Ret (inl (mkReader (array4 (skipn 8 s)) sz 4), skipn 12 s))).
Proof.
  split; [|split].
  - intros T tRead t t' total e bufs Hr. unfold New. rewrite Hr.
    cbn [bind snd]. unfold wrap. split; intros ->.
    + eexists. split; reflexivity.
    + reflexivity.
  - intros T tRead t t' total sz p s f Hr Hsz.
    pose proof Hr as Hl. unfold internal.Read in Hl.
    apply Read_from_lengths in Hl. injection Hl as _ _ Hf.
    unfold New. rewrite Hr. cbn [bind snd nth].
    split.
    + intros Hbad.
      destruct (bytes.Equal p (slice4 FourCCRIFF)) eqn:Eq; cbn [negb].
      * apply Equal_eq in Eq. destruct Hbad as [Hbad|Hbad]; [contradiction|].
        rewrite Hsz. cbn [bind size].
        replace (sz <? 4) with true by (symmetry; apply Z.ltb_lt; lia).
        eexists. split; reflexivity.
      * eexists. split; reflexivity.
    + intros -> Hge.
      replace (bytes.Equal _ _) with true by (symmetry; now apply Equal_eq).
      cbn [negb]. rewrite Hsz. cbn [bind size fileType].
      replace (sz <? 4) with false by (symmetry; apply Z.ltb_ge; lia).
      unfold len. now rewrite Hf.
  - intros s.
    destruct (Nat.lt_ge_cases (length s) 12) as [Hshort|Hfull].
    + split.
      * intros _. destruct (New_bytes_short s Hshort) as [t' Ht'].
        exists errCorruptedTooShort, t'. split; [assumption|reflexivity].
      * intros sz Hge. lia.
    + pose proof (split_header s Hfull) as Hs.
      assert (H4 : forall l : list byte, (4 <= length l)%nat -> length (firstn 4 l) = 4%nat)
        by (intros l Hl; rewrite length_firstn; lia).
      pose proof (New_bytes_full (firstn 4 s) (firstn 4 (skipn 4 s))
                    (firstn 4 (skipn 8 s)) (skipn 12 s)
                    (H4 s ltac:(lia))
                    (H4 (skipn 4 s) ltac:(rewrite length_skipn; lia))
                    (H4 (skipn 8 s) ltac:(rewrite length_skipn; lia))) as Hnew.
      rewrite <- Hs in Hnew. rewrite Uint32_firstn4, array4_firstn4 in Hnew.
      rewrite Hnew. split.
      * intros [Hbad|[Hbad|(sz & Hsz & Hbad)]]; [lia| |].
        -- replace (bytes.Equal _ _) with false.
           ++ eexists; eexists. split; reflexivity.
           ++ symmetry. apply not_true_is_false. intros Eq.
              now apply Equal_eq in Eq.
        -- destruct (negb _); [eexists; eexists; split; reflexivity|].
           rewrite Hsz. cbn [bind].
           replace (sz <? 4) with true by (symmetry; apply Z.ltb_lt; lia).
           eexists; eexists. split; reflexivity.
      * intros sz _ Hp Hsz Hge.
        replace (bytes.Equal _ _) with true by (symmetry; now apply Equal_eq).
        cbn [negb]. rewrite Hsz. cbn [bind].
        now replace (sz <? 4) with false by (symmetry; apply Z.ltb_ge; lia).
Qed.

Lemma New_header_checks_witness :
  (12 <= length examples.RIFFReader)%nat /\
  firstn 4 examples.RIFFReader = slice4 FourCCRIFF /\
  Uint32 (skipn 4 examples.RIFFReader) = Ret 42 /\
  4 <= 42 /\
  New bytes.Reader_Read examples.RIFFReader
    = Ret (inl (mkReader (array4 (skipn 8 examples.RIFFReader)) 42 4),
           skipn 12 examples.RIFFReader).
Proof.
  assert (H1 : (12 <= length examples.RIFFReader)%nat) by (cbn; lia).
  assert (H2 : firstn 4 examples.RIFFReader = slice4 FourCCRIFF) by reflexivity.
  assert (H3 : Uint32 (skipn 4 examples.RIFFReader) = Ret 42) by reflexivity.
  assert (H4 : 4 <= 42) by lia.
  refine (conj H1 (conj H2 (conj H3 (conj H4 _)))).
  exact (proj2 (proj2 (proj2 New_header_checks) examples.RIFFReader) 42 H1 H2 H3 H4).
Defined.

(** ** A stream that ends inside a chunk *)

(** C2, at the input where the code departs from it.  The stream holds a
    header and the 8 header bytes of a chunk that declares 4 bytes of
    payload, and ends there.  The payload read is answered with no bytes
    and end-of-stream, and [ReadChunk] returns that end-of-stream as it
    is, after 8 bytes of the chunk were read; it is not [ErrCorrupted].
    [ReadToEnd] then takes it for the end of the chunks and returns no
    chunk and no error. *)
Theorem ReadChunk_truncated_payload_is_EOF :
  let s := examples.header 12 ++ slice4 FourCCData ++ LittleEndianUInt32Bytes 4 in
  exists (r r' : Reader) (t t' : list byte),
    New bytes.Reader_Read s = Ret (inl r, t) /\
    bytes.Reader_Read t 8%nat
      = Ret ((slice4 FourCCData ++ LittleEndianUInt32Bytes 4, None), []) /\
    bytes.Reader_Read [] 4%nat = Ret (([], Some io_EOF), []) /\
    ReadChunk bytes.Reader_Read r t zeroChunk
      = Ret ((8, Some io_EOF), mkChunk FourCCData (make 4), r', t') /\
    errors_Is io_EOF ErrCorrupted = false /\
    ReadToEnd bytes.Reader_Read 1 r t = Some (Ret (([], None), r', t')).
Proof.
  cbv zeta. do 4 eexists.
  split; [reflexivity|]. split; [reflexivity|]. split; [reflexivity|].
  split; [reflexivity|]. split; reflexivity.
Qed.

(** ** The WAVE format chunk *)

Import wave.

Lemma ErrBadWaveData_Corrupted (text : string) :
  errors_Is (fmt_Errorf text ErrBadWaveData) ErrCorrupted = true.
Proof. reflexivity. Qed.

Lemma Validate_Corrupted (f : Format) (e : error) :
  Validate f = Some e -> errors_Is e ErrCorrupted = true.
Proof.
  unfold Validate.
  repeat match goal with
         | |- context [if ?b then _ else _] => destruct b
         end; intros [= <-]; reflexivity.
Qed.

Section WaveDecoding.
Variable R : Type.
Variable rReadChunk : R -> Chunk -> outcome ((Z * option error) * Chunk * R).

(** The decoder on a format chunk with 16 bytes of data: the fields are
    read in their order, a stored byte rate or block alignment that is not
    the one computed from the other fields fails with an error that is
    [ErrCorrupted], and fields that agree go on to [Validate]. *)
Lemma FormatFromReader_cross_checks (r r' : R)
    (audioFormat channels sampleRate byteRate blockAlign bitsPerSample : Z) :
  0 <= audioFormat < 2 ^ 16 -> 0 <= channels < 2 ^ 16 ->
  0 <= sampleRate < 2 ^ 32 -> 0 <= byteRate < 2 ^ 32 ->
  0 <= blockAlign < 2 ^ 16 -> 0 <= bitsPerSample < 2 ^ 16 ->
  rReadChunk r zeroChunk
    = Ret ((LengthFormatChunk, None),
           mkChunk FourCCFormat
             (examples.fmtData audioFormat channels sampleRate byteRate
                blockAlign bitsPerSample), r') ->
  let f := mkFormat bitsPerSample channels sampleRate audioFormat in
  (byteRate <> BytesPerSecond f \/ blockAlign <> BlockAlign f ->
   exists e : error,
     FormatFromReader rReadChunk r = Ret ((f, Some e), r') /\
     errors_Is e ErrCorrupted = true) /\
  (byteRate = BytesPerSecond f -> blockAlign = BlockAlign f ->
   FormatFromReader rReadChunk r = Ret ((f, Validate f), r')).
Proof.
  intros Haf Hch Hsr Hbr Hba Hbits Hrc f.
  assert (Hrun : FormatFromReader rReadChunk r =
                 if negb (byteRate =? uint32 (BytesPerSecond f))
                 then Ret ((f, Some (fmt_Errorf
                              "stream has invalid average bytes-per-second field"
                              ErrInconsistentBytesPerSecond)), r')
                 else if negb (blockAlign =? uint16 (BlockAlign f))
                 then Ret ((f, Some (fmt_Errorf
                              "stream contained invalid block alignment"
                              ErrInconsistentBlockAlignment)), r')
                 else match Validate f with
                      | Some e => Ret ((f, Some e), r')
                      | None => Ret ((f, None), r')
                      end).
  { unfold FormatFromReader. rewrite Hrc. cbn [bind].
    change (negb (LengthFormatChunk =? LengthFormatChunk)) with false.
    cbn [Identifier Data].
    change (negb (bytes.Equal (slice4 FourCCFormat) (slice4 FourCCFormat))) with false.
    cbv iota.
    unfold examples.fmtData, LittleEndianUInt16Bytes, LittleEndianUInt32Bytes,
      ReadLittleEndianUInt16, ReadLittleEndianUInt32.
    assert (H16 : forall u : Z, 0 <= u < 2 ^ 16 ->
              Uint16 [byte_of_Z u; byte_of_Z (Z.shiftr u 8)] = Ret u)
      by (intros u Hu; exact (Uint16_PutUint16 u [] Hu)).
    assert (H32 : forall u : Z, 0 <= u < 2 ^ 32 ->
              Uint32 [byte_of_Z u; byte_of_Z (Z.shiftr u 8);
                      byte_of_Z (Z.shiftr u 16); byte_of_Z (Z.shiftr u 24)] = Ret u)
      by (intros u Hu; exact (Uint32_PutUint32 u [] Hu)).
    cbn [PutUint16 PutUint32 app readBytes bytes.Reader_ReadByte bind].
    rewrite (H16 audioFormat) by assumption.
    cbn [PutUint16 PutUint32 app readBytes bytes.Reader_ReadByte bind].
    rewrite (H16 channels) by assumption.
    cbn [PutUint16 PutUint32 app readBytes bytes.Reader_ReadByte bind].
    rewrite (H32 sampleRate) by assumption.
    cbn [PutUint16 PutUint32 app readBytes bytes.Reader_ReadByte bind].
    rewrite (H32 byteRate) by assumption.
    cbn [PutUint16 PutUint32 app readBytes bytes.Reader_ReadByte bind].
    rewrite (H16 blockAlign) by assumption.
    cbn [PutUint16 PutUint32 app readBytes bytes.Reader_ReadByte bind].
    rewrite (H16 bitsPerSample) by assumption.
    cbn [bind].
    reflexivity. }
  assert (Hu32 : uint32 (BytesPerSecond f) = BytesPerSecond f)
    by (unfold BytesPerSecond, uint32; apply Z.mod_mod; lia).
  assert (Hu16 : uint16 (BlockAlign f) = BlockAlign f)
    by (unfold BlockAlign, uint16; apply Z.mod_mod; lia).
  rewrite Hrun, Hu32, Hu16. split.
  - intros Hbad.
    destruct (byteRate =? BytesPerSecond f) eqn:E1; cbn [negb].
    + destruct (blockAlign =? BlockAlign f) eqn:E2; cbn [negb].
      * apply Z.eqb_eq in E1, E2. destruct Hbad; contradiction.
      * eexists. split; reflexivity.
    + eexists. split; reflexivity.
  - intros -> ->. rewrite !Z.eqb_refl. cbn [negb]. now destruct (Validate f).
Qed.

End WaveDecoding.

(** C7, at the input where the code departs from it.  The stream holds a
    "fmt " chunk that declares 15 bytes of data: with its pad byte it is 24
    bytes on the wire, which is what the decoder checks, and its byte-rate
    field, 176401, is not the one its other fields give, 176400.  The
    decoder accepts the chunk's length and identifier, then runs out of
    bytes in the last field and panics with end-of-stream; it returns no
    error. *)
Theorem FormatFromReader_short_format_chunk_panics :
  let data := LittleEndianUInt16Bytes PCM ++ LittleEndianUInt16Bytes 2
              ++ LittleEndianUInt32Bytes 44100 ++ LittleEndianUInt32Bytes 176401
              ++ LittleEndianUInt16Bytes 4 ++ [byte_of_Z 16] in
  let s := slice4 FourCCRIFF ++ LittleEndianUInt32Bytes 28
           ++ list_byte_of_string "WAVE"
           ++ examples.chunk (mkChunk FourCCFormat data) in
  exists (r r' : Reader) (t t' : list byte),
    New bytes.Reader_Read s = Ret (inl r, t) /\
    ReadChunk bytes.Reader_Read r t zeroChunk
      = Ret ((LengthFormatChunk, None), mkChunk FourCCFormat data, r', t') /\
    len data = 15 /\
    BytesPerSecond (mkFormat 16 2 44100 PCM) = 176400 /\
    FormatFromReader (session.ReadChunk bytes.Reader_Read) (r, t) = Panic io_EOF.
Proof.
  cbv zeta. do 4 eexists.
  split; [reflexivity|]. split; [reflexivity|]. split; [reflexivity|].
  split; reflexivity.
Qed.

(** ** Writing, then reading *)

Lemma Write_from_Buffer (content : list (list byte)) :
  forall (total : Z) (t : list byte),
    0 <= total -> total + len (concat content) < 2 ^ 63 ->
    internal.Write_from bytes.Buffer_Write total t content
      = Ret ((total + len (concat content), None), t ++ concat content).
Proof.
  induction content as [|slice rest IH]; intros total t H0 Hlt.
  - cbn. now rewrite Z.add_0_r, app_nil_r.
  - cbn [internal.Write_from concat bytes.Buffer_Write bind].
    cbn [concat] in Hlt. rewrite len_app in Hlt. pose proof (len_nonneg slice).
    pose proof (len_nonneg (concat rest)).
    rewrite Z.ltb_irrefl, int64_small by lia.
    rewrite IH by lia. rewrite len_app, app_assoc. do 3 f_equal. lia.
Qed.

Lemma ByteLength_small (c : Chunk) :
  len (Data c) < 2 ^ 32 ->
  ByteLength c = 8 + (len (Data c) + len (Data c) mod 2).
Proof.
  intros H. unfold ByteLength. pose proof (len_nonneg (Data c)).
  pose proof (Z.mod_pos_bound (len (Data c)) 2).
  rewrite PaddedLength_small by lia. rewrite int64_small; lia.
Qed.

Lemma chunk_len (c : Chunk) :
  len (examples.chunk c) = 8 + (len (Data c) + len (Data c) mod 2).
Proof.
  unfold examples.chunk. rewrite !len_app, Pad_len.
  destruct (Identifier c) as [[[? ?] ?] ?].
  change (len (slice4 _)) with 4.
  change (len (LittleEndianUInt32Bytes _)) with 4. lia.
Qed.

Lemma wireSize_lower (chunks : list Chunk) : 4 <= session.wireSize chunks.
Proof.
  induction chunks as [|c rest IH]; cbn [session.wireSize]; [lia|].
  pose proof (len_nonneg (Data c)). pose proof (Z.mod_pos_bound (len (Data c)) 2).
  lia.
Qed.

(** An open writer on a buffer takes a chunk that fits: the chunk's bytes
    go to the end of the buffer and the running size grows by their
    number. *)
Lemma WriteChunk_Buffer (w : Writer) (t : list byte) (c : Chunk) :
  closed w = false ->
  0 <= fileSize w ->
  fileSize w + (8 + (len (Data c) + len (Data c) mod 2)) <= MaxUint32 ->
  WriteChunk bytes.Buffer_Write w t c
    = Ret ((8 + (len (Data c) + len (Data c) mod 2), None),
           mkWriter (writer.fileType w)
             (fileSize w + (8 + (len (Data c) + len (Data c) mod 2))) false,
           t ++ examples.chunk c).
Proof.
  intros Hopen H0 Hfit. unfold MaxUint32 in Hfit.
  pose proof (len_nonneg (Data c)). pose proof (Z.mod_pos_bound (len (Data c)) 2).
  unfold WriteChunk. rewrite Hopen. cbn [negb].
  rewrite ByteLength_small by lia. rewrite int64_small by lia.
  replace (_ || _) with false
    by (symmetry; apply orb_false_iff; split;
        [rewrite Z.gtb_ltb; apply Z.ltb_ge; unfold MaxUint32; lia
        |apply Z.ltb_ge; lia]).
  unfold internal.Write.
  assert (Hcat : concat [slice4 (Identifier c);
                         LittleEndianUInt32Bytes (uint32 (len (Data c)));
                         Pad (Data c)] = examples.chunk c)
    by (unfold examples.chunk; cbn [concat]; now rewrite app_nil_r).
  rewrite Write_from_Buffer by (rewrite ?Hcat, ?chunk_len; lia).
  rewrite Hcat, chunk_len. cbn [bind]. rewrite !Z.add_0_l.
  rewrite int64_small by lia. reflexivity.
Qed.

Lemma WriteChunks_Buffer (chunks : list Chunk) :
  forall (w : Writer) (t : list byte),
    closed w = false ->
    0 <= fileSize w ->
    fileSize w + (session.wireSize chunks - 4) <= MaxUint32 ->
    session.WriteChunks bytes.Buffer_Write w t chunks
      = Ret (None,
             mkWriter (writer.fileType w)
               (fileSize w + (session.wireSize chunks - 4)) false,
             t ++ concat (map examples.chunk chunks)).
Proof.
  induction chunks as [|c rest IH]; intros w t Hopen H0 Hfit.
  - cbn [session.WriteChunks session.wireSize map concat].
    rewrite app_nil_r, Z.sub_diag, Z.add_0_r.
    destruct w as [ft fs cl]. cbn in Hopen. now subst cl.
  - cbn [session.WriteChunks session.wireSize map concat] in *.
    pose proof (wireSize_lower rest).
    pose proof (len_nonneg (Data c)). pose proof (Z.mod_pos_bound (len (Data c)) 2).
    rewrite WriteChunk_Buffer by (try assumption; lia).
    cbn [bind snd]. rewrite IH by (cbn [closed fileSize]; try reflexivity; lia).
    cbn [writer.fileType fileSize]. rewrite app_assoc.
    replace (fileSize w + (8 + (len (Data c) + len (Data c) mod 2))
             + (session.wireSize rest - 4))
      with (fileSize w
            + (8 + (len (Data c) + len (Data c) mod 2) + session.wireSize rest - 4))
      by lia.
    reflexivity.
Qed.

Lemma writer_New_Buffer (ft : FileType) :
  writer.New bytes.Buffer_Write [] ft
    = Ret (inl (mkWriter ft 4 false),
           slice4 FourCCRIFF ++ slice4 EmptyBytes ++ slice4 ft).
Proof. destruct ft as [[[? ?] ?] ?]. reflexivity. Qed.

(** The positioned write of [test.Buffer] over bytes that are there. *)
Lemma Buffer_WriteAt_patch (a old b rest : list byte) :
  length a = 4%nat -> length old = 4%nat -> length b = 4%nat ->
  test.Buffer_WriteAt (a ++ old ++ rest) b 4 = Ret ((4, None), a ++ b ++ rest).
Proof.
  intros Ha Hold Hb. unfold test.Buffer_WriteAt.
  assert (Hlen : len (a ++ old ++ rest) = 8 + len rest)
    by (rewrite !len_app; unfold len; lia).
  pose proof (len_nonneg rest).
  replace (4 >? len (a ++ old ++ rest)) with false
    by (symmetry; rewrite Z.gtb_ltb; apply Z.ltb_ge; lia).
  change (4 <? 0) with false. cbv iota.
  change (Z.to_nat 4) with 4%nat.
  rewrite firstn_app, skipn_app, Ha, Nat.sub_diag.
  rewrite firstn_all2, skipn_all2 by lia. cbn [firstn skipn app].
  rewrite app_nil_r.
  assert (Hfill : fill (old ++ rest) b = b ++ rest).
  { unfold fill. rewrite firstn_all2 by (rewrite length_app; lia).
    rewrite Hb, skipn_app, Hold, Nat.sub_diag, skipn_all2 by lia. reflexivity. }
  rewrite Hfill.
  assert (Hmin : Z.min (len (old ++ rest)) (len b) = 4)
    by (rewrite len_app; unfold len; lia).
  rewrite Hmin. unfold len at 1 2. rewrite Hb. cbn [Z.of_nat Z.ltb Z.compare].
  reflexivity.
Qed.

(** A run of the writer on an empty buffer leaves the header, with the
    size of what follows it, and the chunks as they are on the wire. *)
Lemma WriteAll_Buffer (ft : FileType) (chunks : list Chunk) :
  session.wireSize chunks <= MaxUint32 ->
  session.WriteAll bytes.Buffer_Write test.Buffer_WriteAt [] ft chunks
    = Ret (None,
           slice4 FourCCRIFF
           ++ LittleEndianUInt32Bytes (session.wireSize chunks)
           ++ slice4 ft ++ concat (map examples.chunk chunks)).
Proof.
  intros Hfit. unfold session.WriteAll. rewrite writer_New_Buffer. cbn [bind].
  pose proof (wireSize_lower chunks).
  rewrite WriteChunks_Buffer by (cbn [closed fileSize]; try reflexivity; lia).
  cbn [bind writer.fileType fileSize].
  replace (4 + (session.wireSize chunks - 4)) with (session.wireSize chunks) by lia.
  unfold Close. cbn [closed negb fileSize writer.fileType].
  unfold internal.WriteAt. change (len (slice4 FourCCRIFF)) with 4.
  assert (Hu : uint32 (session.wireSize chunks) = session.wireSize chunks)
    by (unfold uint32; apply Z.mod_small; unfold MaxUint32 in Hfit; lia).
  rewrite Hu. rewrite <- !app_assoc.
  rewrite Buffer_WriteAt_patch
    by (try reflexivity; destruct ft as [[[? ?] ?] ?]; reflexivity).
  cbn [bind].
  change (len (LittleEndianUInt32Bytes (session.wireSize chunks))) with 4.
  cbn [Z.ltb Z.compare Pos.compare Pos.compare_cont snd]. reflexivity.
Qed.

Lemma Buffer_Read_exact (a rest : list byte) :
  bytes.Buffer_Read (a ++ rest) (length a) = Ret ((a, None), rest).
Proof.
  unfold bytes.Buffer_Read. destruct (a ++ rest) as [|x l] eqn:E.
  - apply app_eq_nil in E as [-> ->]. reflexivity.
  - rewrite <- E, firstn_app, skipn_app, Nat.sub_diag, firstn_all, skipn_all.
    cbn [firstn skipn app]. now rewrite app_nil_r.
Qed.

Lemma Buffer_Read_end (k : nat) :
  k <> 0%nat -> bytes.Buffer_Read [] k = Ret (([], Some io_EOF), []).
Proof.
  intros H. unfold bytes.Buffer_Read. now destruct k.
Qed.

(** [New] on a buffer that holds a whole header. *)
Lemma New_Buffer_full (p s f rest : list byte) :
  length p = 4%nat -> length s = 4%nat -> length f = 4%nat ->
  New bytes.Buffer_Read (p ++ s ++ f ++ rest) =
    if negb (bytes.Equal p (slice4 FourCCRIFF))
    then Ret (inr (fmt_Errorf "corrupted: data does not begin with RIFF header"
                     ErrCorrupted), rest)
    else
      sz <- Uint32 s ;;
      if sz <? 4
      then Ret (inr (fmt_Errorf "corrupted: impossibly small file size"
                       ErrCorrupted), rest)
      else Ret (inl (mkReader (array4 f) sz 4), rest).
Proof.
  intros Hp Hs Hf.
  do 4 (destruct p as [|? p]; try discriminate). destruct p; try discriminate.
  do 4 (destruct s as [|? s]; try discriminate). destruct s; try discriminate.
  do 4 (destruct f as [|? f]; try discriminate). destruct f; try discriminate.
  reflexivity.
Qed.

Lemma array4_slice4 (a : fourBytes) (rest : list byte) :
  array4 (slice4 a ++ rest) = a.
Proof. destruct a as [[[? ?] ?] ?]. reflexivity. Qed.

Lemma slice4_length (a : fourBytes) : length (slice4 a) = 4%nat.
Proof. destruct a as [[[? ?] ?] ?]. reflexivity. Qed.

(** A reader on a buffer that begins with a chunk on the wire, and has
    room for it within the declared size, reads that chunk and stops
    after it. *)
Lemma ReadChunk_Buffer (r : Reader) (c c0 : Chunk) (rest : list byte) :
  len (Data c) < 2 ^ 32 ->
  0 <= bytesRead r ->
  bytesRead r + (8 + (len (Data c) + len (Data c) mod 2)) <= PaddedLength (size r) ->
  PaddedLength (size r) < 2 ^ 62 ->
  ReadChunk bytes.Buffer_Read r (examples.chunk c ++ rest) c0
    = Ret ((8 + (len (Data c) + len (Data c) mod 2), None), c,
           mkReader (fileType r) (size r)
             (bytesRead r + (8 + (len (Data c) + len (Data c) mod 2))),
           rest).
Proof.
  intros Hlen H0 Hfit Hsmall.
  pose proof (len_nonneg (Data c)) as Hn.
  pose proof (Z.mod_pos_bound (len (Data c)) 2 ltac:(lia)) as Hm.
  set (hdr := slice4 (Identifier c)
              ++ LittleEndianUInt32Bytes (uint32 (len (Data c)))).
  assert (Hhl : length hdr = 8%nat)
    by (unfold hdr; rewrite length_app, slice4_length; reflexivity).
  assert (Hstream : examples.chunk c ++ rest = hdr ++ (Pad (Data c) ++ rest))
    by (unfold examples.chunk, hdr; now rewrite <- !app_assoc).
  (* the header *)
  assert (Hh : bytes.Buffer_Read (examples.chunk c ++ rest) (length (make 8))
               = Ret ((hdr, None), Pad (Data c) ++ rest)).
  { rewrite Hstream, make_length. change (Z.to_nat 8) with 8%nat.
    rewrite <- Hhl. apply Buffer_Read_exact. }
  pose proof (read_transport_ok (list byte) bytes.Buffer_Read r _ _ (make 8) hdr Hh)
    as Hr.
  cbn zeta in Hr. cbn [bytesRead] in Hr.
  assert (Hl8 : len hdr = 8) by (unfold len; lia).
  rewrite Hl8 in Hr. rewrite int64_small in Hr by lia.
  replace (_ >? _) with false in Hr
    by (symmetry; rewrite Z.gtb_ltb; apply Z.ltb_ge; lia).
  rewrite fill_exact in Hr by (rewrite make_length; lia).
  (* the declared size *)
  assert (Hsz : Uint32 (skipn 4 hdr) = Ret (len (Data c))).
  { unfold hdr. rewrite skipn_app, slice4_length, Nat.sub_diag.
    rewrite skipn_all2 by (rewrite slice4_length; lia).
    cbn [skipn app]. unfold uint32. rewrite Z.mod_small by lia.
    rewrite <- (app_nil_r (LittleEndianUInt32Bytes _)).
    apply Uint32_PutUint32. lia. }
  (* the payload *)
  assert (Hpl : length (Pad (make (len (Data c)))) = length (Pad (Data c))).
  { pose proof (Pad_len (make (len (Data c)))) as H1.
    pose proof (Pad_len (Data c)) as H2. unfold len in H1, H2.
    rewrite make_length, Nat2Z.id in H1. apply Nat2Z.inj. unfold len.
    congruence. }
  assert (Hp : bytes.Buffer_Read (Pad (Data c) ++ rest)
                 (length (Pad (make (len (Data c)))))
               = Ret ((Pad (Data c), None), rest))
    by (rewrite Hpl; apply Buffer_Read_exact).
  pose proof (read_transport_ok (list byte) bytes.Buffer_Read
                (mkReader (fileType r) (size r) (bytesRead r + 8))
                _ _ (Pad (make (len (Data c)))) (Pad (Data c)) Hp) as Hr2.
  cbn zeta in Hr2. cbn [bytesRead size fileType] in Hr2.
  rewrite Pad_len in Hr2. rewrite int64_small in Hr2 by lia.
  replace (_ >? _) with false in Hr2
    by (symmetry; rewrite Z.gtb_ltb; apply Z.ltb_ge; lia).
  rewrite fill_exact in Hr2 by (symmetry; exact Hpl).
  rewrite (ReadChunk_payload (list byte) bytes.Buffer_Read _ _ _ _ _ _ c0 _ _ _ _ _ _
             Hr ltac:(lia) Hsz Hr2).
  rewrite Pad_len. rewrite Z.ltb_irrefl.
  rewrite int64_small by lia.
  unfold hdr at 1. rewrite array4_slice4.
  replace (Z.to_nat (len (Data c))) with (length (Data c))
    by (unfold len; now rewrite Nat2Z.id).
  rewrite Pad_prefix.
  replace (bytesRead r + 8 + (len (Data c) + len (Data c) mod 2))
    with (bytesRead r + (8 + (len (Data c) + len (Data c) mod 2))) by lia.
  now destruct c.
Qed.

Lemma ReadChunk_Buffer_end (r : Reader) (c0 : Chunk) :
  0 <= bytesRead r < 2 ^ 62 ->
  ReadChunk bytes.Buffer_Read r [] c0 = Ret ((0, Some io_EOF), c0, r, []).
Proof.
  intros H. unfold ReadChunk, read. rewrite make_length.
  rewrite Buffer_Read_end by discriminate. cbn [bind len length Z.of_nat].
  rewrite Z.add_0_r, int64_small by lia. now destruct r.
Qed.

(** The loop of [ReadToEnd] over chunks on the wire, on a reader with room
    for them within the declared size: it collects them all and stops at
    the end of the buffer without an error. *)
Lemma ReadToEnd_loop_Buffer (chunks : list Chunk) :
  forall (fuel : nat) (r : Reader) (acc : list Chunk),
    (length chunks < fuel)%nat ->
    session.wireSize chunks <= MaxUint32 ->
    0 <= bytesRead r ->
    bytesRead r + (session.wireSize chunks - 4) <= PaddedLength (size r) ->
    PaddedLength (size r) < 2 ^ 62 ->
    ReadToEnd_loop bytes.Buffer_Read fuel r
      (concat (map examples.chunk chunks)) acc
    = Some (Ret ((acc ++ chunks, None),
                 mkReader (fileType r) (size r)
                   (bytesRead r + (session.wireSize chunks - 4)), [])).
Proof.
  induction chunks as [|c rest IH]; intros fuel r acc Hfuel Hmax H0 Hfit Hsmall;
    (destruct fuel as [|fuel]; [cbn in Hfuel; lia|]);
    cbn [ReadToEnd_loop map concat session.wireSize length] in *.
  - rewrite ReadChunk_Buffer_end by lia.
    change (errors_Is io_EOF io_EOF) with true. cbv iota.
    rewrite app_nil_r, Z.sub_diag, Z.add_0_r. now destruct r.
  - pose proof (wireSize_lower rest) as Hl.
    pose proof (len_nonneg (Data c)) as Hn.
    pose proof (Z.mod_pos_bound (len (Data c)) 2 ltac:(lia)) as Hm.
    unfold MaxUint32 in Hmax.
    rewrite ReadChunk_Buffer by lia.
    rewrite IH by (cbn [bytesRead size fileType]; unfold MaxUint32; lia).
    cbn [bytesRead size fileType]. rewrite <- app_assoc. cbn [app].
    replace (bytesRead r + (8 + (len (Data c) + len (Data c) mod 2))
             + (session.wireSize rest - 4))
      with (bytesRead r
            + (8 + (len (Data c) + len (Data c) mod 2) + session.wireSize rest - 4))
      by lia.
    reflexivity.
Qed.

(** Writing, then reading, for chunks taken with the bytes that their
    data hold when each is written, over the buffer: for every file type
    and every list of such chunks whose container size fits a [uint32], a
    run of the writer on an empty buffer (open, [WriteChunk] for every
    chunk, [Close]) ends without an error, and on the buffer it leaves,
    [New] gives a session with that file type, whose [ReadToEnd], given
    more rounds than there are chunks, returns exactly those chunks,
    identifiers and data without padding, in their order, and no error. *)
Theorem write_then_read_roundtrip (ft : FileType) (chunks : list Chunk) :
  session.wireSize chunks <= MaxUint32 ->
  exists (stream t : list byte) (r : Reader),
    session.WriteAll bytes.Buffer_Write test.Buffer_WriteAt [] ft chunks
      = Ret (None, stream) /\
    New bytes.Buffer_Read stream = Ret (inl r, t) /\
    fileType r = ft /\
    size r = session.wireSize chunks /\
    forall fuel : nat,
      (length chunks < fuel)%nat ->
      exists r' : Reader,
        ReadToEnd bytes.Buffer_Read fuel r t = Some (Ret ((chunks, None), r', [])).
Proof.
  intros Hfit. pose proof (wireSize_lower chunks) as Hl.
  unfold MaxUint32 in Hfit.
  exists (slice4 FourCCRIFF
          ++ LittleEndianUInt32Bytes (session.wireSize chunks)
          ++ slice4 ft ++ concat (map examples.chunk chunks)),
         (concat (map examples.chunk chunks)),
         (mkReader ft (session.wireSize chunks) 4).
  split; [apply WriteAll_Buffer; unfold MaxUint32; lia|].
  split.
  - rewrite New_Buffer_full by (try reflexivity; apply slice4_length).
    change (negb (bytes.Equal (slice4 FourCCRIFF) (slice4 FourCCRIFF))) with false.
    cbv iota.
    rewrite <- (app_nil_r (LittleEndianUInt32Bytes _)).
    unfold LittleEndianUInt32Bytes. rewrite Uint32_PutUint32 by lia.
    cbn [bind].
    replace (session.wireSize chunks <? 4) with false
      by (symmetry; apply Z.ltb_ge; lia).
    rewrite <- (app_nil_r (slice4 ft)), array4_slice4. reflexivity.
  - split; [reflexivity|]. split; [reflexivity|].
    intros fuel Hfuel. eexists. unfold ReadToEnd.
    rewrite ReadToEnd_loop_Buffer;
      cbn [bytesRead size fileType]; try assumption; unfold MaxUint32; try lia.
    + reflexivity.
    + rewrite PaddedLength_small by lia.
      pose proof (Z.mod_pos_bound (session.wireSize chunks) 2). lia.
    + rewrite PaddedLength_small by lia.
      pose proof (Z.mod_pos_bound (session.wireSize chunks) 2). lia.
Qed.

Lemma write_then_read_roundtrip_witness :
  let chunks := [mkChunk FourCCFormat (map byte_of_Z [1; 2; 3; 4; 5]);
                 mkChunk FourCCData []] in
  session.wireSize chunks <= MaxUint32 /\
  exists (stream t : list byte) (r : Reader),
    session.WriteAll bytes.Buffer_Write test.Buffer_WriteAt [] examples.FileType chunks
      = Ret (None, stream) /\
    New bytes.Buffer_Read stream = Ret (inl r, t) /\
    fileType r = examples.FileType /\
    size r = session.wireSize chunks /\
    forall fuel : nat,
      (length chunks < fuel)%nat ->
      exists r' : Reader,
        ReadToEnd bytes.Buffer_Read fuel r t = Some (Ret ((chunks, None), r', [])).
Proof.
  cbv zeta.
  assert (H : session.wireSize
                [mkChunk FourCCFormat (map byte_of_Z [1; 2; 3; 4; 5]);
                 mkChunk FourCCData []] <= MaxUint32)
    by (vm_compute; discriminate).
  split; [exact H|].
  exact (write_then_read_roundtrip examples.FileType
           [mkChunk FourCCFormat (map byte_of_Z [1; 2; 3; 4; 5]);
            mkChunk FourCCData []] H).
Defined.

(** The round trip depends on what the transport answers when it is asked
    for no bytes at its end.  A buffer answers with no error; a
    [bytes.Reader] answers with end-of-stream, which [ReadChunk] passes on
    from the payload read, so that behind it a last chunk without data is
    read as the end of the chunks. *)
Lemma ReadToEnd_Reader_last_empty_chunk :
  let chunks := [mkChunk FourCCData []] in
  exists (stream t t' : list byte) (r r' : Reader),
    session.WriteAll bytes.Buffer_Write test.Buffer_WriteAt [] examples.FileType chunks
      = Ret (None, stream) /\
    New bytes.Reader_Read stream = Ret (inl r, t) /\
    ReadToEnd bytes.Reader_Read 2 r t = Some (Ret (([], None), r', t')).
Proof.
  cbv zeta. do 5 eexists.
  split; [reflexivity|]. split; reflexivity.
Qed.

(** * More of the code *)

(** ** Padding *)

(** X1.  For a length that a slice can have, [PaddedLength] gives the
    least even number that is not below it: it is even, at most one above
    the length, and padding a padded length changes nothing. *)
Theorem PaddedLength_idempotent_even (n : Z) :
  0 <= n < 2 ^ 62 ->
  PaddedLength n mod 2 = 0 /\
  n <= PaddedLength n <= n + 1 /\
  PaddedLength (PaddedLength n) = PaddedLength n /\
  (n mod 2 = 0 -> PaddedLength n = n).
Proof.
  intros H. pose proof (PaddedLength_even n H) as He.
  pose proof (PaddedLength_small n H) as Hs.
  pose proof (Z.mod_pos_bound n 2 ltac:(lia)) as Hm.
  split; [exact He|]. split; [lia|]. split; [|lia].
  unfold PaddedLength at 1. unfold wordLength.
  rewrite Z.rem_mod_nonneg, He by lia. reflexivity.
Qed.

Lemma PaddedLength_idempotent_even_witness :
  0 <= 13 < 2 ^ 62 /\
  PaddedLength 13 mod 2 = 0 /\
  13 <= PaddedLength 13 <= 13 + 1 /\
  PaddedLength (PaddedLength 13) = PaddedLength 13 /\
  (13 mod 2 = 0 -> PaddedLength 13 = 13).
Proof.
  assert (H : 0 <= 13 < 2 ^ 62) by lia.
  exact (conj H (PaddedLength_idempotent_even 13 H)).
Defined.

(** X2.  [Pad] never takes bytes away: a slice of even length comes back
    as it is, one of odd length with a single zero byte after it; the
    result has even length and begins with the slice. *)
Theorem Pad_shape (b : list byte) :
  (len b mod 2 = 0 -> Pad b = b) /\
  (len b mod 2 = 1 -> Pad b = b ++ [x00]) /\
  len (Pad b) mod 2 = 0 /\
  firstn (length b) (Pad b) = b.
Proof.
  pose proof (len_nonneg b) as Hn.
  assert (Hcases : (len b mod 2 = 0 /\ Pad b = b) \/
                   (len b mod 2 = 1 /\ Pad b = b ++ [x00])).
  { unfold Pad, wordLength.
    destruct (rem2_cases (len b) Hn) as [[-> ->]|[-> ->]]; cbn [Z.eqb negb].
    - now left.
    - right. split; reflexivity. }
  split; [|split; [|split]].
  - intros H. destruct Hcases as [[_ E]|[H' _]]; [exact E|lia].
  - intros H. destruct Hcases as [[H' _]|[_ E]]; [lia|exact E].
  - rewrite Pad_len.
    destruct Hcases as [[Hc _]|[Hc _]]; rewrite Hc.
    + now rewrite Z.add_0_r.
    + rewrite <- Z.add_mod_idemp_l, Hc by lia. reflexivity.
  - apply Pad_prefix.
Qed.

(** ** Fixed-width integers and arrays *)

Lemma byte_of_Z_to_Z (b : byte) : byte_of_Z (byte_to_Z b) = b.
Proof.
  unfold byte_of_Z, byte_to_Z. pose proof (Byte.to_N_bounded b).
  rewrite Z.mod_small by lia. rewrite N2Z.id. now rewrite Byte.of_to_N.
Qed.

Lemma byte_of_Z_mod (z : Z) : byte_of_Z (z mod 256) = byte_of_Z z.
Proof.
  unfold byte_of_Z. now rewrite Z.mod_mod by lia.
Qed.

Lemma le32_byte0 (a b c d : Z) :
  0 <= a < 256 -> 0 <= b < 256 -> 0 <= c < 256 -> 0 <= d < 256 ->
  let u := Z.lor (Z.lor (Z.lor a (Z.shiftl b 8)) (Z.shiftl c 16)) (Z.shiftl d 24) in
  u mod 256 = a /\ Z.shiftr u 8 mod 256 = b /\
  Z.shiftr u 16 mod 256 = c /\ Z.shiftr u 24 mod 256 = d.
Proof.
  intros Ha Hb Hc Hd u. subst u.
  assert (Hhi : forall x i, 0 <= x < 256 -> 8 <= i -> Z.testbit x i = false).
  { intros x i Hx Hi. destruct (Z.eq_dec x 0) as [->|Hne]; [apply Z.testbit_0_l|].
    apply Z.bits_above_log2; [lia|].
    assert (Z.log2 x < 8) by (apply Z.log2_lt_pow2; lia). lia. }
  change 256 with (2 ^ 8).
  repeat split; apply Z.bits_inj'; intros i Hi;
    (destruct (Z_lt_ge_dec i 8) as [Hlt|Hge];
     [ rewrite Z.mod_pow2_bits_low by lia;
       rewrite ?Z.shiftr_spec, !Z.lor_spec, !Z.shiftl_spec by lia;
       repeat match goal with
              | |- context [Z.testbit ?x ?j] =>
                  first [ rewrite (Z.testbit_neg_r x j) by lia
                        | rewrite (Hhi x j) by lia ]
              end;
       rewrite ?orb_false_r, ?orb_false_l; f_equal; lia
     | rewrite Z.mod_pow2_bits_high by lia; symmetry; apply Hhi; lia ]).
Qed.

(** X3.  The little-endian encodings and decodings of [uint32] and
    [uint16] are inverse to each other: decoding the bytes of a number
    gives the number, and encoding the number that four (two) bytes decode
    to gives those bytes; decoding fewer bytes panics. *)
Theorem LittleEndian_roundtrip :
  (forall u : Z, 0 <= u < 2 ^ 32 -> Uint32 (LittleEndianUInt32Bytes u) = Ret u) /\
  (forall (b : list byte) (u : Z),
     length b = 4%nat -> Uint32 b = Ret u -> LittleEndianUInt32Bytes u = b) /\
  (forall b : list byte,
     (length b < 4)%nat -> Uint32 b = Panic runtime_index_out_of_range) /\
  (forall u : Z, 0 <= u < 2 ^ 16 -> Uint16 (LittleEndianUInt16Bytes u) = Ret u) /\
  (forall (b : list byte) (u : Z),
     length b = 2%nat -> Uint16 b = Ret u -> LittleEndianUInt16Bytes u = b) /\
  (forall b : list byte,
     (length b < 2)%nat -> Uint16 b = Panic runtime_index_out_of_range).
Proof.
  split; [|split; [|split; [|split; [|split]]]].
  - intros u Hu. rewrite <- (app_nil_r (LittleEndianUInt32Bytes u)).
    now apply Uint32_PutUint32.
  - intros b u Hl.
    do 4 (destruct b as [|? b]; try discriminate). destruct b; try discriminate.
    cbn [Uint32].
    remember (Z.shiftl (byte_to_Z b1) 8) as s1.
    remember (Z.shiftl (byte_to_Z b2) 16) as s2.
    remember (Z.shiftl (byte_to_Z b3) 24) as s3.
    intros [= <-]. subst s1 s2 s3.
    destruct (le32_byte0 _ _ _ _ (byte_to_Z_range b0) (byte_to_Z_range b1)
                (byte_to_Z_range b2) (byte_to_Z_range b3)) as (E0 & E1 & E2 & E3).
    unfold LittleEndianUInt32Bytes, PutUint32.
    rewrite <- (byte_of_Z_mod (Z.lor _ _)), <- (byte_of_Z_mod (Z.shiftr _ 8)),
      <- (byte_of_Z_mod (Z.shiftr _ 16)), <- (byte_of_Z_mod (Z.shiftr _ 24)).
    rewrite E0, E1, E2, E3. now rewrite !byte_of_Z_to_Z.
  - intros b Hl. do 4 (destruct b as [|? b]; [reflexivity|]). cbn in Hl. lia.
  - intros u Hu. rewrite <- (app_nil_r (LittleEndianUInt16Bytes u)).
    now apply Uint16_PutUint16.
  - intros b u Hl.
    do 2 (destruct b as [|? b]; try discriminate). destruct b; try discriminate.
    cbn [Uint16].
    remember (Z.shiftl (byte_to_Z b1) 8) as s1.
    intros [= <-]. subst s1.
    assert (Hz : 0 <= 0 < 256) by lia.
    destruct (le32_byte0 _ _ _ _ (byte_to_Z_range b0) (byte_to_Z_range b1) Hz Hz)
      as (E0 & E1 & _ & _).
    rewrite !Z.shiftl_0_l, !Z.lor_0_r in E0, E1.
    unfold LittleEndianUInt16Bytes, PutUint16.
    rewrite <- (byte_of_Z_mod (Z.lor _ _)), <- (byte_of_Z_mod (Z.shiftr _ 8)).
    rewrite E0, E1. now rewrite !byte_of_Z_to_Z.
  - intros b Hl. do 2 (destruct b as [|? b]; [reflexivity|]). cbn in Hl. lia.
Qed.

Lemma LittleEndian_roundtrip_witness :
  Uint32 (LittleEndianUInt32Bytes 44100) = Ret 44100 /\
  LittleEndianUInt32Bytes 5 = map byte_of_Z [5; 0; 0; 0] /\
  Uint32 (map byte_of_Z [5; 0; 0]) = Panic runtime_index_out_of_range /\
  Uint16 (LittleEndianUInt16Bytes 16) = Ret 16 /\
  LittleEndianUInt16Bytes 4 = map byte_of_Z [4; 0] /\
  Uint16 (map byte_of_Z [4]) = Panic runtime_index_out_of_range.
Proof.
  destruct LittleEndian_roundtrip as (H1 & H2 & H3 & H4 & H5 & H6).
  refine (conj (H1 44100 _) (conj (H2 (map byte_of_Z [5; 0; 0; 0]) 5 _ _)
           (conj (H3 (map byte_of_Z [5; 0; 0]) _)
           (conj (H4 16 _) (conj (H5 (map byte_of_Z [4; 0]) 4 _ _)
                                 (H6 (map byte_of_Z [4]) _))))));
    try reflexivity; cbn; lia.
Defined.

(** X4.  [ReadLittleEndianUInt32] and [ReadLittleEndianUInt16] on a
    [bytes.Reader] take exactly four (two) bytes: from the encoding of a
    number followed by anything they return the number and leave what
    follows; from a reader with fewer bytes they panic with
    end-of-stream. *)
Theorem ReadLittleEndian_bytes :
  (forall (u : Z) (rest : list byte),
     0 <= u < 2 ^ 32 ->
     ReadLittleEndianUInt32 bytes.Reader_ReadByte (LittleEndianUInt32Bytes u ++ rest)
       = Ret (u, rest)) /\
  (forall s : list byte,
     (length s < 4)%nat ->
     ReadLittleEndianUInt32 bytes.Reader_ReadByte s = Panic io_EOF) /\
  (forall (u : Z) (rest : list byte),
     0 <= u < 2 ^ 16 ->
     ReadLittleEndianUInt16 bytes.Reader_ReadByte (LittleEndianUInt16Bytes u ++ rest)
       = Ret (u, rest)) /\
  (forall s : list byte,
     (length s < 2)%nat ->
     ReadLittleEndianUInt16 bytes.Reader_ReadByte s = Panic io_EOF).
Proof.
  split; [|split; [|split]].
  - intros u rest Hu. unfold ReadLittleEndianUInt32, LittleEndianUInt32Bytes.
    cbn [PutUint32 app readBytes bytes.Reader_ReadByte bind].
    pose proof (Uint32_PutUint32 u [] Hu) as H. cbn [PutUint32 app] in H.
    now rewrite H.
  - intros s Hl. do 4 (destruct s as [|? s]; [reflexivity|]). cbn in Hl. lia.
  - intros u rest Hu. unfold ReadLittleEndianUInt16, LittleEndianUInt16Bytes.
    cbn [PutUint16 app readBytes bytes.Reader_ReadByte bind].
    pose proof (Uint16_PutUint16 u [] Hu) as H. cbn [PutUint16 app] in H.
    now rewrite H.
  - intros s Hl. do 2 (destruct s as [|? s]; [reflexivity|]). cbn in Hl. lia.
Qed.

Lemma ReadLittleEndian_bytes_witness :
  ReadLittleEndianUInt32 bytes.Reader_ReadByte
    (LittleEndianUInt32Bytes 176400 ++ map byte_of_Z [4; 0]) = Ret (176400, map byte_of_Z [4; 0]) /\
  ReadLittleEndianUInt16 bytes.Reader_ReadByte (map byte_of_Z [16]) = Panic io_EOF.
Proof.
  destruct ReadLittleEndian_bytes as (H1 & _ & _ & H4).
  refine (conj (H1 176400 (map byte_of_Z [4; 0]) _) (H4 (map byte_of_Z [16]) _));
    cbn; lia.
Defined.

(** X5.  [Copy] succeeds exactly when the source fits the destination,
    and then the destination begins with the source and keeps its other
    bytes; when the source is longer, it reports a short buffer after
    filling the destination with the front of the source. *)
Theorem Copy_fits (dst src : list byte) :
  (len src <= len dst ->
   Copy dst src = (None, src ++ skipn (length src) dst)) /\
  (len dst < len src ->
   Copy dst src = (Some io_ErrShortBuffer, firstn (length dst) src)).
Proof.
  unfold Copy, len. split; intros H.
  - rewrite Z.min_r by lia. rewrite Z.ltb_irrefl.
    now rewrite fill_short by lia.
  - rewrite Z.min_l by lia.
    replace (_ <? _) with true by (symmetry; apply Z.ltb_lt; lia).
    unfold fill. rewrite skipn_all2 by lia. now rewrite app_nil_r.
Qed.

(** X6.  [Must4Byte] returns exactly for slices of four bytes, and then
    the array holds those bytes; with the methods [String] it gives back
    every identifier: [StringMust4Byte(cc.String())] is [cc]. *)
Theorem Must4Byte_roundtrip :
  (forall a : fourBytes, Must4Byte (slice4 a) = Ret a) /\
  (forall (b : list byte) (a : fourBytes), Must4Byte b = Ret a -> slice4 a = b) /\
  (forall b : list byte,
     length b <> 4%nat -> exists v : error, Must4Byte b = Panic v) /\
  (forall cc : FourCC, StringMust4Byte (FourCC_String cc) = Ret cc).
Proof.
  split; [|split; [|split]].
  - intros [[[? ?] ?] ?]. reflexivity.
  - intros b a. unfold Must4Byte, len.
    destruct (Z.of_nat (length b) =? 4) eqn:E; cbn [negb]; try discriminate.
    apply Z.eqb_eq in E. intros [= <-].
    do 4 (destruct b as [|? b]; [cbn in E; lia|]).
    destruct b; [reflexivity|cbn in E; lia].
  - intros b Hl. unfold Must4Byte, len.
    replace (Z.of_nat (length b) =? 4) with false
      by (symmetry; apply Z.eqb_neq; lia).
    eexists. reflexivity.
  - intros cc. unfold StringMust4Byte, FourCC_String.
    rewrite list_byte_of_string_of_list_byte. now destruct cc as [[[? ?] ?] ?].
Qed.

Lemma Must4Byte_roundtrip_witness :
  slice4 FourCCData = list_byte_of_string "data" /\
  (exists v : error, Must4Byte (list_byte_of_string "RIF") = Panic v).
Proof.
  destruct Must4Byte_roundtrip as (_ & H2 & H3 & _).
  refine (conj (H2 (list_byte_of_string "data") FourCCData _)
               (H3 (list_byte_of_string "RIF") _)).
  - reflexivity.
  - cbn. lia.
Defined.

Lemma Pad_shape_witness :
  Pad (map byte_of_Z [1; 2; 3]) = map byte_of_Z [1; 2; 3] ++ [x00] /\
  Pad (map byte_of_Z [1; 2]) = map byte_of_Z [1; 2].
Proof.
  split.
  - apply (proj1 (proj2 (Pad_shape (map byte_of_Z [1; 2; 3])))). reflexivity.
  - apply (proj1 (Pad_shape (map byte_of_Z [1; 2]))). reflexivity.
Defined.

Lemma Copy_fits_witness :
  Copy (make 4) (map byte_of_Z [7; 8]) = (None, map byte_of_Z [7; 8; 0; 0]) /\
  Copy (make 1) (map byte_of_Z [7; 8])
    = (Some io_ErrShortBuffer, map byte_of_Z [7]).
Proof.
  split.
  - apply (proj1 (Copy_fits (make 4) (map byte_of_Z [7; 8]))).
    vm_compute. discriminate.
  - apply (proj2 (Copy_fits (make 1) (map byte_of_Z [7; 8]))).
    vm_compute. reflexivity.
Defined.

(** ** Reading and writing several slices *)

Section WriteTotals.
Variable W : Type.
Variable tWrite : W -> list byte -> outcome ((Z * option error) * W).
Hypothesis tWrite_count :
  forall (t t' : W) (b : list byte) (n : Z) (e : option error),
    tWrite t b = Ret ((n, e), t') -> 0 <= n <= len b.

Lemma Write_from_total (content : list (list byte)) :
  forall (total0 total : Z) (t t' : W) (err : option error),
    0 <= total0 -> total0 + len (concat content) < 2 ^ 63 ->
    internal.Write_from tWrite total0 t content = Ret ((total, err), t') ->
    total0 <= total <= total0 + len (concat content) /\
    (err = None -> total = total0 + len (concat content)).
Proof.
  induction content as [|slice rest IH]; intros total0 total t t' err H0 Hlt;
    cbn [internal.Write_from concat].
  - intros [= <- <- _]. cbn. split; [lia|]. intros _. unfold len. cbn. lia.
  - cbn [concat] in Hlt. rewrite len_app in Hlt. pose proof (len_nonneg slice).
    pose proof (len_nonneg (concat rest)).
    destruct (tWrite t slice) as [[[n e] t1]|v] eqn:E; cbn [bind]; try discriminate.
    apply tWrite_count in E. rewrite int64_small by lia. rewrite len_app.
    destruct e as [e|].
    + intros [= <- <- _]. split; [lia|discriminate].
    + destruct (n <? len slice) eqn:Elt.
      * intros [= <- <- _]. split; [lia|discriminate].
      * apply Z.ltb_ge in Elt. intros Hr.
        apply IH in Hr; [|lia|lia]. destruct Hr as [Hb He]. split; [lia|].
        intros Hn. specialize (He Hn). lia.
Qed.

End WriteTotals.

(** X7.  On a transport whose [Write] reports between zero and the
    number of bytes it was given, the total that [internal.Write] returns
    is never above the bytes it was asked to write, and when it returns no
    error it is exactly their number: every slice was written whole. *)
Theorem Write_total
    (W : Type) (tWrite : W -> list byte -> outcome ((Z * option error) * W))
    (content : list (list byte)) (t t' : W) (total : Z) (err : option error) :
  (forall (t t' : W) (b : list byte) (n : Z) (e : option error),
     tWrite t b = Ret ((n, e), t') -> 0 <= n <= len b) ->
  len (concat content) < 2 ^ 63 ->
  internal.Write tWrite t content = Ret ((total, err), t') ->
  0 <= total <= len (concat content) /\
  (err = None -> total = len (concat content)).
Proof.
  intros Hc Hlt Hr. unfold internal.Write in Hr.
  apply (Write_from_total W tWrite Hc) in Hr; [|lia|lia].
  destruct Hr as [Hb He]. split; [lia|].
  intros Hn. specialize (He Hn). lia.
Qed.

Lemma Write_total_witness :
  internal.Write bytes.Buffer_Write []
    [slice4 FourCCRIFF; slice4 EmptyBytes; slice4 examples.FileType]
    = Ret ((12, None),
           slice4 FourCCRIFF ++ slice4 EmptyBytes ++ slice4 examples.FileType) /\
  0 <= 12 <= len (concat [slice4 FourCCRIFF; slice4 EmptyBytes;
                          slice4 examples.FileType]) /\
  (@None error = None ->
   12 = len (concat [slice4 FourCCRIFF; slice4 EmptyBytes;
                     slice4 examples.FileType])).
Proof.
  assert (Hc : forall (t t' : list byte) (b : list byte) (n : Z) (e : option error),
             bytes.Buffer_Write t b = Ret ((n, e), t') -> 0 <= n <= len b).
  { intros t t' b n e [= <- _ _]. pose proof (len_nonneg b). lia. }
  assert (Hr : internal.Write bytes.Buffer_Write []
                 [slice4 FourCCRIFF; slice4 EmptyBytes; slice4 examples.FileType]
               = Ret ((12, None),
                      slice4 FourCCRIFF ++ slice4 EmptyBytes
                      ++ slice4 examples.FileType)) by reflexivity.
  split; [exact Hr|].
  refine (Write_total (list byte) bytes.Buffer_Write _ _ _ _ _ Hc _ Hr).
  cbn. lia.
Defined.

Lemma Read_from_bytes_full (content : list (list byte)) :
  forall (total0 : Z) (s : list byte),
    Forall (fun b : list byte => b <> []) content ->
    (length (concat content) <= length s)%nat ->
    0 <= total0 -> total0 + len (concat content) < 2 ^ 63 ->
    exists bufs : list (list byte),
      internal.Read_from bytes.Reader_Read total0 s content
        = Ret ((total0 + len (concat content), None), bufs,
               skipn (length (concat content)) s) /\
      concat bufs = firstn (length (concat content)) s /\
      map (@length byte) bufs = map (@length byte) content.
Proof.
  induction content as [|slice rest IH]; intros total0 s Hne Hlen H0 Hlt;
    cbn [internal.Read_from concat] in *.
  - exists []. unfold len. cbn. now rewrite Z.add_0_r.
  - inversion Hne as [|? ? Hs Hrest]; subst.
    rewrite length_app in Hlen. rewrite len_app in Hlt.
    pose proof (len_nonneg slice). pose proof (len_nonneg (concat rest)).
    assert (Hpos : (0 < length slice)%nat) by (destruct slice; [easy|cbn; lia]).
    unfold bytes.Reader_Read at 1.
    destruct s as [|x s'] eqn:Es; [cbn in Hlen; lia|]. rewrite <- Es in *.
    cbn [bind].
    assert (Hgot : length (firstn (length slice) s) = length slice)
      by (rewrite length_firstn; lia).
    assert (Hgl : len (firstn (length slice) s) = len slice)
      by (unfold len; now rewrite Hgot).
    rewrite !Hgl. rewrite Z.ltb_irrefl, int64_small by lia.
    destruct (IH (total0 + len slice) (skipn (length slice) s) Hrest
                ltac:(rewrite length_skipn; lia) ltac:(lia) ltac:(lia))
      as (bufs & Hr & Hcat & Hmap).
    rewrite Hr. cbn [bind].
    exists (fill slice (firstn (length slice) s) :: bufs).
    rewrite fill_exact by assumption. rewrite skipn_skipn, len_app, length_app.
    split; [|split].
    + replace (total0 + len slice + len (concat rest))
        with (total0 + (len slice + len (concat rest))) by lia.
      replace (length (concat rest) + length slice)%nat
        with (length slice + length (concat rest))%nat by lia.
      reflexivity.
    + cbn [concat]. rewrite Hcat.
      rewrite <- (firstn_skipn (length slice) s) at 3.
      rewrite firstn_app, Hgot.
      replace (length slice + length (concat rest) - length slice)%nat
        with (length (concat rest)) by lia.
      rewrite (firstn_all2 (n := length slice + length (concat rest)))
        by (rewrite Hgot; lia).
      reflexivity.
    + cbn [map]. now rewrite Hgot, Hmap.
Qed.

Lemma Read_from_bytes_short (content : list (list byte)) :
  forall (total0 : Z) (s : list byte),
    Forall (fun b : list byte => b <> []) content ->
    (length s < length (concat content))%nat ->
    exists (total : Z) (e : error) (bufs : list (list byte)) (s' : list byte),
      internal.Read_from bytes.Reader_Read total0 s content
        = Ret ((total, Some e), bufs, s') /\
      (e = io_EOF \/ e = ErrBufferUnderflow).
Proof.
  induction content as [|slice rest IH]; intros total0 s Hne Hlen;
    cbn [internal.Read_from concat] in *.
  - cbn in Hlen. lia.
  - inversion Hne as [|? ? Hs Hrest]; subst. rewrite length_app in Hlen.
    unfold bytes.Reader_Read at 1.
    destruct s as [|x s'] eqn:Es.
    + cbn [bind]. do 4 eexists. split; [reflexivity|now left].
    + rewrite <- Es in *. cbn [bind].
      destruct (len (firstn (length slice) s) <? len slice) eqn:Elt.
      * do 4 eexists. split; [reflexivity|now right].
      * apply Z.ltb_ge in Elt. unfold len in Elt. rewrite length_firstn in Elt.
        destruct (IH (int64 (total0 + len (firstn (length slice) s)))
                    (skipn (length slice) s) Hrest
                    ltac:(rewrite length_skipn; lia))
          as (total & e & bufs & s2 & Hr & He).
        rewrite Hr. cbn [bind]. do 4 eexists. split; [reflexivity|exact He].
Qed.

(** X8.  [internal.Read] over a [bytes.Reader], into buffers none of
    which is empty: when the stream holds as many bytes as the buffers
    take, every buffer is filled, with consecutive bytes of the stream, the
    total is their number and the stream is left after them; when it holds
    fewer, the read fails with end-of-stream or with an underflow, never
    with success. *)
Theorem Read_bytes_stream (content : list (list byte)) (s : list byte) :
  Forall (fun b : list byte => b <> []) content ->
  len (concat content) < 2 ^ 63 ->
  ((length (concat content) <= length s)%nat ->
   exists bufs : list (list byte),
     internal.Read bytes.Reader_Read s content
       = Ret ((len (concat content), None), bufs,
              skipn (length (concat content)) s) /\
     concat bufs = firstn (length (concat content)) s /\
     map (@length byte) bufs = map (@length byte) content) /\
  ((length s < length (concat content))%nat ->
   exists (total : Z) (e : error) (bufs : list (list byte)) (s' : list byte),
     internal.Read bytes.Reader_Read s content = Ret ((total, Some e), bufs, s') /\
     (e = io_EOF \/ e = ErrBufferUnderflow)).
Proof.
  intros Hne Hlt. split; intros Hlen.
  - assert (H0 : 0 <= 0) by lia.
    assert (H1 : 0 + len (concat content) < 2 ^ 63) by lia.
    destruct (Read_from_bytes_full content 0 s Hne Hlen H0 H1)
      as (bufs & Hr & H). exists bufs. now rewrite Z.add_0_l in Hr.
  - now apply Read_from_bytes_short.
Qed.

Lemma Read_bytes_stream_witness :
  exists bufs : list (list byte),
    internal.Read bytes.Reader_Read examples.RIFFReader [make 4; make 4; make 4]
      = Ret ((len (concat [make 4; make 4; make 4]), None), bufs,
             skipn (length (concat [make 4; make 4; make 4])) examples.RIFFReader) /\
    concat bufs = firstn (length (concat [make 4; make 4; make 4])) examples.RIFFReader /\
    map (@length byte) bufs = map (@length byte) [make 4; make 4; make 4].
Proof.
  assert (Hne : Forall (fun b : list byte => b <> []) [make 4; make 4; make 4])
    by (repeat constructor; discriminate).
  assert (Hlt : len (concat [make 4; make 4; make 4]) < 2 ^ 63)
    by (vm_compute; reflexivity).
  apply (proj1 (Read_bytes_stream [make 4; make 4; make 4] examples.RIFFReader Hne Hlt)).
  vm_compute. repeat constructor.
Defined.

(** ** The buffer of the tests *)

(** X9.  [WriteAt] of [test.Buffer] at an offset inside the buffer or at
    its end overwrites the bytes that are there and appends the ones that
    do not fit: what is before the offset and what is after the written
    bytes stays, and the count is the whole slice with no error.  An offset
    beyond the end, or a negative one, panics. *)
Theorem Buffer_WriteAt_shape (buf b : list byte) (offset : Z) :
  (0 <= offset <= len buf ->
   test.Buffer_WriteAt buf b offset
     = Ret ((len b, None),
            firstn (Z.to_nat offset) buf ++ b
            ++ skipn (Z.to_nat offset + length b) buf)) /\
  (offset < 0 \/ len buf < offset ->
   exists v : error, test.Buffer_WriteAt buf b offset = Panic v).
Proof.
  unfold test.Buffer_WriteAt. split.
  - intros [H0 Hle].
    replace (offset >? len buf) with false
      by (symmetry; rewrite Z.gtb_ltb; apply Z.ltb_ge; lia).
    replace (offset <? 0) with false by (symmetry; apply Z.ltb_ge; lia).
    cbv iota.
    set (o := Z.to_nat offset).
    assert (Ho : (o <= length buf)%nat) by (unfold len in Hle; lia).
    assert (Hback : length (skipn o buf) = (length buf - o)%nat)
      by apply length_skipn.
    destruct (Nat.le_gt_cases (length b) (length (skipn o buf))) as [Hfit|Hover].
    + rewrite Z.min_r by (unfold len; lia). rewrite Z.ltb_irrefl.
      rewrite fill_short by assumption. now rewrite skipn_skipn, Nat.add_comm.
    + rewrite Z.min_l by (unfold len; lia).
      replace (len (skipn o buf) <? len b) with true
        by (symmetry; apply Z.ltb_lt; unfold len; lia).
      unfold fill. rewrite (skipn_all2 (n := length b)) by lia.
      rewrite (skipn_all2 (n := (o + length b)%nat)) by lia.
      unfold len. rewrite Nat2Z.id, !app_nil_r, <- app_assoc.
      now rewrite firstn_skipn.
  - intros [Hneg|Hbig].
    + destruct (offset >? len buf); [eexists; reflexivity|].
      replace (offset <? 0) with true by (symmetry; apply Z.ltb_lt; lia).
      eexists; reflexivity.
    + replace (offset >? len buf) with true
        by (symmetry; apply Z.gtb_lt; lia).
      eexists; reflexivity.
Qed.

Lemma Buffer_WriteAt_shape_witness :
  test.Buffer_WriteAt (map byte_of_Z [1; 2; 3; 4; 5]) (map byte_of_Z [9; 9; 9]) 3
    = Ret ((3, None), map byte_of_Z [1; 2; 3; 9; 9; 9]) /\
  (exists v : error,
     test.Buffer_WriteAt (map byte_of_Z [1; 2]) (map byte_of_Z [9]) 3 = Panic v).
Proof.
  split.
  - apply (proj1 (Buffer_WriteAt_shape (map byte_of_Z [1; 2; 3; 4; 5])
                    (map byte_of_Z [9; 9; 9]) 3)).
    vm_compute. split; discriminate.
  - apply (proj2 (Buffer_WriteAt_shape (map byte_of_Z [1; 2]) (map byte_of_Z [9]) 3)).
    right. vm_compute. reflexivity.
Defined.

(** ** More on the reader *)

Lemma wrap_kinds (e : error) :
  errors_Is (wrap e) io_EOF = false /\
  errors_Is (wrap e) ErrBufferUnderflow = false /\
  (wrap e = e \/ wrap e = errCorruptedTooShort).
Proof.
  unfold wrap.
  destruct (errors_Is e ErrBufferUnderflow) eqn:E1;
    destruct (errors_Is e io_EOF) eqn:E2; cbn [orb];
    repeat split; auto.
Qed.

Section ReaderMore.
Variable T : Type.
Variable tRead : T -> nat -> outcome ((list byte * option error) * T).

Lemma Read_from_returns (content : list (list byte)) :
  (forall (t : T) (k : nat), exists res, tRead t k = Ret res) ->
  forall (total : Z) (t : T),
    exists res, internal.Read_from tRead total t content = Ret res.
Proof.
  intros Hret. induction content as [|slice rest IH]; intros total t;
    cbn [internal.Read_from].
  - eexists; reflexivity.
  - destruct (Hret t (length slice)) as [[[got err] t1] ->]. cbn [bind].
    destruct err as [e|]; [eexists; reflexivity|].
    destruct (_ <? _); [eexists; reflexivity|].
    destruct (IH (int64 (total + len got)) t1) as [[[res bufs] t2] ->].
    cbn [bind]. eexists; reflexivity.
Qed.

(** Every [read] that returns leaves the file type and the declared size
    alone and adds its count to the bytes consumed. *)
Lemma read_state (r r' : Reader) (t t' : T) (b b' : list byte) (n : Z)
    (err : option error) :
  read tRead r t b = Ret ((n, err), b', r', t') ->
  r' = mkReader (fileType r) (size r) (int64 (bytesRead r + n)) /\
  exists (got : list byte) (terr : option error),
    tRead t (length b) = Ret ((got, terr), t') /\ n = len got.
Proof.
  unfold read.
  destruct (tRead t (length b)) as [[[got [e|]] t1]|v]; cbn [bind];
    try discriminate.
  - intros [= <- <- <- <- <-]. split; [reflexivity|]. now exists got, (Some e).
  - cbn [bytesRead size]. destruct (_ >? _);
      intros [= <- <- <- <- <-]; (split; [reflexivity|]); now exists got, None.
Qed.

(** The two ways [ReadChunk] returns: from the header read, or from the
    payload read after a complete header. *)
Lemma ReadChunk_cases (r r' : Reader) (t t' : T) (c c' : Chunk) (n : Z)
    (err : option error) :
  ReadChunk tRead r t c = Ret ((n, err), c', r', t') ->
  (exists (hb : list byte) (herr : option error),
     read tRead r t (make 8) = Ret ((n, herr), hb, r', t') /\ c' = c /\
     err <> None) \/
  (exists (hb db : list byte) (r1 : Reader) (t1 : T) (hN dN sz : Z)
          (derr : option error),
     read tRead r t (make 8) = Ret ((hN, None), hb, r1, t1) /\
     8 <= hN /\ Uint32 (skipn 4 hb) = Ret sz /\ 0 <= sz < 2 ^ 32 /\
     read tRead r1 t1 (Pad (make sz)) = Ret ((dN, derr), db, r', t') /\
     n = int64 (hN + dN) /\
     c' = mkChunk (array4 hb) (firstn (Z.to_nat sz) db) /\
     err = match derr with
           | Some e => Some e
           | None => if dN <? len db then Some errCorruptedTooShort else None
           end).
Proof.
  intros H. pose proof H as H'. unfold ReadChunk in H'.
  change (make LengthChunkHeader) with (make 8) in H'.
  destruct (read tRead r t (make 8)) as [[[[[hN herr] hb] r1] t1]|v] eqn:Eh;
    cbn [bind] in H'; try discriminate.
  destruct herr as [e|].
  - injection H' as <- <- <- <- <-. left. exists hb, (Some e).
    split; [reflexivity|]. split; [reflexivity|discriminate].
  - destruct (hN <? len hb) eqn:Elt.
    + injection H' as <- <- <- <- <-. left. exists hb, None.
      split; [reflexivity|]. split; [reflexivity|discriminate].
    + clear H'. right.
      assert (Hhb : length hb = 8%nat).
      { pose proof Eh as E2. unfold read in E2. revert E2.
        destruct (tRead t (length (make 8))) as [[[g [e|]] t2]|v]; cbn [bind];
          try discriminate.
        cbn [bytesRead size]. destruct (_ >? _); intros [= _ <- _ _];
          now rewrite fill_length, make_length. }
      apply Z.ltb_ge in Elt. unfold len in Elt. rewrite Hhb in Elt.
      assert (Hsk : exists sz, Uint32 (skipn 4 hb) = Ret sz /\ 0 <= sz < 2 ^ 32).
      { destruct hb as [|x0 [|x1 [|x2 [|x3 [|x4 [|x5 [|x6 [|x7 hb]]]]]]]];
          try discriminate.
        eexists. split; [reflexivity|].
        apply (Uint32_range [x4; x5; x6; x7]). reflexivity. }
      destruct Hsk as (sz & Hsz & Hrange).
      destruct (read tRead r1 t1 (Pad (make sz)))
        as [[[[[dN derr] db] r2] t2]|v] eqn:Ed.
      * pose proof (ReadChunk_payload T tRead _ _ _ _ _ _ c _ _ _ _ _ _
                      Eh ltac:(lia) Hsz Ed) as Hrun.
        rewrite Hrun in H. injection H as <- <- <- <- <-.
        exists hb, db, r1, t1, hN, dN, sz, derr. repeat split; try assumption; lia.
      * exfalso. unfold ReadChunk in H.
        change (make LengthChunkHeader) with (make 8) in H.
        rewrite Eh in H. cbn [bind] in H.
        replace (hN <? len hb) with false in H
          by (symmetry; apply Z.ltb_ge; unfold len; lia).
        rewrite Hsz in H. cbn [bind] in H. rewrite Ed in H. discriminate H.
Qed.

Lemma ReadChunk_keeps_header (r r' : Reader) (t t' : T) (c c' : Chunk) (n : Z)
    (err : option error) :
  ReadChunk tRead r t c = Ret ((n, err), c', r', t') ->
  fileType r' = fileType r /\ size r' = size r.
Proof.
  intros H. apply ReadChunk_cases in H
    as [(hb & herr & Hh & _)|(hb & db & r1 & t1 & hN & dN & sz & derr & Hh & _ & _ & _ & Hd & _)].
  - apply read_state in Hh as (-> & _). now cbn.
  - apply read_state in Hh as (-> & _). apply read_state in Hd as (-> & _).
    now cbn.
Qed.

End ReaderMore.

(** X10.  Whatever [New] fails with, it is not end-of-stream and not an
    underflow: it is an error that is [ErrCorrupted], or it is the error
    that the read of the header returned, as it was. *)
Theorem New_error_kinds
    (T : Type) (tRead : T -> nat -> outcome ((list byte * option error) * T))
    (t t' : T) (e : error) :
  New tRead t = Ret (inr e, t') ->
  errors_Is e io_EOF = false /\
  errors_Is e ErrBufferUnderflow = false /\
  (errors_Is e ErrCorrupted = true \/
   exists (total : Z) (bufs : list (list byte)),
     internal.Read tRead t [slice4 EmptyBytes; slice4 EmptyBytes; slice4 EmptyBytes]
       = Ret ((total, Some e), bufs, t')).
Proof.
  unfold New.
  destruct (internal.Read _ _ _) as [[[[total err] bufs] t1]|v] eqn:E;
    cbn [bind snd]; try discriminate.
  destruct err as [e0|].
  - intros [= <- <-]. destruct (wrap_kinds e0) as (H1 & H2 & [H3|H3]).
    + repeat split; try assumption. right. rewrite H3. now exists total, bufs.
    + repeat split; try assumption. left. now rewrite H3.
  - destruct (negb _); [intros [= <- <-]; repeat split; now left|].
    destruct (Uint32 _) as [sz|v]; cbn [bind]; try discriminate.
    destruct (_ <? _); [intros [= <- <-]; repeat split; now left|discriminate].
Qed.

Lemma New_error_kinds_witness :
  New bytes.Reader_Read (list_byte_of_string "RIFX")
    = Ret (inr errCorruptedTooShort, []) /\
  errors_Is errCorruptedTooShort io_EOF = false /\
  errors_Is errCorruptedTooShort ErrBufferUnderflow = false /\
  (errors_Is errCorruptedTooShort ErrCorrupted = true \/
   exists (total : Z) (bufs : list (list byte)),
     internal.Read bytes.Reader_Read (list_byte_of_string "RIFX")
       [slice4 EmptyBytes; slice4 EmptyBytes; slice4 EmptyBytes]
       = Ret ((total, Some errCorruptedTooShort), bufs, [])).
Proof.
  assert (H : New bytes.Reader_Read (list_byte_of_string "RIFX")
              = Ret (inr errCorruptedTooShort, [])) by reflexivity.
  exact (conj H (New_error_kinds (list byte) bytes.Reader_Read _ _ _ H)).
Defined.

Lemma ReadChunk_returns
    (T : Type) (tRead : T -> nat -> outcome ((list byte * option error) * T)) :
  (forall (t : T) (k : nat), exists res, tRead t k = Ret res) ->
  forall (r : Reader) (t : T) (c : Chunk),
    exists res, ReadChunk tRead r t c = Ret res.
Proof.
  intros Hret.
  assert (Hread : forall r t b, exists res, read tRead r t b = Ret res).
  { intros r t b. unfold read.
    destruct (Hret t (length b)) as [[[got err] t1] ->]. cbn [bind].
    destruct err; [eexists; reflexivity|].
    destruct (_ >? _); eexists; reflexivity. }
  intros r t c. unfold ReadChunk.
    destruct (Hread r t (make LengthChunkHeader)) as [[[[[hN herr] hb] r1] t1] E].
    rewrite E. cbn [bind].
    destruct herr; [eexists; reflexivity|].
    destruct (_ <? _); [eexists; reflexivity|].
    assert (Hhb : length hb = 8%nat).
    { unfold read in E. revert E.
      destruct (tRead t _) as [[[g [e|]] t2]|v]; cbn [bind]; try discriminate.
      cbn [bytesRead size]. destruct (_ >? _); intros [= _ <- _ _];
        now rewrite fill_length, make_length. }
    destruct hb as [|x0 [|x1 [|x2 [|x3 [|x4 [|x5 [|x6 [|x7 hb]]]]]]]];
      try discriminate.
    destruct hb; try discriminate.
    cbn [skipn Uint32 bind firstn].
    destruct (Hread r1 t1 (Pad (make (Z.lor (Z.lor (Z.lor (byte_to_Z x4)
                (Z.shiftl (byte_to_Z x5) 8)) (Z.shiftl (byte_to_Z x6) 16))
                (Z.shiftl (byte_to_Z x7) 24)))))
      as [[[[[dN derr] db] r2] t2] E2].
    rewrite E2. cbn [bind]. change (Must4Byte [x0; x1; x2; x3])
      with (Ret (A := fourBytes) (x0, x1, x2, x3)). cbn [bind].
    destruct derr; [eexists; reflexivity|].
    destruct (_ <? _); eexists; reflexivity.
Qed.

(** X11.  The reader never panics by itself: on a transport whose [Read]
    always returns, [New] and [ReadChunk] always return, and [ReadToEnd],
    when its rounds suffice, returns too. *)
Theorem reader_never_panics
    (T : Type) (tRead : T -> nat -> outcome ((list byte * option error) * T)) :
  (forall (t : T) (k : nat), exists res, tRead t k = Ret res) ->
  (forall t : T, exists res, New tRead t = Ret res) /\
  (forall (r : Reader) (t : T) (c : Chunk),
     exists res, ReadChunk tRead r t c = Ret res) /\
  (forall (fuel : nat) (r : Reader) (t : T) (v : error),
     ReadToEnd tRead fuel r t <> Some (Panic v)).
Proof.
  intros Hret.
  pose proof (ReadChunk_returns T tRead Hret) as Hchunk.
  split; [|split].
  - intros t. unfold New, internal.Read.
    destruct (Read_from_returns T tRead
                [slice4 EmptyBytes; slice4 EmptyBytes; slice4 EmptyBytes] Hret 0 t)
      as [[[res bufs] t1] E].
    rewrite E. cbn [bind]. apply Read_from_lengths in E.
    destruct bufs as [|p [|s [|f [|? ?]]]]; try discriminate.
    injection E as _ Hs _. cbn [nth].
    destruct (snd res); [eexists; reflexivity|].
    destruct (negb _); [eexists; reflexivity|].
    destruct s as [|y0 [|y1 [|y2 [|y3 s]]]]; try discriminate.
    cbn [Uint32 bind size]. destruct (_ <? _); eexists; reflexivity.
  - exact Hchunk.
  - intros fuel r t v. unfold ReadToEnd. generalize (@nil Chunk) as acc.
    revert r t. induction fuel as [|fuel IH]; intros r t acc;
      cbn [ReadToEnd_loop]; [discriminate|].
    destruct (Hchunk r t zeroChunk) as [[[[[n err] ch] r1] t1] ->].
    destruct err as [e|]; [destruct (errors_Is e io_EOF); discriminate|].
    apply IH.
Qed.

Lemma reader_never_panics_witness :
  (forall t : list byte, exists res, New bytes.Reader_Read t = Ret res) /\
  (forall (r : Reader) (t : list byte) (c : Chunk),
     exists res, ReadChunk bytes.Reader_Read r t c = Ret res) /\
  (forall (fuel : nat) (r : Reader) (t : list byte) (v : error),
     ReadToEnd bytes.Reader_Read fuel r t <> Some (Panic v)).
Proof.
  apply (reader_never_panics (list byte) bytes.Reader_Read).
  intros t k. unfold bytes.Reader_Read. destruct t; eexists; reflexivity.
Defined.

(** X12.  On a transport that never gives more bytes than it was asked
    for, every return of [ReadChunk], with an error or without, leaves the
    file type and the declared size as they were and has advanced the
    count of consumed bytes by exactly the count it returns. *)
Theorem ReadChunk_accounting
    (T : Type) (tRead : T -> nat -> outcome ((list byte * option error) * T))
    (r r' : Reader) (t t' : T) (c c' : Chunk) (n : Z) (err : option error) :
  (forall (t t' : T) (k : nat) (got : list byte) (e : option error),
     tRead t k = Ret ((got, e), t') -> (length got <= k)%nat) ->
  0 <= bytesRead r < 2 ^ 62 ->
  ReadChunk tRead r t c = Ret ((n, err), c', r', t') ->
  fileType r' = fileType r /\ size r' = size r /\
  0 <= n /\ bytesRead r' = bytesRead r + n.
Proof.
  intros Hc Hb H.
  pose proof (ReadChunk_keeps_header T tRead _ _ _ _ _ _ _ _ H) as [Hft Hsz].
  split; [exact Hft|]. split; [exact Hsz|].
  apply ReadChunk_cases in H
    as [(hb & herr & Hh & _)
       |(hb & db & r1 & t1 & hN & dN & sz & derr & Hh & _ & _ & Hr & Hd & -> & _)].
  - apply read_state in Hh as (-> & got & terr & Hg & ->).
    apply Hc in Hg. rewrite make_length in Hg. cbn [bytesRead]. unfold len.
    rewrite int64_small by lia. lia.
  - apply read_state in Hh as (-> & got & terr & Hg & ->).
    apply read_state in Hd as (-> & got2 & terr2 & Hg2 & ->).
    apply Hc in Hg, Hg2. rewrite make_length in Hg.
    rewrite Pad_make_length in Hg2 by lia.
    rewrite PaddedLength_small in Hg2 by lia.
    pose proof (Z.mod_pos_bound sz 2 ltac:(lia)) as Hm.
    cbn [bytesRead]. unfold len.
    assert (H1 : 0 <= Z.of_nat (length got) <= 8) by lia.
    assert (H2 : 0 <= Z.of_nat (length got2) <= 2 ^ 32 + 1) by lia.
    rewrite (int64_small (bytesRead r + Z.of_nat (length got))) by lia.
    rewrite (int64_small (Z.of_nat (length got) + Z.of_nat (length got2))) by lia.
    rewrite int64_small by lia. lia.
Qed.

Lemma ReadChunk_accounting_witness :
  let r := mkReader examples.FileType 32 4 in
  let hdr := map byte_of_Z [42; 42; 42; 42; 42; 0; 0; 0] in
  let r' := mkReader examples.FileType 32 12 in
  ReadChunk bytes.Reader_Read r hdr zeroChunk
    = Ret ((8, Some io_EOF), mkChunk (array4 hdr) (make 42), r', []) /\
  fileType r' = fileType r /\ size r' = size r /\
  0 <= 8 /\ bytesRead r' = bytesRead r + 8.
Proof.
  cbv zeta.
  assert (Hc : forall (t t' : list byte) (k : nat) (got : list byte) (e : option error),
             bytes.Reader_Read t k = Ret ((got, e), t') -> (length got <= k)%nat).
  { intros t t' k got e. unfold bytes.Reader_Read. destruct t.
    - intros [= <- _ _]. cbn. lia.
    - intros [= <- _ _]. rewrite length_firstn. lia. }
  assert (Hb : 0 <= bytesRead (mkReader examples.FileType 32 4) < 2 ^ 62)
    by (cbn; lia).
  assert (H : ReadChunk bytes.Reader_Read (mkReader examples.FileType 32 4)
                (map byte_of_Z [42; 42; 42; 42; 42; 0; 0; 0]) zeroChunk
              = Ret ((8, Some io_EOF),
                     mkChunk (array4 (map byte_of_Z [42; 42; 42; 42; 42; 0; 0; 0]))
                       (make 42),
                     mkReader examples.FileType 32 12, [])) by reflexivity.
  exact (conj H (ReadChunk_accounting (list byte) bytes.Reader_Read
                   _ _ _ _ _ _ _ _ Hc Hb H)).
Defined.

Section ReadToEndProperties.
Variable T : Type.
Variable tRead : T -> nat -> outcome ((list byte * option error) * T).

Lemma ReadToEnd_loop_result (fuel : nat) :
  forall (r r' : Reader) (t t' : T) (acc chunks : list Chunk) (err : option error),
    ReadToEnd_loop tRead fuel r t acc = Some (Ret ((chunks, err), r', t')) ->
    fileType r' = fileType r /\ size r' = size r /\
    (exists more : list Chunk, chunks = acc ++ more) /\
    (forall e : error, err = Some e -> errors_Is e io_EOF = false).
Proof.
  induction fuel as [|fuel IH]; intros r r' t t' acc chunks err;
    cbn [ReadToEnd_loop]; [discriminate|].
  destruct (ReadChunk tRead r t zeroChunk) as [[[[[n cerr] ch] r1] t1]|v] eqn:E;
    [|discriminate].
  apply ReadChunk_keeps_header in E as [Hft Hsz].
  destruct cerr as [e|].
  - destruct (errors_Is e io_EOF) eqn:Eof; intros [= <- <- <- <-].
    + split; [exact Hft|]. split; [exact Hsz|].
      split; [exists []; now rewrite app_nil_r|]. discriminate.
    + split; [exact Hft|]. split; [exact Hsz|].
      split; [exists []; now rewrite app_nil_r|]. now intros e0 [= <-].
  - intros H. apply IH in H as (H1 & H2 & (more & ->) & H4).
    split; [congruence|]. split; [congruence|].
    split; [exists (ch :: more); now rewrite <- app_assoc|]. exact H4.
Qed.

Lemma ReadToEnd_loop_acc (fuel : nat) :
  forall (r r' : Reader) (t t' : T) (acc chunks : list Chunk) (err : option error),
    ReadToEnd_loop tRead fuel r t acc = Some (Ret ((acc ++ chunks, err), r', t')) ->
    forall acc' : list Chunk,
      ReadToEnd_loop tRead fuel r t acc'
        = Some (Ret ((acc' ++ chunks, err), r', t')).
Proof.
  induction fuel as [|fuel IH]; intros r r' t t' acc chunks err;
    cbn [ReadToEnd_loop]; [discriminate|].
  destruct (ReadChunk tRead r t zeroChunk) as [[[[[n cerr] ch] r1] t1]|v];
    [|discriminate].
  destruct cerr as [e|].
  - destruct (errors_Is e io_EOF); intros [= Ha <- <- <-] acc';
      rewrite <- (app_nil_r acc) in Ha at 1;
      apply app_inv_head in Ha; subst chunks; now rewrite app_nil_r.
  - intros H acc'.
    pose proof (ReadToEnd_loop_result _ _ _ _ _ _ _ _ H) as (_ & _ & (more & Hm) & _).
    rewrite <- app_assoc in Hm. apply app_inv_head in Hm. subst chunks.
    cbn [app] in H.
    replace (acc ++ ch :: more) with ((acc ++ [ch]) ++ more) in H
      by (now rewrite <- app_assoc).
    rewrite (IH _ _ _ _ (acc ++ [ch]) more _ H (acc' ++ [ch])).
    now rewrite <- app_assoc.
Qed.

End ReadToEndProperties.

(** X13.  Whatever [ReadToEnd] returns, the session still has its file
    type and declared size, and the error, if there is one, is not
    end-of-stream: the end of the stream at a chunk's start is the one way
    [ReadToEnd] ends without an error. *)
Theorem ReadToEnd_result
    (T : Type) (tRead : T -> nat -> outcome ((list byte * option error) * T))
    (fuel : nat) (r r' : Reader) (t t' : T) (chunks : list Chunk)
    (err : option error) :
  ReadToEnd tRead fuel r t = Some (Ret ((chunks, err), r', t')) ->
  fileType r' = fileType r /\ size r' = size r /\
  (forall e : error, err = Some e -> errors_Is e io_EOF = false).
Proof.
  intros H. unfold ReadToEnd in H.
  apply ReadToEnd_loop_result in H as (H1 & H2 & _ & H4). auto.
Qed.

Lemma ReadToEnd_result_witness :
  let r := mkReader examples.FileType 4 4 in
  let s := examples.chunk (mkChunk FourCCData (map byte_of_Z [1; 2])) in
  let r' := mkReader examples.FileType 4 12 in
  ReadToEnd bytes.Reader_Read 3 r s
    = Some (Ret (([], Some errCorruptedReadOutOfBounds), r', skipn 8 s)) /\
  fileType r' = fileType r /\ size r' = size r /\
  (forall e : error,
     Some errCorruptedReadOutOfBounds = Some e -> errors_Is e io_EOF = false).
Proof.
  cbv zeta.
  assert (H : ReadToEnd bytes.Reader_Read 3 (mkReader examples.FileType 4 4)
                (examples.chunk (mkChunk FourCCData (map byte_of_Z [1; 2])))
              = Some (Ret (([], Some errCorruptedReadOutOfBounds),
                           mkReader examples.FileType 4 12,
                           skipn 8 (examples.chunk
                                      (mkChunk FourCCData (map byte_of_Z [1; 2]))))))
    by reflexivity.
  exact (conj H (ReadToEnd_result (list byte) bytes.Reader_Read _ _ _ _ _ _ _ H)).
Defined.

Lemma ReadToEnd_loop_more_fuel
    (T : Type) (tRead : T -> nat -> outcome ((list byte * option error) * T))
    (fuel : nat) :
  forall (r : Reader) (t : T) (acc : list Chunk) x,
    ReadToEnd_loop tRead fuel r t acc = Some x ->
    ReadToEnd_loop tRead (S fuel) r t acc = Some x.
Proof.
  induction fuel as [|fuel IH]; intros r t acc x; [discriminate|].
  intros H. cbn [ReadToEnd_loop] in H |- *.
  destruct (ReadChunk tRead r t zeroChunk) as [[[[[n [e|]] ch] r1] t1]|v];
    try exact H.
  now apply IH.
Qed.

(** X14.  [ReadToEnd] is [ReadChunk] repeated: after a chunk read without
    an error it returns that chunk before whatever it returns from the
    state that read left, with the same error; after a chunk read that
    fails it returns no chunk, and the error unless it is end-of-stream.
    Rounds beyond the ones it needs do not change what it returns. *)
Theorem ReadToEnd_unfold
    (T : Type) (tRead : T -> nat -> outcome ((list byte * option error) * T))
    (fuel : nat) (r r1 : Reader) (t t1 : T) (ch : Chunk) (n : Z) :
  (forall (r2 : Reader) (t2 : T) (chunks : list Chunk) (err : option error),
     ReadChunk tRead r t zeroChunk = Ret ((n, None), ch, r1, t1) ->
     ReadToEnd tRead fuel r1 t1 = Some (Ret ((chunks, err), r2, t2)) ->
     ReadToEnd tRead (S fuel) r t = Some (Ret ((ch :: chunks, err), r2, t2))) /\
  (forall e : error,
     ReadChunk tRead r t zeroChunk = Ret ((n, Some e), ch, r1, t1) ->
     ReadToEnd tRead (S fuel) r t
       = Some (Ret (([], if errors_Is e io_EOF then None else Some e), r1, t1))) /\
  (forall (k : nat) x,
     ReadToEnd tRead fuel r t = Some x -> ReadToEnd tRead (fuel + k) r t = Some x).
Proof.
  split; [|split].
  - intros r2 t2 chunks err Hc Hrest. unfold ReadToEnd in *.
    cbn [ReadToEnd_loop]. rewrite Hc. cbn [app].
    exact (ReadToEnd_loop_acc T tRead fuel _ _ _ _ [] chunks err Hrest [ch]).
  - intros e Hc. unfold ReadToEnd. cbn [ReadToEnd_loop]. rewrite Hc.
    now destruct (errors_Is e io_EOF).
  - intros k x H. unfold ReadToEnd in *. induction k as [|k IH].
    + now rewrite Nat.add_0_r.
    + rewrite Nat.add_succ_r. now apply ReadToEnd_loop_more_fuel.
Qed.

Lemma ReadToEnd_unfold_witness :
  let r := mkReader (array4 (list_byte_of_string "WAVE")) 42 4 in
  let r1 := mkReader (array4 (list_byte_of_string "WAVE")) 42 18 in
  let r2 := mkReader (array4 (list_byte_of_string "WAVE")) 42 34 in
  let c1 := mkChunk FourCCFormat (map byte_of_Z [1; 2; 3; 4; 5]) in
  let c2 := mkChunk FourCCData (map byte_of_Z [1; 2; 3; 4; 5; 6; 7; 8]) in
  ReadToEnd bytes.Reader_Read 3 r (skipn 12 examples.RIFFReader)
    = Some (Ret (([c1; c2], None), r2, [])).
Proof.
  cbv zeta.
  apply (proj1 (ReadToEnd_unfold (list byte) bytes.Reader_Read 2
                  (mkReader (array4 (list_byte_of_string "WAVE")) 42 4)
                  (mkReader (array4 (list_byte_of_string "WAVE")) 42 18)
                  (skipn 12 examples.RIFFReader) (skipn 26 examples.RIFFReader)
                  (mkChunk FourCCFormat (map byte_of_Z [1; 2; 3; 4; 5])) 14)).
  - reflexivity.
  - reflexivity.
Defined.

Lemma Reader_Read_returns (t : list byte) (k : nat) :
  exists res, bytes.Reader_Read t k = Ret res.
Proof. unfold bytes.Reader_Read. destruct t; eexists; reflexivity. Qed.

Lemma Reader_Read_ok_inv (t t' got : list byte) (k : nat) :
  bytes.Reader_Read t k = Ret ((got, None), t') ->
  t <> [] /\ got = firstn k t /\ t' = skipn k t.
Proof.
  unfold bytes.Reader_Read. destruct t as [|x t]; [discriminate|].
  intros [= <- <-]. repeat split. discriminate.
Qed.

(** A chunk read without an error from a [bytes.Reader] has taken at
    least its 8 header bytes from the stream. *)
Lemma ReadChunk_bytes_progress (r r' : Reader) (t t' : list byte)
    (c c' : Chunk) (n : Z) :
  ReadChunk bytes.Reader_Read r t c = Ret ((n, None), c', r', t') ->
  (length t' + 8 <= length t)%nat.
Proof.
  intros H. apply ReadChunk_ok_inv in H
    as (hdr & payload & t1 & sz & Hh & Hlen & _ & Hp & _).
  apply Reader_Read_ok_inv in Hh as (_ & -> & ->).
  apply Reader_Read_ok_inv in Hp as (_ & _ & ->).
  unfold len in Hlen. rewrite length_firstn in Hlen.
  rewrite !length_skipn. lia.
Qed.

Lemma ReadToEnd_loop_bytes (fuel : nat) :
  forall (s : list byte) (r : Reader) (acc : list Chunk),
    (length s < fuel)%nat ->
    exists (chunks : list Chunk) (err : option error) (r' : Reader) (s' : list byte),
      ReadToEnd_loop bytes.Reader_Read fuel r s acc
        = Some (Ret ((chunks, err), r', s')).
Proof.
  induction fuel as [|fuel IH]; intros s r acc Hlt; [lia|].
  cbn [ReadToEnd_loop].
  destruct (ReadChunk_returns (list byte) bytes.Reader_Read Reader_Read_returns
              r s zeroChunk) as [[[[[n err] ch] r1] s1] E].
  rewrite E. destruct err as [e|].
  - destruct (errors_Is e io_EOF); do 4 eexists; reflexivity.
  - apply ReadChunk_bytes_progress in E. apply IH. lia.
Qed.

(** X15.  On a finite byte stream [ReadToEnd] always returns: behind a
    [bytes.Reader] every chunk read without an error takes at least 8
    bytes, so more rounds than the stream has bytes are enough, whatever
    the stream holds and whatever size the session declares. *)
Theorem ReadToEnd_returns_on_bytes (s : list byte) (r : Reader) :
  exists (chunks : list Chunk) (err : option error) (r' : Reader) (s' : list byte),
    ReadToEnd bytes.Reader_Read (S (length s)) r s
      = Some (Ret ((chunks, err), r', s')).
Proof.
  unfold ReadToEnd. apply ReadToEnd_loop_bytes. lia.
Qed.

(** ** More on the writer *)

(** X16.  On a transport whose [Write] reports between zero and the
    number of bytes it was given, [WriteChunk] keeps the running size
    between 4 and the largest [uint32], never lowers it, and never touches
    the file type or the closed flag; when it returns no error, the count
    it returns is the chunk's [ByteLength] and the running size has grown
    by exactly that. *)
Theorem WriteChunk_keeps_size_bound
    (W : Type) (tWrite : W -> list byte -> outcome ((Z * option error) * W))
    (w w' : Writer) (t t' : W) (c : Chunk) (n : Z) (err : option error) :
  (forall (t t' : W) (b : list byte) (n : Z) (e : option error),
     tWrite t b = Ret ((n, e), t') -> 0 <= n <= len b) ->
  4 <= fileSize w <= MaxUint32 ->
  len (Data c) < 2 ^ 62 ->
  WriteChunk tWrite w t c = Ret ((n, err), w', t') ->
  4 <= fileSize w' <= MaxUint32 /\
  fileSize w <= fileSize w' /\
  closed w' = closed w /\
  writer.fileType w' = writer.fileType w /\
  (err = None -> n = ByteLength c /\ fileSize w' = fileSize w + n).
Proof.
  intros Hc Hfs Hlen H. unfold MaxUint32 in *.
  destruct err as [e|].
  - apply WriteChunk_error_keeps_fileSize in H. subst w'.
    split; [lia|]. split; [lia|]. split; [reflexivity|].
    split; [reflexivity|discriminate].
  - unfold WriteChunk in H.
    destruct (closed w) eqn:Ecl; cbn [negb] in H; [discriminate|].
    pose proof (len_nonneg (Data c)) as Hn.
    pose proof (Z.mod_pos_bound (len (Data c)) 2 ltac:(lia)) as Hm.
    assert (Hbl : ByteLength c = 8 + (len (Data c) + len (Data c) mod 2)).
    { unfold ByteLength. rewrite PaddedLength_small by lia.
      rewrite int64_small; lia. }
    rewrite Hbl in H. rewrite int64_small in H by lia.
    destruct (_ || _) eqn:Echeck; [discriminate|].
    apply orb_false_iff in Echeck as [E1 E2].
    rewrite Z.gtb_ltb in E1. apply Z.ltb_ge in E1. unfold MaxUint32 in E1.
    destruct (internal.Write _ _ _) as [[[n0 [e0|]] t0]|v] eqn:Ew;
      cbn [bind] in H; try discriminate.
    injection H as <- <- <-.
    assert (Hcat : len (concat [slice4 (Identifier c);
                                LittleEndianUInt32Bytes (uint32 (len (Data c)));
                                Pad (Data c)])
                   = 8 + (len (Data c) + len (Data c) mod 2)).
    { cbn [concat]. rewrite app_nil_r, !len_app, Pad_len.
      unfold len at 1. rewrite slice4_length.
      change (len (LittleEndianUInt32Bytes _)) with 4. lia. }
    apply (Write_from_total W tWrite Hc) in Ew; [|lia|rewrite Hcat; lia].
    destruct Ew as [_ Ew]. specialize (Ew eq_refl). rewrite Hcat in Ew.
    cbn [fileSize closed writer.fileType].
    rewrite int64_small by lia. rewrite Hbl.
    split; [lia|]. split; [lia|]. split; [reflexivity|].
    split; [reflexivity|]. intros _. split; [exact Ew|]. now rewrite Ew.
Qed.

Lemma WriteChunk_keeps_size_bound_witness :
  let w := mkWriter examples.FileType 4 false in
  let c := mkChunk FourCCData (list_byte_of_string "Hello, world!") in
  let w' := mkWriter examples.FileType 26 false in
  WriteChunk bytes.Buffer_Write w [] c = Ret ((22, None), w', examples.chunk c) /\
  4 <= fileSize w' <= MaxUint32 /\
  fileSize w <= fileSize w' /\
  closed w' = closed w /\
  writer.fileType w' = writer.fileType w /\
  (@None error = None -> 22 = ByteLength c /\ fileSize w' = fileSize w + 22).
Proof.
  cbv zeta.
  assert (Hc : forall (t t' : list byte) (b : list byte) (n : Z) (e : option error),
             bytes.Buffer_Write t b = Ret ((n, e), t') -> 0 <= n <= len b).
  { intros t t' b n e [= <- _ _]. pose proof (len_nonneg b). lia. }
  assert (H1 : 4 <= fileSize (mkWriter examples.FileType 4 false) <= MaxUint32)
    by (vm_compute; split; discriminate).
  assert (H2 : len (Data (mkChunk FourCCData (list_byte_of_string "Hello, world!")))
               < 2 ^ 62) by (vm_compute; reflexivity).
  assert (H : WriteChunk bytes.Buffer_Write (mkWriter examples.FileType 4 false) []
                (mkChunk FourCCData (list_byte_of_string "Hello, world!"))
              = Ret ((22, None), mkWriter examples.FileType 26 false,
                     examples.chunk
                       (mkChunk FourCCData (list_byte_of_string "Hello, world!"))))
    by reflexivity.
  exact (conj H (WriteChunk_keeps_size_bound (list byte) bytes.Buffer_Write
                   _ _ _ _ _ _ _ Hc H1 H2 H)).
Defined.

Lemma chunks_len (chunks : list Chunk) :
  len (concat (map examples.chunk chunks)) = session.wireSize chunks - 4.
Proof.
  induction chunks as [|c rest IH]; cbn [map concat session.wireSize].
  - reflexivity.
  - rewrite len_app, chunk_len, IH. lia.
Qed.

Lemma wireSize_even (chunks : list Chunk) : session.wireSize chunks mod 2 = 0.
Proof.
  induction chunks as [|c rest IH]; cbn [session.wireSize]; [reflexivity|].
  pose proof (Z.mod_pos_bound (len (Data c)) 2 ltac:(lia)) as Hm.
  rewrite <- Z.add_mod_idemp_r, IH, Z.add_0_r by lia.
  replace (8 + (len (Data c) + len (Data c) mod 2))
    with (len (Data c) + len (Data c) mod 2 + 4 * 2) by lia.
  rewrite Z.mod_add by lia.
  rewrite <- Z.add_mod_idemp_l by lia.
  destruct (Z.eq_dec (len (Data c) mod 2) 0) as [->| Hne]; [reflexivity|].
  replace (len (Data c) mod 2) with 1 by lia. reflexivity.
Qed.

(** The container that a run of the writer leaves: "RIFF", then a size
    field that holds exactly the number of bytes after it, then the file
    type, then the chunks; its length is even. *)
Lemma wire_format_shape (ft : FileType) (chunks : list Chunk) :
  session.wireSize chunks <= MaxUint32 ->
  let stream :=
    slice4 FourCCRIFF ++ LittleEndianUInt32Bytes (session.wireSize chunks)
    ++ slice4 ft ++ concat (map examples.chunk chunks) in
  firstn 4 stream = slice4 FourCCRIFF /\
  Uint32 (skipn 4 stream) = Ret (len stream - 8) /\
  firstn 4 (skipn 8 stream) = slice4 ft /\
  skipn 12 stream = concat (map examples.chunk chunks) /\
  len stream mod 2 = 0.
Proof.
  intros Hfit stream. subst stream.
  pose proof (wireSize_lower chunks) as Hl. unfold MaxUint32 in Hfit.
  destruct ft as [[[f0 f1] f2] f3].
  assert (Hlen : len (slice4 FourCCRIFF
                      ++ LittleEndianUInt32Bytes (session.wireSize chunks)
                      ++ slice4 (f0, f1, f2, f3)
                      ++ concat (map examples.chunk chunks))
                 = 8 + session.wireSize chunks).
  { rewrite !len_app, chunks_len.
    change (len (slice4 FourCCRIFF)) with 4.
    change (len (LittleEndianUInt32Bytes _)) with 4.
    change (len (slice4 (f0, f1, f2, f3))) with 4. lia. }
  rewrite Hlen.
  split; [reflexivity|]. split; [|split; [reflexivity|split; [reflexivity|]]].
  - replace (8 + session.wireSize chunks - 8) with (session.wireSize chunks) by lia.
    change (skipn 4 (slice4 FourCCRIFF ++ ?x)) with x.
    cbn [skipn slice4 app FourCCRIFF].
    apply Uint32_PutUint32. lia.
  - replace (8 + session.wireSize chunks) with (session.wireSize chunks + 4 * 2)
      by lia.
    rewrite Z.mod_add by lia. apply wireSize_even.
Qed.

(** ** More on the WAVE format *)

Lemma Validate_cases (f : Format) :
  (BitsPerSample f = 0 /\
   Validate f = Some (fmt_Errorf "bit rate cannot be 0" ErrInvalidBitRate)) \/
  (BitsPerSample f <> 0 /\ BitsPerSample f mod 8 <> 0 /\
   Validate f = Some (fmt_Errorf "bit rate must be a multiple of 8"
                        ErrInvalidBitRate)) \/
  (BitsPerSample f <> 0 /\ BitsPerSample f mod 8 = 0 /\ Channels f = 0 /\
   Validate f = Some (fmt_Errorf "channel count cannot be 0"
                        ErrInvalidChannelCount)) \/
  (BitsPerSample f <> 0 /\ BitsPerSample f mod 8 = 0 /\ Channels f <> 0 /\
   SampleRate f = 0 /\
   Validate f = Some (fmt_Errorf "sample rate cannot be 0" ErrInvalidSampleRate)) \/
  (BitsPerSample f <> 0 /\ BitsPerSample f mod 8 = 0 /\ Channels f <> 0 /\
   SampleRate f <> 0 /\ Validate f = None).
Proof.
  unfold Validate.
  destruct (BitsPerSample f =? 0) eqn:E1;
    [apply Z.eqb_eq in E1; now left|apply Z.eqb_neq in E1].
  destruct (BitsPerSample f mod 8 =? 0) eqn:E2; cbn [negb];
    [apply Z.eqb_eq in E2|apply Z.eqb_neq in E2; right; now left].
  destruct (Channels f =? 0) eqn:E3;
    [apply Z.eqb_eq in E3; right; right; now left|apply Z.eqb_neq in E3].
  destruct (SampleRate f =? 0) eqn:E4;
    [apply Z.eqb_eq in E4; right; right; right; now left|apply Z.eqb_neq in E4].
  right; right; right; right. repeat split; assumption.
Qed.

Lemma Validate_cases_errors (f : Format) (e : error) :
  Validate f = Some e ->
  errors_Is e ErrInvalidBitRate || errors_Is e ErrInvalidChannelCount
  || errors_Is e ErrInvalidSampleRate = true /\
  (errors_Is e ErrBadWaveData = true /\ errors_Is e ErrCorrupted = true).
Proof.
  destruct (Validate_cases f)
    as [(_ & ->)|[(_ & _ & ->)|[(_ & _ & _ & ->)
       |[(_ & _ & _ & _ & ->)|(_ & _ & _ & _ & ->)]]]];
    try discriminate; intros [= <-]; repeat split.
Qed.

(** X18.  [Validate] accepts a format exactly when its bits per sample
    are a non-zero multiple of 8 and its channel count and sample rate are
    not zero.  Every error it gives is [ErrBadWaveData], so [ErrCorrupted];
    the bit depth is judged first, then the channels, then the rate. *)
Theorem Validate_spec (f : Format) :
  (Validate f = None <->
   BitsPerSample f <> 0 /\ BitsPerSample f mod 8 = 0 /\
   Channels f <> 0 /\ SampleRate f <> 0) /\
  (forall e : error,
     Validate f = Some e ->
     errors_Is e ErrBadWaveData = true /\ errors_Is e ErrCorrupted = true /\
     errors_Is e ErrClosed = false) /\
  (BitsPerSample f = 0 \/ BitsPerSample f mod 8 <> 0 ->
   exists e : error, Validate f = Some e /\ errors_Is e ErrInvalidBitRate = true) /\
  (BitsPerSample f <> 0 -> BitsPerSample f mod 8 = 0 -> Channels f = 0 ->
   exists e : error,
     Validate f = Some e /\ errors_Is e ErrInvalidChannelCount = true) /\
  (BitsPerSample f <> 0 -> BitsPerSample f mod 8 = 0 -> Channels f <> 0 ->
   SampleRate f = 0 ->
   exists e : error,
     Validate f = Some e /\ errors_Is e ErrInvalidSampleRate = true).
Proof.
  destruct (Validate_cases f)
    as [(H1 & ->)|[(H1 & H2 & ->)|[(H1 & H2 & H3 & ->)
       |[(H1 & H2 & H3 & H4 & ->)|(H1 & H2 & H3 & H4 & ->)]]]].
  - split; [split; [discriminate|tauto]|].
    split; [intros e [= <-]; repeat split|].
    split; [intros _; eexists; split; reflexivity|].
    split; [tauto|tauto].
  - split; [split; [discriminate|tauto]|].
    split; [intros e [= <-]; repeat split|].
    split; [intros _; eexists; split; reflexivity|].
    split; [tauto|tauto].
  - split; [split; [discriminate|tauto]|].
    split; [intros e [= <-]; repeat split|].
    split; [intros [?|?]; tauto|].
    split; [intros _ _ _; eexists; split; reflexivity|tauto].
  - split; [split; [discriminate|tauto]|].
    split; [intros e [= <-]; repeat split|].
    split; [intros [?|?]; tauto|].
    split; [tauto|intros _ _ _ _; eexists; split; reflexivity].
  - split; [split; [tauto|reflexivity]|].
    split; [discriminate|].
    split; [intros [?|?]; tauto|].
    split; [tauto|tauto].
Qed.

Lemma Validate_spec_witness :
  Validate (mkFormat 16 2 44100 PCM) = None /\
  (exists e : error,
     Validate (mkFormat 12 2 44100 PCM) = Some e /\
     errors_Is e ErrInvalidBitRate = true).
Proof.
  split.
  - apply (proj1 (Validate_spec (mkFormat 16 2 44100 PCM))).
    cbn. repeat split; discriminate.
  - apply (proj1 (proj2 (proj2 (Validate_spec (mkFormat 12 2 44100 PCM))))).
    right. cbn. discriminate.
Defined.

(** [formatToBytes] never panics: the 24 bytes it builds are the
    identifier, the length 16 and the six fields, the byte rate and the
    block alignment computed from the others. *)
Lemma formatToBytes_layout (f : Format) :
  formatToBytes f
    = Ret (slice4 FourCCFormat ++ LittleEndianUInt32Bytes 16
           ++ examples.fmtData (uint16 (AudioFormat f)) (Channels f) (SampleRate f)
                (uint32 (BytesPerSecond f)) (uint16 (BlockAlign f))
                (uint16 (BitsPerSample f))).
Proof. reflexivity. Qed.

Lemma uint16_small (z : Z) : 0 <= z < 2 ^ 16 -> uint16 z = z.
Proof. intros H. unfold uint16. now apply Z.mod_small. Qed.

Lemma uint32_small (z : Z) : 0 <= z < 2 ^ 32 -> uint32 z = z.
Proof. intros H. unfold uint32. now apply Z.mod_small. Qed.

(** X19.  Decoding what [formatToBytes] encodes gives the format back:
    for a format whose fields fit their types, a reader that yields the 24
    bytes of [formatToBytes] as one "fmt " chunk makes [FormatFromReader]
    return that format, with the error that [Validate] gives for it and no
    other; the stored byte rate and block alignment never disagree. *)
Theorem wave_format_roundtrip
    (R : Type) (rReadChunk : R -> Chunk -> outcome ((Z * option error) * Chunk * R))
    (r r' : R) (f : Format) (bytes : list byte) :
  0 <= AudioFormat f < 2 ^ 16 -> 0 <= Channels f < 2 ^ 16 ->
  0 <= SampleRate f < 2 ^ 32 -> 0 <= BitsPerSample f < 2 ^ 16 ->
  formatToBytes f = Ret bytes ->
  rReadChunk r zeroChunk
    = Ret ((len bytes, None),
           mkChunk FourCCFormat (skipn (Z.to_nat LengthChunkHeader) bytes), r') ->
  FormatFromReader rReadChunk r = Ret ((f, Validate f), r').
Proof.
  intros Haf Hch Hsr Hbps Hb Hrc.
  rewrite formatToBytes_layout in Hb. injection Hb as <-.
  rewrite (uint16_small (AudioFormat f)), (uint16_small (BitsPerSample f)) in Hrc
    by assumption.
  assert (Hbr : 0 <= uint32 (BytesPerSecond f) < 2 ^ 32)
    by (unfold uint32; apply Z.mod_pos_bound; lia).
  assert (Hba : 0 <= uint16 (BlockAlign f) < 2 ^ 16)
    by (unfold uint16; apply Z.mod_pos_bound; lia).
  change (len (slice4 FourCCFormat ++ LittleEndianUInt32Bytes 16 ++ ?x))
    with LengthFormatChunk in Hrc.
  change (skipn (Z.to_nat LengthChunkHeader)
            (slice4 FourCCFormat ++ LittleEndianUInt32Bytes 16 ++ ?x))
    with x in Hrc.
  destruct (FormatFromReader_cross_checks R rReadChunk r r' _ _ _ _ _ _
              Haf Hch Hsr Hbr Hba Hbps Hrc) as [_ Hok].
  destruct f as [bps ch sr af]. cbn [BitsPerSample Channels SampleRate AudioFormat] in *.
  apply Hok.
  - unfold BytesPerSecond, uint32. cbn [BitsPerSample Channels SampleRate].
    now rewrite Z.mod_mod by lia.
  - unfold BlockAlign, uint16. cbn [BitsPerSample Channels].
    now rewrite Z.mod_mod by lia.
Qed.

Lemma wave_format_roundtrip_witness :
  let f := mkFormat 16 2 44100 PCM in
  exists (bytes : list byte) (s : list byte) (rt' : Reader * list byte),
    formatToBytes f = Ret bytes /\
    session.ReadChunk bytes.Reader_Read
      (mkReader examples.FileType 28 4, s) zeroChunk
      = Ret ((len bytes, None),
             mkChunk FourCCFormat (skipn (Z.to_nat LengthChunkHeader) bytes), rt') /\
    FormatFromReader (session.ReadChunk bytes.Reader_Read)
      (mkReader examples.FileType 28 4, s) = Ret ((f, Validate f), rt').
Proof.
  cbv zeta.
  pose (f := mkFormat 16 2 44100 PCM).
  pose (bytes := slice4 FourCCFormat ++ LittleEndianUInt32Bytes 16
                 ++ examples.fmtData 1 2 44100 176400 4 16).
  exists bytes, bytes, (mkReader examples.FileType 28 28, []).
  assert (H1 : formatToBytes f = Ret bytes) by reflexivity.
  assert (H2 : session.ReadChunk bytes.Reader_Read
                 (mkReader examples.FileType 28 4, bytes) zeroChunk
               = Ret ((len bytes, None),
                      mkChunk FourCCFormat (skipn (Z.to_nat LengthChunkHeader) bytes),
                      (mkReader examples.FileType 28 28, []))) by reflexivity.
  refine (conj H1 (conj H2 _)).
  refine (wave_format_roundtrip _ (session.ReadChunk bytes.Reader_Read)
            _ _ f bytes _ _ _ _ H1 H2); unfold f, PCM; cbn; lia.
Defined.

(** X20.  For a format whose bits per sample are a multiple of 8 and
    whose products fit their types, the byte rate is the sample rate times
    the block alignment. *)
Theorem BytesPerSecond_BlockAlign (f : Format) :
  0 <= BitsPerSample f -> 0 <= Channels f -> 0 <= SampleRate f ->
  BitsPerSample f mod 8 = 0 ->
  SampleRate f * BitsPerSample f < 2 ^ 32 ->
  BitsPerSample f / 8 * Channels f < 2 ^ 16 ->
  SampleRate f * (BitsPerSample f / 8 * Channels f) < 2 ^ 32 ->
  BytesPerSecond f = SampleRate f * BlockAlign f.
Proof.
  intros Hb Hc Hs Hm H1 H2 H3. unfold BytesPerSecond, BlockAlign, uint32, uint16.
  assert (Hq : 0 <= BitsPerSample f / 8) by (apply Z.div_pos; lia).
  assert (Hdiv : BitsPerSample f = 8 * (BitsPerSample f / 8))
    by (rewrite (Z.div_mod (BitsPerSample f) 8) at 1 by lia; lia).
  rewrite (Z.mod_small (SampleRate f * BitsPerSample f)) by nia.
  rewrite (Z.mod_small (BitsPerSample f / 8 * Channels f)) by nia.
  assert (Hd : SampleRate f * BitsPerSample f / 8
               = SampleRate f * (BitsPerSample f / 8)).
  { rewrite Hdiv at 1.
    replace (SampleRate f * (8 * (BitsPerSample f / 8)))
      with (SampleRate f * (BitsPerSample f / 8) * 8) by lia.
    apply Z.div_mul. lia. }
  rewrite Hd. rewrite Z.mod_small by nia. lia.
Qed.

Lemma BytesPerSecond_BlockAlign_witness :
  BytesPerSecond (mkFormat 16 2 44100 PCM)
    = SampleRate (mkFormat 16 2 44100 PCM) * BlockAlign (mkFormat 16 2 44100 PCM).
Proof.
  apply BytesPerSecond_BlockAlign; cbn; lia.
Defined.

(** X21.  [WritePCM] writes nothing unless the format is valid and its
    audio format is PCM: otherwise it makes no call on the writer, reports
    zero bytes, and fails with an error that is [ErrBadWaveData], so
    [ErrCorrupted]. *)
Theorem WritePCM_rejects
    (Wr : Type) (wWriteChunk : Wr -> Chunk -> outcome ((Z * option error) * Wr))
    (w : Wr) (f : Format) (pcm : list byte) :
  Validate f <> None \/ AudioFormat f <> PCM ->
  exists e : error,
    WritePCM wWriteChunk w f pcm = Ret ((0, Some e), w) /\
    errors_Is e ErrBadWaveData = true /\
    errors_Is e ErrCorrupted = true.
Proof.
  intros Hbad. unfold WritePCM.
  destruct (Validate f) as [e|] eqn:Ev.
  - exists e. split; [reflexivity|].
    exact (proj2 (Validate_cases_errors f e Ev)).
  - destruct Hbad as [Hbad|Hbad]; [contradiction|].
    replace (AudioFormat f =? PCM) with false by (symmetry; now apply Z.eqb_neq).
    cbn [negb]. eexists. split; [reflexivity|]. split; reflexivity.
Qed.

Lemma WritePCM_rejects_witness :
  exists e : error,
    WritePCM (session.WriteChunk bytes.Buffer_Write)
      (mkWriter examples.FileType 4 false, []) (mkFormat 16 0 44100 PCM)
      (map byte_of_Z [42; 61; 79])
      = Ret ((0, Some e), (mkWriter examples.FileType 4 false, [])) /\
    errors_Is e ErrBadWaveData = true /\
    errors_Is e ErrCorrupted = true.
Proof.
  apply WritePCM_rejects. left. discriminate.
Defined.

(** X22.  An error of [FormatFromReader] is the reader's own error, as
    it was, or an error that is [ErrCorrupted]; and when it returns no
    error, the chunk it read was 24 bytes on the wire with the identifier
    "fmt " and the format it returns passes [Validate]. *)
Theorem FormatFromReader_results
    (R : Type) (rReadChunk : R -> Chunk -> outcome ((Z * option error) * Chunk * R))
    (r r' : R) (f : Format) (err : option error) :
  FormatFromReader rReadChunk r = Ret ((f, err), r') ->
  (forall e : error,
     err = Some e ->
     (exists (n : Z) (ch : Chunk), rReadChunk r zeroChunk = Ret ((n, Some e), ch, r'))
     \/ errors_Is e ErrCorrupted = true) /\
  (err = None ->
   Validate f = None /\
   exists ch : Chunk,
     rReadChunk r zeroChunk = Ret ((LengthFormatChunk, None), ch, r') /\
     Identifier ch = FourCCFormat).
Proof.
  unfold FormatFromReader.
  destruct (rReadChunk r zeroChunk) as [[[[n [e0|]] ch] r1]|v] eqn:E;
    cbn [bind]; try discriminate.
  { intros [= <- <- <-]. split; [|discriminate].
    intros e [= <-]. left. now exists n, ch. }
  destruct (n =? LengthFormatChunk) eqn:En; cbn [negb].
  2: { intros [= <- <- <-]. split; [|discriminate].
       intros e [= <-]. now right. }
  destruct (bytes.Equal _ _) eqn:Eid; cbn [negb].
  2: { intros [= <- <- <-]. split; [|discriminate].
       intros e [= <-]. now right. }
  apply Z.eqb_eq in En. subst n. apply Equal_eq in Eid.
  assert (Hid : Identifier ch = FourCCFormat).
  { destruct (Identifier ch) as [[[? ?] ?] ?]. now injection Eid as -> -> -> ->. }
  repeat (match goal with
          | |- context [bind ?m _] =>
              destruct m as [[? ?]|?]; cbn [bind]; try discriminate
          end).
  destruct (negb (_ =? uint32 _)).
  { intros [= <- <- <-]. split; [|discriminate]. intros e [= <-]. now right. }
  destruct (negb (_ =? uint16 _)).
  { intros [= <- <- <-]. split; [|discriminate]. intros e [= <-]. now right. }
  destruct (Validate _) as [e1|] eqn:Ev; intros [= <- <- <-].
  - split; [|discriminate]. intros e [= <-]. right.
    now apply Validate_Corrupted in Ev.
  - split; [discriminate|]. intros _. split; [exact Ev|]. now exists ch.
Qed.

Lemma FormatFromReader_results_witness :
  let bytes := slice4 FourCCFormat ++ LittleEndianUInt32Bytes 16
               ++ examples.fmtData 1 2 44100 176400 4 16 in
  let f := mkFormat 16 2 44100 PCM in
  FormatFromReader (session.ReadChunk bytes.Reader_Read)
    (mkReader examples.FileType 28 4, bytes)
    = Ret ((f, None), (mkReader examples.FileType 28 28, [])) /\
  Validate f = None.
Proof.
  cbv zeta.
  assert (H : FormatFromReader (session.ReadChunk bytes.Reader_Read)
                (mkReader examples.FileType 28 4,
                 slice4 FourCCFormat ++ LittleEndianUInt32Bytes 16
                 ++ examples.fmtData 1 2 44100 176400 4 16)
              = Ret ((mkFormat 16 2 44100 PCM, None),
                     (mkReader examples.FileType 28 28, []))) by reflexivity.
  split; [exact H|].
  exact (proj1 (proj2 (FormatFromReader_results _ _ _ _ _ _ H) eq_refl)).
Defined.

(** The decoder on the chunk that [formatToBytes] makes of a format whose
    fields fit their types. *)
Lemma FormatFromReader_decodes
    (R : Type) (rReadChunk : R -> Chunk -> outcome ((Z * option error) * Chunk * R))
    (r r' : R) (f : Format) :
  0 <= AudioFormat f < 2 ^ 16 -> 0 <= Channels f < 2 ^ 16 ->
  0 <= SampleRate f < 2 ^ 32 -> 0 <= BitsPerSample f < 2 ^ 16 ->
  rReadChunk r zeroChunk
    = Ret ((LengthFormatChunk, None),
           mkChunk FourCCFormat
             (examples.fmtData (uint16 (AudioFormat f)) (Channels f) (SampleRate f)
                (uint32 (BytesPerSecond f)) (uint16 (BlockAlign f))
                (uint16 (BitsPerSample f))), r') ->
  FormatFromReader rReadChunk r = Ret ((f, Validate f), r').
Proof.
  intros Haf Hch Hsr Hbps Hrc.
  rewrite (uint16_small (AudioFormat f)), (uint16_small (BitsPerSample f)) in Hrc
    by assumption.
  assert (Hbr : 0 <= uint32 (BytesPerSecond f) < 2 ^ 32)
    by (unfold uint32; apply Z.mod_pos_bound; lia).
  assert (Hba : 0 <= uint16 (BlockAlign f) < 2 ^ 16)
    by (unfold uint16; apply Z.mod_pos_bound; lia).
  destruct (FormatFromReader_cross_checks R rReadChunk r r' _ _ _ _ _ _
              Haf Hch Hsr Hbr Hba Hbps Hrc) as [_ Hok].
  destruct f as [bps ch sr af]. cbn [BitsPerSample Channels SampleRate AudioFormat] in *.
  apply Hok.
  - unfold BytesPerSecond, uint32. cbn [BitsPerSample Channels SampleRate].
    now rewrite Z.mod_mod by lia.
  - unfold BlockAlign, uint16. cbn [BitsPerSample Channels].
    now rewrite Z.mod_mod by lia.
Qed.

(** X23.  A Wavefile written is a Wavefile read.  For a valid PCM format
    whose fields fit their types and PCM data that fit the container: on a
    buffer, opening a writer, [WritePCM] and [Close] end without an error,
    [WritePCM] reporting the 24 bytes of the format chunk and the bytes of
    the data chunk; on the buffer they leave, [New] gives a session with
    the file type, [FormatFromReader] returns the format without an error,
    and the next [ReadChunk] returns the "data" chunk with the PCM data and
    leaves the buffer empty. *)
Theorem WritePCM_then_read (ft : FileType) (f : Format) (pcm : list byte) :
  0 <= AudioFormat f < 2 ^ 16 -> 0 <= Channels f < 2 ^ 16 ->
  0 <= SampleRate f < 2 ^ 32 -> 0 <= BitsPerSample f < 2 ^ 16 ->
  Validate f = None -> AudioFormat f = PCM ->
  36 + (len pcm + len pcm mod 2) <= MaxUint32 ->
  exists (w0 w1 w2 : Writer) (t0 t1 stream rest rest1 : list byte)
         (r r1 r2 : Reader),
    writer.New bytes.Buffer_Write [] ft = Ret (inl w0, t0) /\
    WritePCM (session.WriteChunk bytes.Buffer_Write) (w0, t0) f pcm
      = Ret ((LengthFormatChunk + (8 + (len pcm + len pcm mod 2)), None), (w1, t1)) /\
    Close test.Buffer_WriteAt w1 t1 = Ret (None, w2, stream) /\
    New bytes.Buffer_Read stream = Ret (inl r, rest) /\
    fileType r = ft /\
    FormatFromReader (session.ReadChunk bytes.Buffer_Read) (r, rest)
      = Ret ((f, None), (r1, rest1)) /\
    ReadChunk bytes.Buffer_Read r1 rest1 zeroChunk
      = Ret ((8 + (len pcm + len pcm mod 2), None), mkChunk FourCCData pcm, r2, []).
Proof.
  intros Haf Hch Hsr Hbps Hvalid Hpcm Hfit. unfold MaxUint32 in Hfit.
  pose proof (len_nonneg pcm) as Hn.
  pose proof (Z.mod_pos_bound (len pcm) 2 ltac:(lia)) as Hm.
  set (dataF := examples.fmtData (uint16 (AudioFormat f)) (Channels f) (SampleRate f)
                  (uint32 (BytesPerSecond f)) (uint16 (BlockAlign f))
                  (uint16 (BitsPerSample f))).
  set (fmtC := mkChunk FourCCFormat dataF).
  set (dataC := mkChunk FourCCData pcm).
  remember (36 + (len pcm + len pcm mod 2)) as total eqn:Htotal.
  set (t0 := slice4 FourCCRIFF ++ slice4 EmptyBytes ++ slice4 ft).
  assert (HlF : len (Data fmtC) = 16) by reflexivity.
  (* the two chunks written *)
  assert (Hw1 : WriteChunk bytes.Buffer_Write (mkWriter ft 4 false) t0 fmtC
                = Ret ((24, None), mkWriter ft 28 false, t0 ++ examples.chunk fmtC)).
  { rewrite WriteChunk_Buffer; rewrite ?HlF; try change (16 mod 2) with 0; cbn [closed fileSize writer.fileType];
      try reflexivity; unfold MaxUint32; lia. }
  assert (Hw2 : WriteChunk bytes.Buffer_Write (mkWriter ft 28 false)
                  (t0 ++ examples.chunk fmtC) dataC
                = Ret ((8 + (len pcm + len pcm mod 2), None),
                       mkWriter ft total false,
                       (t0 ++ examples.chunk fmtC) ++ examples.chunk dataC)).
  { rewrite WriteChunk_Buffer; cbn [closed fileSize writer.fileType Data dataC];
      try reflexivity; unfold MaxUint32; try lia.
    replace (28 + (8 + (len pcm + len pcm mod 2))) with total by lia. reflexivity. }
  set (stream := slice4 FourCCRIFF ++ LittleEndianUInt32Bytes total ++ slice4 ft
                 ++ examples.chunk fmtC ++ examples.chunk dataC).
  exists (mkWriter ft 4 false), (mkWriter ft total false), (mkWriter ft total true),
    t0, ((t0 ++ examples.chunk fmtC) ++ examples.chunk dataC), stream,
    (examples.chunk fmtC ++ examples.chunk dataC), (examples.chunk dataC),
    (mkReader ft total 4), (mkReader ft total 28), (mkReader ft total total).
  split; [apply writer_New_Buffer|].
  split.
  { unfold WritePCM. rewrite Hvalid, Hpcm. rewrite Z.eqb_refl. cbn [negb].
    rewrite formatToBytes_layout. cbn [bind].
    change (skipn (Z.to_nat LengthChunkHeader)
              (slice4 FourCCFormat ++ LittleEndianUInt32Bytes 16 ++ ?x)) with x.
    fold dataF. fold fmtC. fold dataC.
    unfold session.WriteChunk at 1. rewrite Hw1. cbn [bind].
    unfold session.WriteChunk. rewrite Hw2. cbn [bind].
    rewrite int64_small by (unfold LengthFormatChunk, LengthChunkHeader; lia).
    reflexivity. }
  split.
  { unfold Close. cbn [closed negb fileSize writer.fileType].
    unfold internal.WriteAt. change (len (slice4 FourCCRIFF)) with 4.
    rewrite (uint32_small total) by (lia).
    unfold t0. rewrite <- !app_assoc.
    rewrite Buffer_WriteAt_patch by (try reflexivity; apply slice4_length).
    cbn [bind]. change (len (LittleEndianUInt32Bytes total)) with 4.
    reflexivity. }
  split.
  { unfold stream.
    rewrite New_Buffer_full by (try reflexivity; apply slice4_length).
    change (negb (bytes.Equal (slice4 FourCCRIFF) (slice4 FourCCRIFF))) with false.
    cbv iota. rewrite <- (app_nil_r (LittleEndianUInt32Bytes _)).
    unfold LittleEndianUInt32Bytes. rewrite Uint32_PutUint32 by (lia).
    cbn [bind].
    replace (total <? 4) with false by (symmetry; apply Z.ltb_ge; lia).
    rewrite <- (app_nil_r (slice4 ft)), array4_slice4. reflexivity. }
  split; [reflexivity|].
  assert (Hpad : PaddedLength total = total + total mod 2)
    by (apply PaddedLength_small; lia).
  pose proof (Z.mod_pos_bound total 2 ltac:(lia)) as Hmt.
  assert (Hr1 : ReadChunk bytes.Buffer_Read (mkReader ft total 4)
                  (examples.chunk fmtC ++ examples.chunk dataC) zeroChunk
                = Ret ((24, None), fmtC, mkReader ft total 28, examples.chunk dataC)).
  { rewrite ReadChunk_Buffer; rewrite ?HlF; try change (16 mod 2) with 0; cbn [bytesRead size fileType];
      try reflexivity; rewrite ?Hpad; lia. }
  assert (Hr2 : ReadChunk bytes.Buffer_Read (mkReader ft total 28)
                  (examples.chunk dataC) zeroChunk
                = Ret ((8 + (len pcm + len pcm mod 2), None), dataC,
                       mkReader ft total total, [])).
  { rewrite <- (app_nil_r (examples.chunk dataC)).
    rewrite ReadChunk_Buffer; cbn [bytesRead size fileType Data dataC];
      rewrite ?Hpad; try lia.
    replace (28 + (8 + (len pcm + len pcm mod 2))) with total by lia.
    reflexivity. }
  split; [|exact Hr2].
  rewrite <- Hvalid.
  apply FormatFromReader_decodes; try assumption.
  unfold session.ReadChunk. rewrite Hr1. reflexivity.
Qed.

Lemma WritePCM_then_read_witness :
  let f := mkFormat 16 2 44100 PCM in
  let pcm := map byte_of_Z [42; 61; 79] in
  exists (w0 w1 w2 : Writer) (t0 t1 stream rest rest1 : list byte)
         (r r1 r2 : Reader),
    writer.New bytes.Buffer_Write [] examples.FileType = Ret (inl w0, t0) /\
    WritePCM (session.WriteChunk bytes.Buffer_Write) (w0, t0) f pcm
      = Ret ((LengthFormatChunk + (8 + (len pcm + len pcm mod 2)), None), (w1, t1)) /\
    Close test.Buffer_WriteAt w1 t1 = Ret (None, w2, stream) /\
    New bytes.Buffer_Read stream = Ret (inl r, rest) /\
    fileType r = examples.FileType /\
    FormatFromReader (session.ReadChunk bytes.Buffer_Read) (r, rest)
      = Ret ((f, None), (r1, rest1)) /\
    ReadChunk bytes.Buffer_Read r1 rest1 zeroChunk
      = Ret ((8 + (len pcm + len pcm mod 2), None), mkChunk FourCCData pcm, r2, []).
Proof.
  cbv zeta.
  apply (WritePCM_then_read examples.FileType (mkFormat 16 2 44100 PCM)
           (map byte_of_Z [42; 61; 79]));
    try (unfold PCM; cbn; lia); try reflexivity.
  vm_compute. discriminate.
Defined.

(** ** Ends of streams *)

(** X24.  At the end of a stream [ReadChunk] returns zero bytes and
    end-of-stream as it is, and leaves the chunk and the session as they
    were, behind a [bytes.Reader] and behind a buffer alike; so [ReadToEnd]
    on a stream without chunks returns no chunk and no error. *)
Theorem ReadChunk_at_end (r : Reader) (c : Chunk) :
  0 <= bytesRead r < 2 ^ 62 ->
  ReadChunk bytes.Reader_Read r [] c = Ret ((0, Some io_EOF), c, r, []) /\
  ReadChunk bytes.Buffer_Read r [] c = Ret ((0, Some io_EOF), c, r, []) /\
  (forall fuel : nat,
     ReadToEnd bytes.Reader_Read (S fuel) r [] = Some (Ret (([], None), r, []))).
Proof.
  intros H.
  assert (H1 : ReadChunk bytes.Reader_Read r [] c = Ret ((0, Some io_EOF), c, r, [])).
  { unfold ReadChunk, read. cbn [bytes.Reader_Read bind len length Z.of_nat].
    rewrite Z.add_0_r, int64_small by lia. now destruct r. }
  split; [exact H1|]. split; [now apply ReadChunk_Buffer_end|].
  intros fuel. unfold ReadToEnd. cbn [ReadToEnd_loop].
  assert (H2 : ReadChunk bytes.Reader_Read r [] zeroChunk
               = Ret ((0, Some io_EOF), zeroChunk, r, [])).
  { unfold ReadChunk, read. cbn [bytes.Reader_Read bind len length Z.of_nat].
    rewrite Z.add_0_r, int64_small by lia. now destruct r. }
  rewrite H2. reflexivity.
Qed.

Lemma ReadChunk_at_end_witness :
  ReadChunk bytes.Reader_Read (mkReader examples.FileType 4 4) [] zeroChunk
    = Ret ((0, Some io_EOF), zeroChunk, mkReader examples.FileType 4 4, []).
Proof.
  assert (H : 0 <= bytesRead (mkReader examples.FileType 4 4) < 2 ^ 62)
    by (cbn; lia).
  exact (proj1 (ReadChunk_at_end (mkReader examples.FileType 4 4) zeroChunk H)).
Defined.

Lemma Reader_Read_some (s : list byte) (k : nat) :
  s <> [] -> bytes.Reader_Read s k = Ret ((firstn k s, None), skipn k s).
Proof. destruct s; [easy|reflexivity]. Qed.

(** X25.  A stream that ends inside a chunk, with at least one byte of
    the part it ends in, is corrupted: behind a [bytes.Reader], when the
    stream holds between 1 and 7 bytes of a chunk's header, or the whole
    header and at least one byte but not all of the padded payload,
    [ReadChunk] fails with an error that is [ErrCorrupted]. *)
Theorem ReadChunk_truncated_is_Corrupted
    (r : Reader) (c c0 : Chunk) (k : nat) :
  len (Data c) < 2 ^ 32 ->
  (0 < k < length (examples.chunk c))%nat -> k <> 8%nat ->
  exists (n : Z) (e : error) (c' : Chunk) (r' : Reader) (s' : list byte),
    ReadChunk bytes.Reader_Read r (firstn k (examples.chunk c)) c0
      = Ret ((n, Some e), c', r', s') /\
    errors_Is e ErrCorrupted = true.
Proof.
  intros Hlen Hk Hk8.
  pose proof (len_nonneg (Data c)) as Hn.
  set (s := firstn k (examples.chunk c)).
  assert (Hsl : length s = k) by (unfold s; rewrite length_firstn; lia).
  assert (Hne : s <> []) by (intros E; rewrite E in Hsl; cbn in Hsl; lia).
  pose proof (read_transport_ok (list byte) bytes.Reader_Read r s (skipn 8 s)
                (make 8) (firstn 8 s)) as Hr.
  rewrite make_length in Hr. change (Z.to_nat 8) with 8%nat in Hr.
  specialize (Hr (Reader_Read_some s 8 Hne)). cbn zeta in Hr.
  cbn [bytesRead] in Hr.
  destruct (int64 (bytesRead r + len (firstn 8 s)) >? PaddedLength (size r)).
  { do 5 eexists.
    split; [exact (ReadChunk_header_failed _ _ _ _ _ _ c0 _ _ _ Hr)|reflexivity]. }
  destruct (Nat.lt_ge_cases k 8) as [Hshort|Hfull].
  - assert (Hn8 : len (firstn 8 s) < 8)
      by (unfold len; rewrite length_firstn; lia).
    do 5 eexists.
    split; [exact (ReadChunk_header_short _ _ _ _ _ _ c0 _ _ Hr Hn8)|reflexivity].
  - assert (Hh8 : firstn 8 s = firstn 8 (examples.chunk c))
      by (unfold s; rewrite firstn_firstn; f_equal; lia).
    assert (Hhl : length (firstn 8 s) = 8%nat) by (rewrite length_firstn; lia).
    rewrite fill_exact in Hr by (now rewrite make_length).
    assert (Hsz : Uint32 (skipn 4 (firstn 8 s)) = Ret (len (Data c))).
    { rewrite Hh8. unfold examples.chunk.
      destruct (Identifier c) as [[[i0 i1] i2] i3].
      cbn [slice4 app firstn skipn LittleEndianUInt32Bytes PutUint32].
      unfold uint32. rewrite Z.mod_small by lia.
      exact (Uint32_PutUint32 (len (Data c)) [] ltac:(lia)). }
    assert (Hrest : skipn 8 s <> []).
    { intros E. apply (f_equal (@length byte)) in E.
      rewrite length_skipn in E. cbn in E. lia. }
    pose proof (read_transport_ok (list byte) bytes.Reader_Read
                  (mkReader (fileType r) (size r)
                     (int64 (bytesRead r + len (firstn 8 s))))
                  (skipn 8 s) _ (Pad (make (len (Data c)))) _
                  (Reader_Read_some (skipn 8 s) _ Hrest)) as Hr2.
    cbn zeta in Hr2.
    pose proof (ReadChunk_payload (list byte) bytes.Reader_Read _ _ _ _ _ _ c0
                  _ _ _ _ _ _ Hr ltac:(unfold len; lia) Hsz Hr2) as Hrun.
    rewrite Hrun.
    destruct (_ >? _); [do 5 eexists; split; reflexivity|].
    assert (Hlt : len (firstn (length (Pad (make (len (Data c))))) (skipn 8 s))
                  < len (fill (Pad (make (len (Data c))))
                           (firstn (length (Pad (make (len (Data c)))))
                              (skipn 8 s)))).
    { unfold len. rewrite fill_length, length_firstn, length_skipn, Hsl.
      pose proof (chunk_len c) as Hcl. unfold len in Hcl.
      pose proof (Pad_make_length (len (Data c)) ltac:(lia)) as Hpl.
      rewrite PaddedLength_small in Hpl by lia.
      unfold len in Hpl |- *. rewrite Hpl. lia. }
    apply Z.ltb_lt in Hlt. rewrite Hlt.
    do 5 eexists. split; reflexivity.
Qed.

Lemma ReadChunk_truncated_is_Corrupted_witness :
  exists (n : Z) (e : error) (c' : Chunk) (r' : Reader) (s' : list byte),
    ReadChunk bytes.Reader_Read (mkReader examples.FileType 32 4)
      (firstn 10 (examples.chunk (mkChunk FourCCData (map byte_of_Z [1; 2; 3; 4]))))
      zeroChunk
      = Ret ((n, Some e), c', r', s') /\
    errors_Is e ErrCorrupted = true.
Proof.
  apply ReadChunk_truncated_is_Corrupted.
  - vm_compute. reflexivity.
  - vm_compute. split; apply Nat.leb_le; reflexivity.
  - discriminate.
Defined.

(** ** A writer that does not start at the beginning *)

Lemma writer_New_Buffer_any (t : list byte) (ft : FileType) :
  writer.New bytes.Buffer_Write t ft
    = Ret (inl (mkWriter ft 4 false),
           t ++ slice4 FourCCRIFF ++ slice4 EmptyBytes ++ slice4 ft).
Proof.
  unfold writer.New, writer.init, internal.Write.
  rewrite Write_from_Buffer
    by (destruct ft as [[[? ?] ?] ?]; cbn; lia).
  destruct ft as [[[? ?] ?] ?]. reflexivity.
Qed.

(** X26.  [New] writes the header where the transport stands, [Close]
    writes the size at offset 4 of the transport: on a buffer that already
    holds eight bytes or more, a run of the writer leaves the header it
    wrote with its four empty bytes, and the size over bytes 4 to 7 of what
    the buffer held before. *)
Theorem WriteAll_not_at_start
    (pre : list byte) (ft : FileType) (chunks : list Chunk) :
  8 <= len pre ->
  session.wireSize chunks <= MaxUint32 ->
  session.WriteAll bytes.Buffer_Write test.Buffer_WriteAt pre ft chunks
    = Ret (None,
           firstn 4 pre
           ++ LittleEndianUInt32Bytes (session.wireSize chunks)
           ++ skipn 8 pre
           ++ slice4 FourCCRIFF ++ slice4 EmptyBytes ++ slice4 ft
           ++ concat (map examples.chunk chunks)).
Proof.
  intros Hpre Hfit. unfold session.WriteAll.
  rewrite writer_New_Buffer_any. cbn [bind].
  pose proof (wireSize_lower chunks).
  rewrite WriteChunks_Buffer by (cbn [closed fileSize]; try reflexivity; lia).
  cbn [bind writer.fileType fileSize].
  replace (4 + (session.wireSize chunks - 4)) with (session.wireSize chunks) by lia.
  unfold Close. cbn [closed negb fileSize writer.fileType].
  unfold internal.WriteAt. change (len (slice4 FourCCRIFF)) with 4.
  assert (Hu : uint32 (session.wireSize chunks) = session.wireSize chunks)
    by (unfold uint32; apply Z.mod_small; unfold MaxUint32 in Hfit; lia).
  rewrite Hu.
  assert (Hsplit : pre = firstn 4 pre ++ firstn 4 (skipn 4 pre) ++ skipn 8 pre).
  { rewrite <- (firstn_skipn 4 pre) at 1. f_equal.
    rewrite <- (firstn_skipn 4 (skipn 4 pre)) at 1. f_equal.
    now rewrite skipn_skipn. }
  rewrite Hsplit at 1. rewrite <- !app_assoc.
  unfold len in Hpre.
  rewrite Buffer_WriteAt_patch
    by (rewrite ?length_firstn, ?length_skipn; try reflexivity; lia).
  cbn [bind].
  change (len (LittleEndianUInt32Bytes (session.wireSize chunks))) with 4.
  cbn [Z.ltb Z.compare Pos.compare Pos.compare_cont snd]. reflexivity.
Qed.

Lemma WriteAll_not_at_start_witness :
  session.WriteAll bytes.Buffer_Write test.Buffer_WriteAt
    (map byte_of_Z [1; 2; 3; 4; 5; 6; 7; 8; 9]) examples.FileType []
    = Ret (None,
           map byte_of_Z [1; 2; 3; 4]
           ++ LittleEndianUInt32Bytes 4
           ++ map byte_of_Z [9]
           ++ slice4 FourCCRIFF ++ slice4 EmptyBytes ++ slice4 examples.FileType).
Proof.
  assert (H1 : 8 <= len (map byte_of_Z [1; 2; 3; 4; 5; 6; 7; 8; 9]))
    by (vm_compute; discriminate).
  assert (H2 : session.wireSize [] <= MaxUint32) by (vm_compute; discriminate).
  exact (WriteAll_not_at_start (map byte_of_Z [1; 2; 3; 4; 5; 6; 7; 8; 9])
           examples.FileType [] H1 H2).
Defined.

(** * Runs of the writer over shared arrays *)

(** ** Slices and the store *)

Lemma bytes_of_length (st : slices.Store) (s : slices.Slice) :
  slices.valid st s = true -> length (slices.bytes_of st s) = slices.slen s.
Proof.
  unfold slices.valid, slices.bytes_of. intros H.
  apply andb_true_iff in H as [H1 H2].
  apply Nat.leb_le in H1. apply Nat.leb_le in H2.
  rewrite length_firstn, length_skipn. lia.
Qed.

Lemma write_length (st : slices.Store) (a p : nat) (bs : list byte) :
  length (slices.write st a p bs) = length st.
Proof.
  unfold slices.write. destruct (nth_error st a) as [old|] eqn:E; [|reflexivity].
  assert (Ha : (a < length st)%nat) by (apply nth_error_Some; congruence).
  rewrite length_app. cbn [length]. rewrite length_firstn, length_skipn. lia.
Qed.

Lemma write_nth_same (st : slices.Store) (a p : nat) (bs old : list byte) :
  nth_error st a = Some old ->
  nth a (slices.write st a p bs) [] = firstn p old ++ fill (skipn p old) bs.
Proof.
  intros E. unfold slices.write. rewrite E.
  assert (Ha : (a < length st)%nat) by (apply nth_error_Some; congruence).
  rewrite app_nth2 by (rewrite length_firstn; lia).
  rewrite length_firstn. replace (a - Nat.min a (length st))%nat with 0%nat by lia.
  reflexivity.
Qed.

Lemma write_nth_other (st : slices.Store) (a a' p : nat) (bs : list byte) :
  a' <> a -> nth a' (slices.write st a p bs) [] = nth a' st [].
Proof.
  intros Hne. unfold slices.write.
  destruct (nth_error st a) as [old|] eqn:E; [|reflexivity].
  assert (Ha : (a < length st)%nat) by (apply nth_error_Some; congruence).
  destruct (Nat.lt_ge_cases a' a) as [Hlt|Hge].
  - rewrite app_nth1 by (rewrite length_firstn; lia).
    rewrite nth_firstn. now replace (a' <? a)%nat with true by (symmetry; apply Nat.ltb_lt; lia).
  - rewrite app_nth2 by (rewrite length_firstn; lia).
    rewrite length_firstn. replace (Nat.min a (length st)) with a by lia.
    destruct (a' - a)%nat as [|k] eqn:Ek; [lia|]. cbn [nth].
    rewrite nth_skipn. f_equal. lia.
Qed.

Lemma write_nth_length (st : slices.Store) (a a' p : nat) (bs : list byte) :
  length (nth a' (slices.write st a p bs) []) = length (nth a' st []).
Proof.
  destruct (Nat.eq_dec a' a) as [->|Hne]; [|now rewrite write_nth_other].
  destruct (nth_error st a) as [old|] eqn:E.
  - rewrite (write_nth_same _ _ _ _ _ E), (@nth_error_nth _ _ _ _ [] E).
    rewrite length_app, fill_length, length_firstn, length_skipn. lia.
  - unfold slices.write. now rewrite E.
Qed.

(** [Pad] on a slice gives a slice that holds what [internal.Pad] gives
    for the bytes of the first. *)
Lemma Pad_bytes (st : slices.Store) (s : slices.Slice) :
  slices.valid st s = true ->
  slices.bytes_of (fst (slices.Pad st s)) (snd (slices.Pad st s))
    = internal.Pad (slices.bytes_of st s).
Proof.
  intros Hv. pose proof (bytes_of_length st s Hv) as Hl.
  unfold slices.Pad, internal.Pad, len. rewrite Hl.
  destruct (negb (Z.rem (Z.of_nat (slices.slen s)) wordLength =? 0)) eqn:Hodd;
    [|reflexivity].
  assert (Hm : make (wordLength - Z.rem (Z.of_nat (slices.slen s)) wordLength) = [x00]).
  { unfold wordLength in *. 
    destruct (rem2_cases (Z.of_nat (slices.slen s)) ltac:(lia)) as [[E _]|[E _]];
      rewrite E in *; [discriminate|reflexivity]. }
  rewrite Hm. unfold slices.append. cbn [length].
  unfold slices.valid in Hv. apply andb_true_iff in Hv as [H1 H2].
  apply Nat.leb_le in H1. apply Nat.leb_le in H2.
  destruct (slices.slen s + 1 <=? slices.scap s)%nat eqn:Hroom; cbn [fst snd].
  - apply Nat.leb_le in Hroom.
    unfold slices.bytes_of at 1. cbn [slices.arr slices.off slices.slen].
    destruct (nth_error st (slices.arr s)) as [old|] eqn:E.
    + rewrite (write_nth_same _ _ _ _ _ E).
      rewrite (@nth_error_nth _ _ _ _ [] E) in H2.
      unfold slices.bytes_of. rewrite (@nth_error_nth _ _ _ _ [] E).
      set (p := (slices.off s + slices.slen s)%nat).
      assert (Hsk : skipn p old <> []).
      { intros Z0. apply (f_equal (@length byte)) in Z0.
        rewrite length_skipn in Z0. cbn in Z0. lia. }
      destruct (skipn p old) as [|y rest] eqn:Esk; [easy|].
      unfold fill. cbn [length firstn skipn app].
      rewrite skipn_app, length_firstn.
      replace (Nat.min p (length old)) with p by lia.
      rewrite skipn_firstn_comm. replace (p - slices.off s)%nat with (slices.slen s) by lia.
      replace (slices.off s - p)%nat with 0%nat by lia. cbn [skipn].
      rewrite firstn_app, length_firstn, length_skipn.
      replace (Nat.min (slices.slen s) (length old - slices.off s)) with (slices.slen s) by lia.
      rewrite firstn_firstn. replace (Nat.min (slices.slen s + 1) (slices.slen s)) with (slices.slen s) by lia.
      replace (slices.slen s + 1 - slices.slen s)%nat with 1%nat by lia. reflexivity.
    + apply nth_error_None in E. rewrite nth_overflow in H2 by lia. cbn in H2. lia.
  - unfold slices.bytes_of at 1. cbn [slices.arr slices.off slices.slen].
    rewrite app_nth2, Nat.sub_diag by lia. cbn [nth skipn].
    apply firstn_all2. rewrite length_app, Hl. cbn. lia.
Qed.

(** [Pad] never changes the length of an array, so the slices that were
    valid stay valid. *)
Lemma Pad_nth_length (st : slices.Store) (s : slices.Slice) (a : nat) :
  (length (nth a st []) <= length (nth a (fst (slices.Pad st s)) []))%nat.
Proof.
  unfold slices.Pad, slices.append.
  destruct (negb _); [|cbn [fst]; lia].
  destruct (_ <=? _)%nat; cbn [fst].
  - rewrite write_nth_length. lia.
  - destruct (Nat.lt_ge_cases a (length st)) as [Hlt|Hge].
    + rewrite app_nth1 by lia. lia.
    + rewrite (nth_overflow st) by lia. cbn. lia.
Qed.

Lemma Pad_valid (st : slices.Store) (s s' : slices.Slice) :
  slices.valid st s' = true -> slices.valid (fst (slices.Pad st s)) s' = true.
Proof.
  unfold slices.valid. intros H. apply andb_true_iff in H as [H1 H2].
  apply Nat.leb_le in H2. pose proof (Pad_nth_length st s (slices.arr s')).
  apply andb_true_iff. split; [exact H1|]. apply Nat.leb_le. lia.
Qed.

Lemma Pad_valid_all (st : slices.Store) (s : slices.Slice)
    (chunks : list slices.Chunk) :
  forallb (fun c => slices.valid st (slices.Data c)) chunks = true ->
  forallb (fun c => slices.valid (fst (slices.Pad st s)) (slices.Data c)) chunks = true.
Proof.
  rewrite !forallb_forall. intros H c Hc. apply Pad_valid. now apply H.
Qed.

(** [Pad] leaves the bytes of a slice that it does not hit. *)
Lemma Pad_other (st : slices.Store) (s s' : slices.Slice) :
  slices.valid st s = true -> slices.valid st s' = true ->
  slices.hits s s' = false ->
  slices.bytes_of (fst (slices.Pad st s)) s' = slices.bytes_of st s'.
Proof.
  intros Hv Hv' Hh.
  unfold slices.valid in Hv, Hv'.
  apply andb_true_iff in Hv as [H1 H2]. apply andb_true_iff in Hv' as [H1' H2'].
  apply Nat.leb_le in H1, H2, H1', H2'.
  unfold slices.Pad.
  destruct (negb (Z.rem (Z.of_nat (slices.slen s)) wordLength =? 0)) eqn:Hodd;
    [|reflexivity].
  assert (Hm : make (wordLength - Z.rem (Z.of_nat (slices.slen s)) wordLength) = [x00]).
  { unfold wordLength in *.
    destruct (rem2_cases (Z.of_nat (slices.slen s)) ltac:(lia)) as [[E _]|[E _]];
      rewrite E in *; [discriminate|reflexivity]. }
  rewrite Hm. unfold slices.append. cbn [length].
  unfold slices.hits in Hh. rewrite Hodd in Hh. cbn [andb] in Hh.
  destruct (slices.slen s + 1 <=? slices.scap s)%nat eqn:Hroom; cbn [fst].
  - apply Nat.leb_le in Hroom.
    replace (slices.slen s <? slices.scap s)%nat with true in Hh
      by (symmetry; apply Nat.ltb_lt; lia).
    cbn [andb] in Hh.
    unfold slices.bytes_of.
    destruct (Nat.eq_dec (slices.arr s') (slices.arr s)) as [Ea|Hne];
      [|now rewrite write_nth_other].
    rewrite Ea in *.
    replace (slices.arr s =? slices.arr s)%nat with true in Hh
      by (symmetry; apply Nat.eqb_refl).
    cbn [andb] in Hh.
    destruct (nth_error st (slices.arr s)) as [old|] eqn:E;
      [|unfold slices.write; now rewrite E].
    rewrite (write_nth_same _ _ _ _ _ E), (@nth_error_nth _ _ _ _ [] E).
    rewrite (@nth_error_nth _ _ _ _ [] E) in H2, H2'.
    set (p := (slices.off s + slices.slen s)%nat) in *.
    destruct (skipn p old) as [|y rest] eqn:Esk.
    { apply (f_equal (@length byte)) in Esk. rewrite length_skipn in Esk.
      cbn in Esk. lia. }
    assert (Hrest : rest = skipn (S p) old).
    { change (S p) with (1 + p)%nat. rewrite <- (skipn_skipn 1 p old), Esk.
      reflexivity. }
    unfold fill. cbn [length firstn skipn app].
    destruct (slices.off s' <=? p)%nat eqn:Hlo; cbn [andb] in Hh.
    + apply Nat.leb_le in Hlo. apply Nat.ltb_ge in Hh.
      rewrite !firstn_skipn_comm. f_equal.
      rewrite firstn_app, length_firstn, firstn_firstn.
      replace (Nat.min p (length old)) with p by lia.
      replace (slices.off s' + slices.slen s' - p)%nat with 0%nat by lia.
      cbn [firstn]. rewrite app_nil_r. f_equal. lia.
    + apply Nat.leb_gt in Hlo.
      f_equal. rewrite skipn_app, length_firstn.
      replace (Nat.min p (length old)) with p by lia.
      rewrite skipn_all2 by (rewrite length_firstn; lia). cbn [app].
      destruct (slices.off s' - p)%nat as [|k] eqn:Ek; [lia|]. cbn [skipn].
      rewrite firstn_nil. cbn [app]. rewrite Hrest, skipn_skipn. f_equal. lia.
  - unfold slices.bytes_of.
    destruct (Nat.lt_ge_cases (slices.arr s') (length st)) as [Hlt|Hge].
    + now rewrite app_nth1 by lia.
    + rewrite (nth_overflow st) in * by lia. cbn [length] in H2'.
      replace (slices.slen s') with 0%nat by lia. reflexivity.
Qed.

Lemma bytes_of_len (st : slices.Store) (s : slices.Slice) :
  slices.valid st s = true -> len (slices.bytes_of st s) = Z.of_nat (slices.slen s).
Proof. intros H. unfold len. now rewrite bytes_of_length. Qed.

Lemma wireSize_lengths (l1 l2 : list Chunk) :
  map (fun c => len (Data c)) l1 = map (fun c => len (Data c)) l2 ->
  session.wireSize l1 = session.wireSize l2.
Proof.
  revert l2. induction l1 as [|c rest IH]; intros [|c2 rest2] H;
    try discriminate; [reflexivity|].
  cbn [map] in H. injection H as Hc Hr.
  cbn [session.wireSize]. rewrite Hc, (IH _ Hr). reflexivity.
Qed.

Lemma written_lengths (chunks : list slices.Chunk) :
  forall st : slices.Store,
    forallb (fun c => slices.valid st (slices.Data c)) chunks = true ->
    map (fun c => len (Data c)) (slices.written st chunks)
      = map (fun c => Z.of_nat (slices.slen (slices.Data c))) chunks.
Proof.
  induction chunks as [|c rest IH]; intros st Hv; [reflexivity|].
  cbn [forallb] in Hv. apply andb_true_iff in Hv as [Hc Hr].
  cbn [slices.written map slices.deref Data].
  rewrite bytes_of_len by assumption. f_equal.
  apply IH. now apply Pad_valid_all.
Qed.

Lemma deref_lengths (chunks : list slices.Chunk) (st : slices.Store) :
  forallb (fun c => slices.valid st (slices.Data c)) chunks = true ->
  map (fun c => len (Data c)) (map (slices.deref st) chunks)
    = map (fun c => Z.of_nat (slices.slen (slices.Data c))) chunks.
Proof.
  intros Hv. rewrite map_map. apply map_ext_in. intros c Hc.
  cbn [slices.deref Data]. apply bytes_of_len.
  rewrite forallb_forall in Hv. now apply Hv.
Qed.

Lemma wireSize_written (chunks : list slices.Chunk) (st : slices.Store) :
  forallb (fun c => slices.valid st (slices.Data c)) chunks = true ->
  session.wireSize (slices.written st chunks)
    = session.wireSize (map (slices.deref st) chunks).
Proof.
  intros Hv. apply wireSize_lengths.
  now rewrite written_lengths, deref_lengths.
Qed.

(** When no chunk's padding falls into a later chunk, every chunk is
    written as the caller gave it. *)
Lemma written_independent (chunks : list slices.Chunk) :
  forall st : slices.Store,
    forallb (fun c => slices.valid st (slices.Data c)) chunks = true ->
    slices.independent chunks = true ->
    slices.written st chunks = map (slices.deref st) chunks.
Proof.
  induction chunks as [|c rest IH]; intros st Hv Hi; [reflexivity|].
  cbn [forallb] in Hv. apply andb_true_iff in Hv as [Hc Hr].
  cbn [slices.independent] in Hi. apply andb_true_iff in Hi as [Hh Hi].
  cbn [slices.written map]. f_equal.
  rewrite IH by (try assumption; now apply Pad_valid_all).
  apply map_ext_in. intros c' Hc'. unfold slices.deref. f_equal.
  rewrite forallb_forall in Hh, Hr.
  apply Pad_other; [assumption|now apply Hr|].
  specialize (Hh c' Hc'). now apply negb_true_iff in Hh.
Qed.

(** ** The writer over shared arrays *)

(** One call of [WriteChunk] does to the transport and to the writer what
    it does for the bytes that the chunk's data hold when it is called;
    and, when it gets as far as writing, it leaves the store as [Pad]
    leaves it. *)
Lemma WriteChunk_deref
    (W : Type) (tWrite : W -> list byte -> outcome ((Z * option error) * W))
    (w : Writer) (t : W) (st : slices.Store) (c : slices.Chunk) :
  slices.valid st (slices.Data c) = true ->
  slices.WriteChunk tWrite w t st c =
    ('(res, w', t') <- WriteChunk tWrite w t (slices.deref st c) ;;
     let newSize := int64 (fileSize w + ByteLength (slices.deref st c)) in
     Ret (res, w', t',
          if negb (closed w)
             && negb ((newSize >? MaxUint32) || (newSize <? fileSize w))
          then fst (slices.Pad st (slices.Data c)) else st)).
Proof.
  intros Hv.
  assert (HBL : slices.ByteLength c = ByteLength (slices.deref st c)).
  { unfold slices.ByteLength, ByteLength. cbn [slices.deref Data].
    now rewrite bytes_of_len. }
  unfold slices.WriteChunk, WriteChunk. rewrite HBL.
  destruct (negb (closed w)); [|reflexivity]. cbn [andb].
  destruct (_ || _); [reflexivity|]. cbn [negb].
  pose proof (Pad_bytes st (slices.Data c) Hv) as HP.
  destruct (slices.Pad st (slices.Data c)) as [st' b]. cbn [fst snd] in HP |- *.
  rewrite HP. cbn [slices.deref Data Identifier].
  rewrite bytes_of_len by assumption.
  destruct (internal.Write _ _ _) as [[[n err] t']|v]; [|reflexivity].
  cbn [bind]. now destruct err.
Qed.

Lemma slices_WriteChunks_Buffer (chunks : list slices.Chunk) :
  forall (w : Writer) (t : list byte) (st : slices.Store),
    closed w = false ->
    0 <= fileSize w ->
    forallb (fun c => slices.valid st (slices.Data c)) chunks = true ->
    fileSize w + (session.wireSize (slices.written st chunks) - 4) <= MaxUint32 ->
    exists st' : slices.Store,
      slices.WriteChunks bytes.Buffer_Write w t st chunks
        = Ret (None,
               mkWriter (writer.fileType w)
                 (fileSize w + (session.wireSize (slices.written st chunks) - 4))
                 false,
               t ++ concat (map examples.chunk (slices.written st chunks)), st').
Proof.
  induction chunks as [|c rest IH]; intros w t st Hopen H0 Hv Hfit.
  - exists st. cbn [slices.WriteChunks slices.written session.wireSize map concat].
    rewrite app_nil_r, Z.sub_diag, Z.add_0_r.
    destruct w as [ft fs cl]. cbn in Hopen. now subst cl.
  - cbn [forallb] in Hv. apply andb_true_iff in Hv as [Hc Hr].
    cbn [slices.WriteChunks slices.written session.wireSize map concat] in *.
    pose proof (wireSize_lower (slices.written (fst (slices.Pad st (slices.Data c))) rest)).
    pose proof (len_nonneg (Data (slices.deref st c))).
    pose proof (Z.mod_pos_bound (len (Data (slices.deref st c))) 2).
    rewrite WriteChunk_deref by assumption.
    rewrite WriteChunk_Buffer by (try assumption; lia).
    cbn [bind snd]. rewrite Hopen. cbn [negb andb].
    unfold MaxUint32 in Hfit.
    rewrite ByteLength_small by lia. rewrite int64_small by lia.
    replace (_ || _) with false
      by (symmetry; apply orb_false_iff; split;
          [rewrite Z.gtb_ltb; apply Z.ltb_ge; unfold MaxUint32; lia
          |apply Z.ltb_ge; lia]).
    cbn [negb].
    destruct (IH (mkWriter (writer.fileType w)
                    (fileSize w + (8 + (len (Data (slices.deref st c))
                                        + len (Data (slices.deref st c)) mod 2)))
                    false)
                 (t ++ examples.chunk (slices.deref st c))
                 (fst (slices.Pad st (slices.Data c))))
      as [st' Hrun];
      [reflexivity|cbn [fileSize]; lia|now apply Pad_valid_all
      |cbn [fileSize]; unfold MaxUint32; lia|].
    exists st'. rewrite Hrun. cbn [writer.fileType fileSize]. rewrite app_assoc.
    replace (fileSize w + (8 + (len (Data (slices.deref st c))
                                + len (Data (slices.deref st c)) mod 2))
             + (session.wireSize
                  (slices.written (fst (slices.Pad st (slices.Data c))) rest) - 4))
      with (fileSize w
            + (8 + (len (Data (slices.deref st c))
                    + len (Data (slices.deref st c)) mod 2)
               + session.wireSize
                   (slices.written (fst (slices.Pad st (slices.Data c))) rest) - 4))
      by lia.
    reflexivity.
Qed.

(** A run of the writer on an empty buffer leaves the header, with the
    size of what follows it, and the chunks as each stood when it was
    written. *)
Lemma slices_WriteAll_Buffer
    (ft : FileType) (st : slices.Store) (chunks : list slices.Chunk) :
  forallb (fun c => slices.valid st (slices.Data c)) chunks = true ->
  session.wireSize (slices.written st chunks) <= MaxUint32 ->
  exists st' : slices.Store,
    slices.WriteAll bytes.Buffer_Write test.Buffer_WriteAt [] st ft chunks
      = Ret (None,
             slice4 FourCCRIFF
             ++ LittleEndianUInt32Bytes (session.wireSize (slices.written st chunks))
             ++ slice4 ft ++ concat (map examples.chunk (slices.written st chunks)),
             st').
Proof.
  intros Hv Hfit. unfold slices.WriteAll. rewrite writer_New_Buffer. cbn [bind].
  pose proof (wireSize_lower (slices.written st chunks)).
  destruct (slices_WriteChunks_Buffer chunks (mkWriter ft 4 false)
              (slice4 FourCCRIFF ++ slice4 EmptyBytes ++ slice4 ft) st)
    as [st' Hrun];
    [reflexivity|cbn [fileSize]; lia|assumption|cbn [fileSize]; lia|].
  exists st'. rewrite Hrun.
  cbn [bind writer.fileType fileSize].
  replace (4 + (session.wireSize (slices.written st chunks) - 4))
    with (session.wireSize (slices.written st chunks)) by lia.
  unfold Close. cbn [closed negb fileSize writer.fileType].
  unfold internal.WriteAt. change (len (slice4 FourCCRIFF)) with 4.
  assert (Hu : uint32 (session.wireSize (slices.written st chunks))
               = session.wireSize (slices.written st chunks))
    by (unfold uint32; apply Z.mod_small; unfold MaxUint32 in Hfit; lia).
  rewrite Hu. rewrite <- !app_assoc.
  rewrite Buffer_WriteAt_patch
    by (try reflexivity; destruct ft as [[[? ?] ?] ?]; reflexivity).
  cbn [bind].
  change (len (LittleEndianUInt32Bytes (session.wireSize (slices.written st chunks))))
    with 4.
  cbn [Z.ltb Z.compare Pos.compare Pos.compare_cont snd]. reflexivity.
Qed.

(** X17.  What a run of the writer on an empty buffer leaves is a RIFF
    container: "RIFF", then a size field that holds exactly the number of
    bytes after it, then the file type, then the chunks on the wire, each
    with the bytes its data held when its turn came; its length is even.
    [Pad] writes a zero behind data of odd length that have spare capacity,
    so a chunk whose data lie there is written with that zero; when no
    chunk's padding falls into a later chunk, the chunks are written as the
    caller gave them. *)
Theorem WriteAll_wire_format
    (ft : FileType) (st : slices.Store) (chunks : list slices.Chunk) :
  forallb (fun c => slices.valid st (slices.Data c)) chunks = true ->
  session.wireSize (map (slices.deref st) chunks) <= MaxUint32 ->
  exists (stream : list byte) (st' : slices.Store),
    slices.WriteAll bytes.Buffer_Write test.Buffer_WriteAt [] st ft chunks
      = Ret (None, stream, st') /\
    firstn 4 stream = slice4 FourCCRIFF /\
    Uint32 (skipn 4 stream) = Ret (len stream - 8) /\
    firstn 4 (skipn 8 stream) = slice4 ft /\
    skipn 12 stream = concat (map examples.chunk (slices.written st chunks)) /\
    len stream mod 2 = 0 /\
    (slices.independent chunks = true ->
     slices.written st chunks = map (slices.deref st) chunks).
Proof.
  intros Hv Hfit. rewrite <- wireSize_written in Hfit by assumption.
  destruct (slices_WriteAll_Buffer ft st chunks Hv Hfit) as [st' Hrun].
  destruct (wire_format_shape ft (slices.written st chunks) Hfit)
    as (H1 & H2 & H3 & H4 & H5).
  eexists. exists st'. split; [exact Hrun|].
  repeat (split; [assumption|]).
  intros Hi. now apply written_independent.
Qed.

Lemma WriteAll_wire_format_witness :
  let st := [map byte_of_Z [1; 2; 3; 4; 5; 6]] in
  let chunks := [slices.mkChunk FourCCFormat (slices.mkSlice 0 0 3 6);
                 slices.mkChunk FourCCData (slices.mkSlice 0 3 3 3)] in
  exists (stream : list byte) (st' : slices.Store),
    slices.WriteAll bytes.Buffer_Write test.Buffer_WriteAt [] st examples.FileType
      chunks = Ret (None, stream, st') /\
    firstn 4 stream = slice4 FourCCRIFF /\
    Uint32 (skipn 4 stream) = Ret (len stream - 8) /\
    firstn 4 (skipn 8 stream) = slice4 examples.FileType /\
    skipn 12 stream
      = examples.chunk (mkChunk FourCCFormat (map byte_of_Z [1; 2; 3]))
        ++ examples.chunk (mkChunk FourCCData (map byte_of_Z [0; 5; 6])) /\
    len stream mod 2 = 0 /\
    (slices.independent chunks = true ->
     slices.written st chunks = map (slices.deref st) chunks).
Proof.
  cbv zeta.
  assert (Hv : forallb (fun c => slices.valid [map byte_of_Z [1; 2; 3; 4; 5; 6]]
                                   (slices.Data c))
                 [slices.mkChunk FourCCFormat (slices.mkSlice 0 0 3 6);
                  slices.mkChunk FourCCData (slices.mkSlice 0 3 3 3)] = true)
    by reflexivity.
  assert (Hfit : session.wireSize
                   (map (slices.deref [map byte_of_Z [1; 2; 3; 4; 5; 6]])
                      [slices.mkChunk FourCCFormat (slices.mkSlice 0 0 3 6);
                       slices.mkChunk FourCCData (slices.mkSlice 0 3 3 3)])
                 <= MaxUint32) by (vm_compute; discriminate).
  exact (WriteAll_wire_format examples.FileType _ _ Hv Hfit).
Defined.

(** ** Writing, then reading, over shared arrays *)



(** C3.  Writing and reading do not give every sequence of chunks back.
    A last chunk without data, written to a buffer and read behind a
    [bytes.Reader], is lost: [ReadToEnd] returns the chunk before it and no
    error.  And of two chunks whose data are [array[0:3]] and [array[3:6]]
    of one array, the second is written, and read back, with a zero for
    its first byte: padding the first has written it there. *)
Theorem write_then_read_loses_data :
  (let st := [map byte_of_Z [3; 2; 1]; []] in
   let chunks := [slices.mkChunk FourCCData (slices.mkSlice 0 0 3 3);
                  slices.mkChunk FourCCFormat (slices.mkSlice 1 0 0 0)] in
   let stream :=
     slice4 FourCCRIFF ++ LittleEndianUInt32Bytes 24 ++ slice4 examples.FileType
     ++ examples.chunk (mkChunk FourCCData (map byte_of_Z [3; 2; 1]))
     ++ examples.chunk (mkChunk FourCCFormat []) in
   map (slices.deref st) chunks
     = [mkChunk FourCCData (map byte_of_Z [3; 2; 1]); mkChunk FourCCFormat []] /\
   (exists st' : slices.Store,
      slices.WriteAll bytes.Buffer_Write test.Buffer_WriteAt [] st examples.FileType
        chunks = Ret (None, stream, st')) /\
   exists (r : Reader) (t : list byte),
     New bytes.Reader_Read stream = Ret (inl r, t) /\
     forall fuel : nat,
       exists r' : Reader,
         ReadToEnd bytes.Reader_Read (S (S fuel)) r t
           = Some (Ret (([mkChunk FourCCData (map byte_of_Z [3; 2; 1])], None),
                        r', []))) /\
  (let st := [map byte_of_Z [1; 2; 3; 4; 5; 6]] in
   let chunks := [slices.mkChunk FourCCFormat (slices.mkSlice 0 0 3 6);
                  slices.mkChunk FourCCData (slices.mkSlice 0 3 3 3)] in
   let stream :=
     slice4 FourCCRIFF ++ LittleEndianUInt32Bytes 28 ++ slice4 examples.FileType
     ++ examples.chunk (mkChunk FourCCFormat (map byte_of_Z [1; 2; 3]))
     ++ examples.chunk (mkChunk FourCCData (map byte_of_Z [0; 5; 6])) in
   map (slices.deref st) chunks
     = [mkChunk FourCCFormat (map byte_of_Z [1; 2; 3]);
        mkChunk FourCCData (map byte_of_Z [4; 5; 6])] /\
   (exists st' : slices.Store,
      slices.WriteAll bytes.Buffer_Write test.Buffer_WriteAt [] st examples.FileType
        chunks = Ret (None, stream, st') /\
      nth 0 st' [] = map byte_of_Z [1; 2; 3; 0; 5; 6]) /\
   exists (r : Reader) (t : list byte),
     New bytes.Buffer_Read stream = Ret (inl r, t) /\
     forall fuel : nat,
       exists r' : Reader,
         ReadToEnd bytes.Buffer_Read (S (S (S fuel))) r t
           = Some (Ret (([mkChunk FourCCFormat (map byte_of_Z [1; 2; 3]);
                          mkChunk FourCCData (map byte_of_Z [0; 5; 6])], None),
                        r', []))).
Proof.
  cbv zeta. split.
  - split; [reflexivity|]. split; [eexists; vm_compute; reflexivity|].
    do 2 eexists. split; [vm_compute; reflexivity|].
    intros fuel. eexists. reflexivity.
  - split; [reflexivity|]. split; [eexists; split; vm_compute; reflexivity|].
    do 2 eexists. split; [vm_compute; reflexivity|].
    intros fuel. eexists. reflexivity.
Qed.
